(** * EmailOrganizer: a shallow embedding of [email_analyzer.py]

    The program fetches the unread messages of a mailbox through the
    provider's API ([get_all_unread_emails]), groups them by subject
    ([suggest_categories]) and writes the groups to a CSV file
    ([save_categories_to_file]).

    The mail provider, the TF-IDF vectorizer, the k-means implementation,
    numpy's sort, the csv writer and the file system are collaborators of
    the script, not part of it.  They are kept abstract: each section below
    takes them as variables or as the class [Numpy], and the
    script's own control flow (loops, guards, [try]/[except], string
    formatting, defaults of [dict.get]) is written out.

    Python values are embedded as follows.
    - [int] is [Z]; [len] is [Z.of_nat (length _)]; [//] and [%] on integers
      are [Z.div] and [Z.modulo] (both round towards minus infinity, as in
      Python), with the [ZeroDivisionError] written out.
    - [float] is [spec_float] at binary64 ([prec = 53], [emax = 1024]).
    - [str] is [string]; a character stands for the code point of the same
      number, so the embedding covers code points below 256.
    - a [dict] with a fixed set of keys is a record; a key that may be
      absent is an [option] field and [d.get(k, default)] is [dict_get].
    - an exception is a value of [exn]; a computation is a function from a
      [world] to an [outcome] and the next [world].
    - [while True] runs on fuel; the last part of the file shows that the
      fetch ends within the fuel its safety check allows. *)

From Stdlib Require Import ZArith List String Ascii Bool Lia.
From Stdlib Require Import QArith Sorted Permutation DecimalString SpecFloat.
From Stdlib Require DecimalPos.
Import ListNotations.

Open Scope string_scope.
Open Scope Z_scope.

(** ** Strings and formatting *)

(** [str(n)] for an [int]. *)
Definition str_int (z : Z) : string := NilZero.string_of_int (Z.to_int z).

(** [str(b)] for a [bool]. *)
Definition str_bool (b : bool) : string := if b then "True" else "False".

(** [sep.join(words)]. *)
Definition join (sep : string) (words : list string) : string :=
  String.concat sep words.

(** [c.isspace()] on the code points below 256: the ASCII white space, the
    four information separators, NEL and the no-break space. *)
Definition isspace (c : ascii) : bool :=
  let n := Z.of_nat (nat_of_ascii c) in
  ((9 <=? n) && (n <=? 13)) || ((28 <=? n) && (n <=? 32))
  || (n =? 133) || (n =? 160).

Fixpoint lstrip (s : string) : string :=
  match s with
  | EmptyString => EmptyString
  | String c s' => if isspace c then lstrip s' else s
  end.

Fixpoint string_rev_onto (s acc : string) : string :=
  match s with
  | EmptyString => acc
  | String c s' => string_rev_onto s' (String c acc)
  end.

Definition string_rev (s : string) : string := string_rev_onto s EmptyString.

(** [s.strip()]: white space removed at both ends. *)
Definition strip (s : string) : string :=
  string_rev (lstrip (string_rev (lstrip s))).

(** Truth value of a [str]: the empty string is false. *)
Definition str_truthy (s : string) : bool :=
  match s with EmptyString => false | String _ _ => true end.

(** ** Exceptions *)

Inductive exn : Type :=
| KeyError (key : string)
| IndexError (msg : string)
| ZeroDivisionError (msg : string)
| OverflowError (msg : string)
| LibraryError (msg : string).
  (* [LibraryError]: any exception raised inside a collaborator (HttpError,
     ValueError, OSError, ...); all of them derive from [Exception]. *)

(** [str(e)], as the [except] clauses print it. *)
Definition str_exn (e : exn) : string :=
  match e with
  | KeyError key => "'" ++ key ++ "'"
  | IndexError msg => msg
  | ZeroDivisionError msg => msg
  | OverflowError msg => msg
  | LibraryError msg => msg
  end.

(** ** Sequences *)

(** [l[-n:]]: the last [n] items, all of them when there are fewer. *)
Definition last_n {A : Type} (n : nat) (l : list A) : list A :=
  skipn (List.length l - n) l.

(** [l[i]] for a Python [list] and an integer index: a negative index counts
    from the end, anything out of range is an [IndexError]. *)
Definition py_getitem {A : Type} (l : list A) (i : Z) : option A :=
  let n := Z.of_nat (List.length l) in
  if 0 <=? i then nth_error l (Z.to_nat i)
  else if - n <=? i then nth_error l (Z.to_nat (n + i))
  else None.

(** [d.get(key, default)] for an optional key. *)
Definition dict_get {A : Type} (field : option A) (default : A) : A :=
  match field with Some v => v | None => default end.

(** ** The record of one message *)

(** The [email_data] dictionary built by the fetch.  [from], [subject] and
    [date] exist only when the message has the header; [category] is added
    by [suggest_categories]. *)
Record Email : Type := mkEmail {
  email_id : string;
  email_threadId : string;
  email_from : option string;
  email_subject : option string;
  email_date : option string;
  email_has_body : option bool;
  email_body : string;
  email_category : option string
}.

(** [email['category'] = label]. *)
Definition set_category (label : string) (email : Email) : Email :=
  {| email_id := email_id email;
     email_threadId := email_threadId email;
     email_from := email_from email;
     email_subject := email_subject email;
     email_date := email_date email;
     email_has_body := email_has_body email;
     email_body := email_body email;
     email_category := Some label |}.

(** ** Effects *)

(** What the script does to its surroundings, in order. *)
Inductive event : Type :=
| EvListMessages (q : string) (pageToken : option string) (maxResults : Z)
| EvGetMessage (message_id : string)
| EvSleep (seconds : Z)
| EvFitTransform (documents : list string)
| EvKMeansFit (n_clusters : Z) (random_state : option Z)
| EvOpen (filename : string)
| EvWriteRow (row : list string)
| EvClose
| EvRaised (e : exn).

Inductive outcome (A : Type) : Type :=
| Ok (a : A)
| Raise (e : exn)
| Diverge.
  (* [Diverge]: the loop did not finish within the fuel it was given. *)

Arguments Ok {A} a.
Arguments Raise {A} e.
Arguments Diverge {A}.

(** The state a computation threads: the state of the collaborators, the
    lines printed so far and the events so far (both oldest first). *)
Record world (E : Type) : Type := mkWorld {
  env : E;
  console : list string;
  trace : list event
}.

Arguments mkWorld {E} env console trace.
Arguments env {E} w.
Arguments console {E} w.
Arguments trace {E} w.

Definition M (E A : Type) : Type := world E -> outcome A * world E.

Section Monad.
Context {E : Type}.

Definition ret {A : Type} (a : A) : M E A := fun w => (Ok a, w).

Definition bind {A B : Type} (c : M E A) (k : A -> M E B) : M E B :=
  fun w =>
    match c w with
    | (Ok a, w') => k a w'
    | (Raise e, w') => (Raise e, w')
    | (Diverge, w') => (Diverge, w')
    end.

Definition emit (ev : event) : M E unit :=
  fun w => (Ok tt, mkWorld (env w) (console w) (trace w ++ [ev])%list).

(** [print(line)]. *)
Definition print (line : string) : M E unit :=
  fun w => (Ok tt, mkWorld (env w) (console w ++ [line])%list (trace w)).

(** [raise e]; the event is recorded where the exception starts. *)
Definition throw {A : Type} (e : exn) : M E A :=
  fun w => (Raise e, mkWorld (env w) (console w) (trace w ++ [EvRaised e])%list).

(** [try: body / except Exception as e: handler e]. *)
Definition try_except {A : Type} (body : M E A) (handler : exn -> M E A)
  : M E A :=
  fun w =>
    match body w with
    | (Raise e, w') => handler e w'
    | r => r
    end.

(** A value that a pure step either produces or fails to produce. *)
Definition lift {A : Type} (r : exn + A) : M E A :=
  match r with inl e => throw e | inr a => ret a end.
End Monad.

Declare Scope monad_scope.
Delimit Scope monad_scope with monad.
Notation "x <- c ;; k" := (bind c (fun x => k))
  (at level 100, c at next level, right associativity) : monad_scope.
Notation "' p <- c ;; k" := (bind c (fun x => let 'p := x in k))
  (at level 100, p pattern, c at next level, right associativity) : monad_scope.
Notation "c ;; k" := (bind c (fun _ => k))
  (at level 100, right associativity) : monad_scope.
Open Scope monad_scope.

(** * The categorizer: [suggest_categories] *)

(** ** Collaborators: numpy and scikit-learn *)

(** [TfidfVectorizer(max_features=..., stop_words=..., min_df=..., max_df=...)]. *)
Record TfidfVectorizer : Type := mkTfidfVectorizer {
  max_features : Z;
  stop_words : string;
  min_df : Z;
  max_df : Q
}.

(** [KMeans(n_clusters=..., random_state=...)]. *)
Record KMeans : Type := mkKMeans {
  n_clusters : Z;
  random_state : option Z
}.

(** What a fitted [KMeans] exposes: one cluster id per document and one
    centroid per cluster, a row of one weight per feature.  The weights are
    finite binary64 numbers; only their order is used, so they are embedded
    as the rationals they denote. *)
Record KMeansFitted : Type := mkKMeansFitted {
  labels_ : list Z;
  cluster_centers_ : list (list Q)
}.

(** [enumerate(l)]. *)
Definition enumerate {A : Type} (l : list A) : list (nat * A) :=
  combine (seq 0 (List.length l)) l.

(** [a.argsort()] for a one-dimensional array of weights is numpy's, a
    collaborator of the script like the vectorizer and the clustering.  It
    gives the indices of [a] in an order of ascending weight; the order it
    gives to equal weights is not fixed (the default sorting routine is not
    stable), so the script is embedded over any [argsort]. *)
Class Numpy : Type := {
  argsort : list Q -> list nat
}.

(** ** The label of one cluster (lines 203-209) *)

(** [cluster_centers[i].argsort()[-3:][::-1]]. *)
Definition top_indices {numpy : Numpy} (center : list Q) : list nat :=
  rev (last_n 3 (argsort center)).

(** [[feature_names[idx] for idx in top_indices if idx < len(feature_names)]]. *)
Definition top_words (feature_names : list string) (indices : list nat)
  : list string :=
  map (fun idx => nth idx feature_names "")
      (filter (fun idx => (idx <? List.length feature_names)%nat) indices).

(** The body of the loop over [range(num_clusters)]. *)
Definition category_name {numpy : Numpy} (feature_names : list string)
  (i : nat) (center : list Q) : string :=
  match top_words feature_names (top_indices center) with
  | [] => "Category " ++ str_int (Z.of_nat i + 1)
  | words =>
      "Category " ++ str_int (Z.of_nat i + 1) ++ ": " ++ join ", " words
  end.

(** [for i in range(...)]: [count] more iterations, starting at [i]; row [i]
    of a two-dimensional array that has no such row is an [IndexError]. *)
Fixpoint build_categories {numpy : Numpy} (feature_names : list string)
  (cluster_centers : list (list Q)) (i count : nat) : exn + list string :=
  match count with
  | O => inr []
  | S count' =>
      match nth_error cluster_centers i with
      | None =>
          inl (IndexError ("index " ++ str_int (Z.of_nat i)
                 ++ " is out of bounds for axis 0 with size "
                 ++ str_int (Z.of_nat (List.length cluster_centers))))
      | Some center =>
          match build_categories feature_names cluster_centers (S i) count' with
          | inl e => inl e
          | inr categories =>
              inr (category_name feature_names i center :: categories)
          end
      end
  end.

(** ** The assignment loop (lines 213-214) *)

(** [for i, email in enumerate(emails): email['category'] =
    categories[clusters[i]]], from index [i] on.  The records are mutated in
    place: when an index is out of range the loop stops with the records
    before it already labelled, so the result is the list as the loop left
    it, with the exception if there is one.  The dictionaries of the list
    are taken to be distinct objects. *)
Fixpoint assign_categories (categories : list string) (clusters : list Z)
  (i : nat) (emails : list Email) : list Email * option exn :=
  match emails with
  | [] => ([], None)
  | email :: rest =>
      match nth_error clusters i with
      | None =>
          (emails,
           Some (IndexError ("index " ++ str_int (Z.of_nat i)
                   ++ " is out of bounds for axis 0 with size "
                   ++ str_int (Z.of_nat (List.length clusters)))))
      | Some c =>
          match py_getitem categories c with
          | None => (emails, Some (IndexError "list index out of range"))
          | Some label =>
              let (rest', r) := assign_categories categories clusters (S i) rest in
              (set_category label email :: rest', r)
          end
      end
  end.

(** Lines 183-184: the cluster count the clustering is asked for. *)
Definition effective_clusters (documents : list string) (num_clusters : Z) : Z :=
  if Z.of_nat (List.length documents) <? num_clusters
  then Z.max 2 (Z.of_nat (List.length documents) / 2)
  else num_clusters.

(** Lines 169-172: one document per record, its subject. *)
Definition documents_of (emails : list Email) : list string :=
  map (fun email => dict_get (email_subject email) "") emails.

(** Lines 175-180. *)
Definition vectorizer : TfidfVectorizer :=
  mkTfidfVectorizer 100 "english" 1 (9 # 10).

Section Categorizer.
Context {numpy : Numpy}.
(** The document-term matrix; the script only hands it on. *)
Variable Matrix : Type.
(** The state of the process-wide random generator, which an estimator
    draws from when it is given no seed. *)
Variable RNG : Type.

(** [vectorizer.fit_transform(documents)] together with the
    [vectorizer.get_feature_names_out()] of the fitted vectorizer. *)
Variable fit_transform :
  TfidfVectorizer -> list string -> exn + (Matrix * list string).

(** [kmeans.fit(X)]. *)
Variable fit : KMeans -> RNG -> Matrix -> (exn + KMeansFitted) * RNG.

Definition call_fit_transform (v : TfidfVectorizer) (documents : list string)
  : M RNG (Matrix * list string) :=
  emit (EvFitTransform documents);;
  lift (fit_transform v documents).

Definition call_fit (kmeans : KMeans) (X : Matrix) : M RNG KMeansFitted :=
  emit (EvKMeansFit (n_clusters kmeans) (random_state kmeans));;
  fun w =>
    let (r, g) := fit kmeans (env w) X in
    lift r (mkWorld g (console w) (trace w)).

(** Lines 187-210: vectorize, cluster, name the clusters. *)
Definition cluster_labels (documents : list string) (num_clusters : Z)
  : M RNG (list string * list Z) :=
  ' (X, feature_names) <- call_fit_transform vectorizer documents;;
  fitted <- call_fit (mkKMeans num_clusters (Some 42)) X;;
  categories <- lift (build_categories feature_names (cluster_centers_ fitted)
                        0 (Z.to_nat num_clusters));;
  ret (categories, labels_ fitted).

(** Lines 218-223: the [except] clause. *)
Definition uncategorize (e : exn) (emails : list Email) : M RNG (list Email) :=
  print ("Error in categorization: " ++ str_exn e);;
  ret (map (set_category "Uncategorized") emails).

Definition suggest_categories (emails : list Email) (num_clusters : Z)
  : M RNG (list Email) :=
  match emails with
  | [] => ret []
  | _ :: _ =>
      let documents := documents_of emails in
      let num_clusters := effective_clusters documents num_clusters in
      fun w =>
        match cluster_labels documents num_clusters w with
        | (Ok (categories, clusters), w1) =>
            match assign_categories categories clusters 0 emails with
            | (emails', None) => (Ok emails', w1)
            | (emails', Some e) =>
                try_except (throw e) (fun e => uncategorize e emails') w1
            end
        | (Raise e, w1) => uncategorize e emails w1
        | (Diverge, w1) => (Diverge, w1)
        end
  end.
End Categorizer.

Arguments suggest_categories {numpy Matrix RNG} fit_transform fit emails
  num_clusters.
Arguments cluster_labels {numpy Matrix RNG} fit_transform fit documents
  num_clusters.

(** * The fetcher: [get_all_unread_emails] *)

(** ** What the provider answers *)

(** An item of [response['messages']]. *)
Record MessageRef : Type := mkMessageRef {
  ref_id : option string;
  ref_threadId : option string
}.

(** The answer to [users().messages().list(...)]. *)
Record ListResponse : Type := mkListResponse {
  resultSizeEstimate : option Z;
  messages : option (list MessageRef);
  nextPageToken : option string
}.

Record Header : Type := mkHeader {
  header_name : option string;
  header_value : option string
}.

Record Payload : Type := mkPayload {
  headers : option (list Header)
}.

(** The answer to [users().messages().get(..., format='metadata', ...)]. *)
Record Message : Type := mkMessage {
  msg_id : option string;
  msg_threadId : option string;
  msg_payload : option Payload;
  msg_snippet : option string
}.

(** [d[key]]: a [KeyError] when the key is absent. *)
Definition getitem {A : Type} (key : string) (field : option A) : exn + A :=
  match field with Some v => inr v | None => inl (KeyError key) end.

Definition and_then {A B : Type} (r : exn + A) (k : A -> exn + B) : exn + B :=
  match r with inl e => inl e | inr a => k a end.

(** ** The safety check of the pagination loop (line 104) *)

(** [float(n)] for an [int]: the nearest binary64 number, ties to even; an
    [OverflowError] beyond the largest one. *)
Definition float_of_int (n : Z) : exn + spec_float :=
  match binary_normalize 53 1024 n 0 false with
  | S754_infinity _ => inl (OverflowError "int too large to convert to float")
  | f => inr f
  end.

(** The literal [1.1]: the binary64 number nearest to 11/10. *)
Definition float_1_1 : spec_float := S754_finite false 4953959590107546 (-52).

(** [n * f] for an [int] and a [float]. *)
Definition int_mul_float (n : Z) (f : spec_float) : exn + spec_float :=
  and_then (float_of_int n) (fun x => inr (SFmul 53 1024 x f)).

(** [n >= f] for an [int] and a [float]; Python compares the two numbers
    exactly, without rounding the integer. *)
Definition int_ge_float (n : Z) (f : spec_float) : bool :=
  match f with
  | S754_zero _ => 0 <=? n
  | S754_infinity s => s
  | S754_nan => false
  | S754_finite s m e =>
      let v := cond_Zopp s (Zpos m) in
      if 0 <=? e then v * 2 ^ e <=? n else v <=? n * 2 ^ (- e)
  end.

(** [len(all_messages) >= total_count * 1.1]. *)
Definition reached_expected (count total_count : Z) : exn + bool :=
  and_then (int_mul_float total_count float_1_1)
           (fun limit => inr (int_ge_float count limit)).

(** ** Hydration of one message (lines 128-148) *)

(** The three [if]s of the loop over the headers, for one header. *)
Definition header_step (email_data : Email) (header : Header) : exn + Email :=
  and_then (getitem "name" (header_name header)) (fun name =>
  and_then
    (if String.eqb name "From"
     then and_then (getitem "value" (header_value header)) (fun v =>
          inr {| email_id := email_id email_data;
                 email_threadId := email_threadId email_data;
                 email_from := Some v;
                 email_subject := email_subject email_data;
                 email_date := email_date email_data;
                 email_has_body := email_has_body email_data;
                 email_body := email_body email_data;
                 email_category := email_category email_data |})
     else inr email_data) (fun email_data =>
  and_then
    (if String.eqb name "Subject"
     then and_then (getitem "value" (header_value header)) (fun v =>
          inr {| email_id := email_id email_data;
                 email_threadId := email_threadId email_data;
                 email_from := email_from email_data;
                 email_subject := Some v;
                 email_date := email_date email_data;
                 email_has_body := email_has_body email_data;
                 email_body := email_body email_data;
                 email_category := email_category email_data |})
     else inr email_data) (fun email_data =>
    if String.eqb name "Date"
    then and_then (getitem "value" (header_value header)) (fun v =>
         inr {| email_id := email_id email_data;
                email_threadId := email_threadId email_data;
                email_from := email_from email_data;
                email_subject := email_subject email_data;
                email_date := Some v;
                email_has_body := email_has_body email_data;
                email_body := email_body email_data;
                email_category := email_category email_data |})
    else inr email_data))).

Fixpoint header_loop (email_data : Email) (hs : list Header) : exn + Email :=
  match hs with
  | [] => inr email_data
  | header :: hs' =>
      and_then (header_step email_data header) (fun email_data =>
      header_loop email_data hs')
  end.

(** [bool(msg.get('snippet', '').strip())]. *)
Definition has_body_of (msg : Message) : bool :=
  str_truthy (strip (dict_get (msg_snippet msg) "")).

(** The record built from the provider's answer for one message. *)
Definition hydrate (msg : Message) : exn + Email :=
  and_then (getitem "id" (msg_id msg)) (fun id =>
  and_then (getitem "threadId" (msg_threadId msg)) (fun threadId =>
  and_then (getitem "payload" (msg_payload msg)) (fun payload =>
  and_then (getitem "headers" (headers payload)) (fun hs =>
  and_then (header_loop (mkEmail id threadId None None None None "" None) hs)
    (fun email_data =>
  inr {| email_id := email_id email_data;
         email_threadId := email_threadId email_data;
         email_from := email_from email_data;
         email_subject := email_subject email_data;
         email_date := email_date email_data;
         email_has_body := Some (has_body_of msg);
         email_body := "";
         email_category := email_category email_data |}))))).

(** ** Loops *)

(** What one pass through the body of a [while True] loop decides. *)
Inductive control (S R : Type) : Type :=
| Continue (s : S)
| Break (r : R).

Arguments Continue {S R} s.
Arguments Break {S R} r.

Section Loops.
Context {E : Type}.

Definition diverge {A : Type} : M E A := fun w => (Diverge, w).

(** [while True: body], with at most [fuel] passes. *)
Fixpoint while_true {S R : Type} (fuel : nat) (body : S -> M E (control S R))
  (s : S) : M E R :=
  match fuel with
  | O => diverge
  | Datatypes.S fuel' =>
      c <- body s;;
      match c with
      | Break r => ret r
      | Continue s' => while_true fuel' body s'
      end
  end.

(** [if cond: then_]. *)
Definition when (cond : bool) (then_ : M E unit) : M E unit :=
  if cond then then_ else ret tt.
End Loops.

(** The variables of the pagination loop. *)
Record page_state : Type := mkPageState {
  all_messages : list MessageRef;
  next_page_token : option string;
  page_count : Z
}.

(** Truth value of [response.get('nextPageToken')]: [None] and the empty
    string are false. *)
Definition token_truthy (token : option string) : bool :=
  match token with Some t => str_truthy t | None => false end.

(** Truth value of a list. *)
Definition list_truthy {A : Type} (l : list A) : bool :=
  match l with [] => false | _ :: _ => true end.

Definition unread_query : string := "is:unread in:inbox -in:spam".

Section Fetcher.
(** The state of the provider: the mailbox, quotas, the network. *)
Variable Service : Type.

(** [service.users().messages().list(userId, q, pageToken, maxResults)
    .execute()]. *)
Variable messages_list :
  Service -> string -> string -> option string -> Z ->
  (exn + ListResponse) * Service.

(** [service.users().messages().get(userId, id, format, metadataHeaders)
    .execute()]. *)
Variable messages_get :
  Service -> string -> string -> string -> list string ->
  (exn + Message) * Service.

Definition call_list (user_id q : string) (pageToken : option string)
  (maxResults : Z) : M Service ListResponse :=
  emit (EvListMessages q pageToken maxResults);;
  fun w =>
    let (r, s) := messages_list (env w) user_id q pageToken maxResults in
    lift r (mkWorld s (console w) (trace w)).

Definition call_get (user_id message_id : string) : M Service Message :=
  emit (EvGetMessage message_id);;
  fun w =>
    let (r, s) :=
      messages_get (env w) user_id message_id "metadata"
                   ["From"; "Subject"; "Date"] in
    lift r (mkWorld s (console w) (trace w)).

(** [time.sleep(seconds)]. *)
Definition sleep (seconds : Z) : M Service unit := emit (EvSleep seconds).

Definition get_unread_email_count (user_id : string) : M Service Z :=
  response <- call_list user_id unread_query None 1;;
  ret (dict_get (resultSizeEstimate response) 0).

(** Lines 81-106: one pass through the body of the pagination loop. *)
Definition page_body (user_id : string) (total_count : Z) (st : page_state)
  : M Service (control page_state (list MessageRef)) :=
  let page_count := page_count st + 1 in
  print ("Fetching page " ++ str_int page_count ++ " of unread emails...");;
  response <- call_list user_id unread_query (next_page_token st) 100;;
  let messages := dict_get (messages response) [] in
  if negb (list_truthy messages) then ret (Break (all_messages st))
  else
    let all_messages := (all_messages st ++ messages)%list in
    print ("Fetched message IDs: "
             ++ str_int (Z.of_nat (List.length all_messages))
             ++ "/" ++ str_int total_count);;
    let next_page_token := nextPageToken response in
    if negb (token_truthy next_page_token) then ret (Break all_messages)
    else
      reached <- lift (reached_expected
                         (Z.of_nat (List.length all_messages)) total_count);;
      if (reached : bool) then
        print "Reached expected number of unread emails. Stopping fetch.";;
        ret (Break all_messages)
      else ret (Continue (mkPageState all_messages next_page_token page_count)).

(** [(i + 1) % batch_size == 0 and i < total_messages - 1]. *)
Definition batch_boundary (i batch_size total_messages : Z) : exn + bool :=
  if batch_size =? 0 then inl (ZeroDivisionError "integer modulo by zero")
  else inr (((i + 1) mod batch_size =? 0) && (i <? total_messages - 1)).

(** Lines 118-155: the loop over [enumerate(all_messages)], from index [i]
    on, appending to [emails]. *)
Fixpoint hydrate_loop (user_id : string) (batch_size total_messages : Z)
  (i : Z) (refs : list MessageRef) (emails : list Email)
  : M Service (list Email) :=
  match refs with
  | [] => ret emails
  | message :: refs' =>
      when (i mod 10 =? 0)
           (print ("Processing email " ++ str_int (i + 1) ++ "/"
                     ++ str_int total_messages ++ "..."));;
      message_id <- lift (getitem "id" (ref_id message));;
      msg <- call_get user_id message_id;;
      email_data <- lift (hydrate msg);;
      let emails := (emails ++ [email_data])%list in
      pause <- lift (batch_boundary i batch_size total_messages);;
      when pause
           (print "Pausing briefly to avoid rate limits...";;
            sleep 1);;
      hydrate_loop user_id batch_size total_messages (i + 1) refs' emails
  end.

(** Lines 70-157: the body of the [try]. *)
Definition fetch_body (fuel : nat) (user_id : string) (batch_size : Z)
  : M Service (list Email) :=
  total_count <- get_unread_email_count user_id;;
  print ("Total unread emails (excluding spam and archived): "
           ++ str_int total_count);;
  all_messages <- while_true fuel (page_body user_id total_count)
                    (mkPageState [] None 0);;
  if negb (list_truthy all_messages) then
    print "No unread messages found.";;
    ret []
  else
    let total_messages := Z.of_nat (List.length all_messages) in
    print ("Processing " ++ str_int total_messages ++ " unread emails...");;
    hydrate_loop user_id batch_size total_messages 0 all_messages [].

Definition get_all_unread_emails (fuel : nat) (user_id : string)
  (batch_size : Z) : M Service (list Email) :=
  try_except (fetch_body fuel user_id batch_size)
             (fun error =>
                print ("An error occurred: " ++ str_exn error);;
                ret []).
End Fetcher.

Arguments call_list {Service} messages_list user_id q pageToken maxResults.
Arguments page_body {Service} messages_list user_id total_count st.
Arguments fetch_body {Service} messages_list messages_get fuel user_id batch_size.
Arguments get_all_unread_emails {Service} messages_list messages_get
  fuel user_id batch_size.
Arguments hydrate_loop {Service} messages_get user_id batch_size total_messages
  i refs emails.

(** * The exporter: [save_categories_to_file] *)

Definition fieldnames : list string :=
  ["Category"; "From"; "Subject"; "Date"; "Has Body"].

(** The dictionary handed to [writer.writerow], as the row [DictWriter]
    makes of it: the values in the order of [fieldnames], each as [str]
    gives it. *)
Definition csv_row (category : string) (email : Email) : list string :=
  [category;
   dict_get (email_from email) "Unknown";
   dict_get (email_subject email) "No subject";
   dict_get (email_date email) "Unknown";
   str_bool (dict_get (email_has_body email) false)].

Section Exporter.
(** The state of the file system. *)
Variable FS : Type.

(** [open(filename, 'w', encoding='utf-8', newline='')]: the file is
    created or emptied, unless the call raises. *)
Variable fs_open : FS -> string -> option exn * FS.
(** One row written through the [csv] writer. *)
Variable fs_writerow : FS -> list string -> option exn * FS.
(** Leaving the [with] block closes the file. *)
Variable fs_close : FS -> option exn * FS.

Definition call_fs (ev : event) (op : FS -> option exn * FS) : M FS unit :=
  emit ev;;
  fun w =>
    let (r, fs) := op (env w) in
    match r with
    | Some e => throw e (mkWorld fs (console w) (trace w))
    | None => ret tt (mkWorld fs (console w) (trace w))
    end.

Definition open_file (filename : string) : M FS unit :=
  call_fs (EvOpen filename) (fun fs => fs_open fs filename).

Definition writerow (row : list string) : M FS unit :=
  call_fs (EvWriteRow row) (fun fs => fs_writerow fs row).

Definition close_file : M FS unit := call_fs EvClose fs_close.

(** [with open(...) as csvfile: body]: the file is closed on the way out,
    also when the body raises, and then the exception goes on. *)
Definition with_open {A : Type} (filename : string) (body : M FS A) : M FS A :=
  open_file filename;;
  fun w =>
    match body w with
    | (Ok a, w') => (close_file;; ret a) w'
    | (Raise e, w') =>
        match close_file w' with
        | (Ok _, w'') => (Raise e, w'')
        | (Raise e', w'') => (Raise e', w'')
        | (Diverge, w'') => (Diverge, w'')
        end
    | (Diverge, w') => (Diverge, w')
    end.

(** [for x in l: body x]. *)
Fixpoint for_each {A : Type} (l : list A) (body : A -> M FS unit) : M FS unit :=
  match l with
  | [] => ret tt
  | x :: l' => body x;; for_each l' body
  end.

(** [categories] is the dictionary from label to records, as
    [categories.items()] lists it. *)
Definition save_categories_to_file (categories : list (string * list Email))
  (filename : string) : M FS bool :=
  try_except
    (with_open filename
       (writerow fieldnames;;
        for_each categories (fun item =>
          for_each (snd item) (fun email =>
            writerow (csv_row (fst item) email))));;
     print ("Categories saved to " ++ filename);;
     ret true)
    (fun e =>
       print ("Error saving to file: " ++ str_exn e);;
       ret false).
End Exporter.

Arguments save_categories_to_file {FS} fs_open fs_writerow fs_close
  categories filename.

(** * Authentication: [authenticate_gmail] *)

(** A call into the collaborators of the authentication: the file system
    holding [token.pickle], the OAuth client and the API client builder. *)
Inductive auth_call (C : Type) : Type :=
| CallExists (path : string)
| CallLoad (path : string)
| CallRefresh (creds : C)
| CallFromSecrets (path : string) (scopes : list string)
| CallRunLocalServer (port : Z) (prompt : string)
| CallDump (path : string) (creds : C)
| CallBuild (serviceName version : string) (creds : C).

Arguments CallExists {C} path.
Arguments CallLoad {C} path.
Arguments CallRefresh {C} creds.
Arguments CallFromSecrets {C} path scopes.
Arguments CallRunLocalServer {C} port prompt.
Arguments CallDump {C} path creds.
Arguments CallBuild {C} serviceName version creds.

(** The state of those collaborators, and the calls made so far (oldest
    first). *)
Record AuthEnv (A C : Type) : Type := mkAuthEnv {
  auth_state : A;
  auth_log : list (auth_call C)
}.

Arguments mkAuthEnv {A C} auth_state auth_log.
Arguments auth_state {A C} a.
Arguments auth_log {A C} a.

Definition SCOPES : list string :=
  ["https://www.googleapis.com/auth/gmail.readonly"].

Definition authorization_prompt_message : string :=
  "Please authorize this application to access your Gmail account. When you see the 'Google hasn't verified this app' screen, click 'Advanced' and then 'Go to [App Name] (unsafe)' to proceed.".

Section Authentication.
(** The state of the collaborators. *)
Variable A : Type.
(** A credentials object, with [creds.valid], [creds.expired] and the truth
    value of [creds.refresh_token]. *)
Variable Credentials : Type.
Variable valid : Credentials -> bool.
Variable expired : Credentials -> bool.
Variable has_refresh_token : Credentials -> bool.
(** An [InstalledAppFlow] and the service object that [build] returns. *)
Variable Flow : Type.
Variable Handle : Type.

(** [os.path.exists(path)]. *)
Variable path_exists : A -> string -> bool.
(** [with open(path, 'rb') as token: pickle.load(token)]; what was pickled
    may be [None]. *)
Variable pickle_load : A -> string -> (exn + option Credentials) * A.
(** [creds.refresh(Request())]: the credentials object after the call. *)
Variable creds_refresh : A -> Credentials -> (exn + Credentials) * A.
(** [InstalledAppFlow.from_client_secrets_file(path, scopes)]. *)
Variable from_client_secrets_file :
  A -> string -> list string -> (exn + Flow) * A.
(** [flow.run_local_server(port, prompt, authorization_prompt_message)]
    followed by [flow.credentials]. *)
Variable run_local_server :
  A -> Flow -> Z -> string -> string -> (exn + Credentials) * A.
(** [with open(path, 'wb') as token: pickle.dump(creds, token)]. *)
Variable pickle_dump : A -> string -> Credentials -> option exn * A.
(** [build(serviceName, version, credentials=creds)]. *)
Variable build : A -> string -> string -> Credentials -> (exn + Handle) * A.

(** One logged call whose answer is a value or an exception. *)
Definition auth_ask {R : Type} (call : auth_call Credentials)
  (op : A -> (exn + R) * A) : M (AuthEnv A Credentials) R :=
  fun w =>
    let (r, a) := op (auth_state (env w)) in
    lift r (mkWorld (mkAuthEnv a (auth_log (env w) ++ [call])%list)
                    (console w) (trace w)).

(** Lines 27-29. *)
Definition load_cached : M (AuthEnv A Credentials) (option Credentials) :=
  exists_ <- auth_ask (CallExists "token.pickle")
               (fun a => (inr (path_exists a "token.pickle"), a));;
  if (exists_ : bool)
  then auth_ask (CallLoad "token.pickle") (fun a => pickle_load a "token.pickle")
  else ret None.

(** Lines 37-46: the consent flow. *)
Definition consent : M (AuthEnv A Credentials) Credentials :=
  flow <- auth_ask (CallFromSecrets "credentials.json" SCOPES)
            (fun a => from_client_secrets_file a "credentials.json" SCOPES);;
  auth_ask (CallRunLocalServer 0 "consent")
           (fun a => run_local_server a flow 0 "consent"
                                      authorization_prompt_message).

(** Lines 49-50. *)
Definition save_token (creds : Credentials) : M (AuthEnv A Credentials) unit :=
  auth_ask (CallDump "token.pickle" creds)
           (fun a => match pickle_dump a "token.pickle" creds with
                     | (Some e, a') => (inl e, a')
                     | (None, a') => (inr tt, a')
                     end).

Definition authenticate_gmail : M (AuthEnv A Credentials) Handle :=
  creds <- load_cached;;
  creds <-
    match creds with
    | Some c =>
        if valid c then ret c
        else
          creds <- (if expired c && has_refresh_token c
                    then auth_ask (CallRefresh c) (fun a => creds_refresh a c)
                    else consent);;
          save_token creds;;
          ret creds
    | None =>
        creds <- consent;;
        save_token creds;;
        ret creds
    end;;
  auth_ask (CallBuild "gmail" "v1" creds) (fun a => build a "gmail" "v1" creds).
End Authentication.

(** * The program: [main] *)

(** A line feed, the [\n] of a Python string. *)
Definition nl : string := String (ascii_of_nat 10) EmptyString.

(** ** Grouping (lines 271-276) *)

(** [if category not in categories: categories[category] = []] and then
    [categories[category].append(email)], on a dictionary in insertion
    order. *)
Fixpoint dict_append (category : string) (email : Email)
  (categories : list (string * list Email)) : list (string * list Email) :=
  match categories with
  | [] => [(category, [email])]
  | (key, group) :: rest =>
      if String.eqb key category
      then (key, (group ++ [email])%list) :: rest
      else (key, group) :: dict_append category email rest
  end.

(** The loop over [categorized_emails]; [email['category']] is a
    [KeyError] on a record without category. *)
Fixpoint group_by_category (emails : list Email)
  (categories : list (string * list Email))
  : exn + list (string * list Email) :=
  match emails with
  | [] => inr categories
  | email :: rest =>
      and_then (getitem "category" (email_category email)) (fun category =>
      group_by_category rest (dict_append category email categories))
  end.

(** ** Running a part of the program in its own surroundings *)

(** The state of all collaborators of [main]. *)
Record Env (A S G F : Type) : Type := mkEnv {
  env_auth : A;
  env_service : S;
  env_rng : G;
  env_files : F
}.

Arguments mkEnv {A S G F} env_auth env_service env_rng env_files.
Arguments env_auth {A S G F} e.
Arguments env_service {A S G F} e.
Arguments env_rng {A S G F} e.
Arguments env_files {A S G F} e.

(** A computation on one component of the state, run on the whole state:
    the console and the trace are shared. *)
Definition zoom {E1 E2 R : Type} (get : E2 -> E1) (set : E1 -> E2 -> E2)
  (c : M E1 R) : M E2 R :=
  fun w =>
    let (r, w1) := c (mkWorld (get (env w)) (console w) (trace w)) in
    (r, mkWorld (set (env w1) (env w)) (console w1) (trace w1)).

Section Main.
Context {numpy : Numpy}.
Variables A Credentials Flow Handle Service RNG FS Matrix : Type.
Variable valid : Credentials -> bool.
Variable expired : Credentials -> bool.
Variable has_refresh_token : Credentials -> bool.
Variable path_exists : A -> string -> bool.
Variable pickle_load : A -> string -> (exn + option Credentials) * A.
Variable creds_refresh : A -> Credentials -> (exn + Credentials) * A.
Variable from_client_secrets_file :
  A -> string -> list string -> (exn + Flow) * A.
Variable run_local_server :
  A -> Flow -> Z -> string -> string -> (exn + Credentials) * A.
Variable pickle_dump : A -> string -> Credentials -> option exn * A.
Variable build : A -> string -> string -> Credentials -> (exn + Handle) * A.
(** The provider's calls go through the service object. *)
Variable messages_list :
  Handle -> Service -> string -> string -> option string -> Z ->
  (exn + ListResponse) * Service.
Variable messages_get :
  Handle -> Service -> string -> string -> string -> list string ->
  (exn + Message) * Service.
Variable fit_transform :
  TfidfVectorizer -> list string -> exn + (Matrix * list string).
Variable fit : KMeans -> RNG -> Matrix -> (exn + KMeansFitted) * RNG.
Variable fs_open : FS -> string -> option exn * FS.
Variable fs_writerow : FS -> list string -> option exn * FS.
Variable fs_close : FS -> option exn * FS.

Definition World : Type :=
  Env (AuthEnv A Credentials) Service RNG FS.

Definition in_auth {R : Type} (c : M (AuthEnv A Credentials) R) : M World R :=
  zoom env_auth
       (fun a e => mkEnv a (env_service e) (env_rng e) (env_files e)) c.

Definition in_service {R : Type} (c : M Service R) : M World R :=
  zoom env_service
       (fun s e => mkEnv (env_auth e) s (env_rng e) (env_files e)) c.

Definition in_rng {R : Type} (c : M RNG R) : M World R :=
  zoom env_rng
       (fun g e => mkEnv (env_auth e) (env_service e) g (env_files e)) c.

Definition in_files {R : Type} (c : M FS R) : M World R :=
  zoom env_files
       (fun f e => mkEnv (env_auth e) (env_service e) (env_rng e) f) c.

(** Lines 284-287: one sample of a category. *)
Definition show_sample (email : Email) : M World unit :=
  print ("  - From: " ++ dict_get (email_from email) "Unknown");;
  print ("    Subject: " ++ dict_get (email_subject email) "No subject");;
  print ("    Date: " ++ dict_get (email_date email) "Unknown");;
  print "".

(** Lines 282-287: the loop over [enumerate(emails)], from index [i] on. *)
Fixpoint show_samples (i : Z) (emails : list Email) : M World unit :=
  match emails with
  | [] => ret tt
  | email :: rest =>
      when (i <? 3) (show_sample email);;
      show_samples (i + 1) rest
  end.

(** Lines 281-289: one category of the summary. *)
Definition show_category (item : string * list Email) : M World unit :=
  let emails := snd item in
  print (nl ++ fst item ++ " (" ++ str_int (Z.of_nat (List.length emails))
            ++ " emails):");;
  show_samples 0 emails;;
  when (3 <? Z.of_nat (List.length emails))
       (print ("  ... and " ++ str_int (Z.of_nat (List.length emails) - 3)
                 ++ " more emails in this category.")).

(** Lines 261-293: what [main] does with the records fetched. *)
Definition report (emails : list Email) : M World unit :=
  if negb (list_truthy emails) then print "No unread emails to analyze."
  else
    print (nl ++ "Found " ++ str_int (Z.of_nat (List.length emails))
              ++ " unread emails (excluding spam and archived).");;
    print (nl ++ "Categorizing emails...");;
    categorized_emails <- in_rng (suggest_categories fit_transform fit emails 5);;
    categories <- lift (group_by_category categorized_emails []);;
    print (nl ++ "===== Email Categories =====");;
    for_each World categories show_category;;
    _ <- in_files (save_categories_to_file fs_open fs_writerow fs_close
                     categories "email_categories.csv");;
    print (nl ++ "All categorized emails have been saved to email_categories.csv").

Definition main (fuel : nat) : M World unit :=
  print "Authenticating with Gmail...";;
  service <- in_auth (authenticate_gmail A Credentials valid expired
                        has_refresh_token Flow Handle path_exists pickle_load
                        creds_refresh from_client_secrets_file run_local_server
                        pickle_dump build);;
  print (nl ++ "Fetching all unread emails (excluding spam and archived)...");;
  emails <- in_service (get_all_unread_emails (messages_list service)
                          (messages_get service) fuel "me" 25);;
  report emails.
End Main.

(** * The statements of the specification, as it words them *)

Module Spec.
(** Pagination: "stop when no continuation token is returned, or when the
    accumulated identifier count exceeds the estimated total by more than
    10%". *)
Definition pagination_stops (response : ListResponse) (count total_count : Z)
  : Prop :=
  token_truthy (nextPageToken response) = false
  \/ 10 * count > 11 * total_count.

(** Hydration: "derive has_content from whether the preview is
    non-empty". *)
Definition has_content (msg : Message) : bool :=
  str_truthy (dict_get (msg_snippet msg) "").

(** Labels: "top-3-weighted terms (ties broken by descending weight, then
    by feature index order)": heavier terms first, equal weights in the
    order of their feature indices. *)
Definition ranks_before (x y : nat * Q) : bool :=
  negb (Qle_bool (snd x) (snd y))
  || (Qeq_bool (snd x) (snd y) && (fst x <=? fst y)%nat).

Fixpoint insert_ranked (x : nat * Q) (l : list (nat * Q)) : list (nat * Q) :=
  match l with
  | [] => [x]
  | y :: l' => if ranks_before x y then x :: l else y :: insert_ranked x l'
  end.

Definition ranking (center : list Q) : list nat :=
  map fst (fold_right insert_ranked [] (enumerate center)).

Definition top_terms (feature_names : list string) (center : list Q)
  : list string :=
  top_words feature_names (firstn 3 (ranking center)).

Definition category_name (feature_names : list string) (i : nat)
  (center : list Q) : string :=
  match top_terms feature_names center with
  | [] => "Category " ++ str_int (Z.of_nat i + 1)
  | terms =>
      "Category " ++ str_int (Z.of_nat i + 1) ++ ": " ++ join ", " terms
  end.
End Spec.

(** * Observations on a run *)

Definition option_string_dec (x y : option string) : {x = y} + {x <> y}.
Proof. decide equality. apply string_dec. Defined.

(** The number of distinct category labels the records carry. *)
Definition distinct_labels (emails : list Email) : nat :=
  List.length (nodup option_string_dec (map email_category emails)).

(** A record carries a non-empty label. *)
Definition labelled (email : Email) : Prop :=
  exists label, email_category email = Some label /\ label <> "".


(** Weight [i] of a centroid. *)
Definition weight (center : list Q) (i : nat) : Q := nth i center 0%Q.

(** What numpy promises of [a.argsort()]: the indices of [a], each once, in
    an order along which the weights do not decrease.  Nothing is promised
    about the order of equal weights. *)
Definition sorts (numpy : Numpy) : Prop :=
  forall a : list Q,
    Permutation (argsort a) (seq 0 (List.length a))
    /\ StronglySorted (fun i j => (weight a i <= weight a j)%Q) (argsort a).

(** Feature [i] weighs at least as much as feature [j]. *)
Definition outweighs (center : list Q) (i j : nat) : Prop :=
  (weight center j <= weight center i)%Q.

(** The order a stable sort puts the indices in: lighter first, equal
    weights by ascending index; on pairs of an index and its weight, and on
    the indices of a centroid. *)
Definition pair_below (p q : nat * Q) : Prop :=
  (snd p < snd q)%Q \/ ((snd p == snd q)%Q /\ (fst p < fst q)%nat).

Definition below (center : list Q) (i j : nat) : Prop :=
  pair_below (i, weight center i) (j, weight center j).

(** Two records are the same message: they agree on everything but the
    category. *)
Definition same_message (e e' : Email) : Prop :=
  email_id e' = email_id e
  /\ email_threadId e' = email_threadId e
  /\ email_from e' = email_from e
  /\ email_subject e' = email_subject e
  /\ email_date e' = email_date e
  /\ email_has_body e' = email_has_body e
  /\ email_body e' = email_body e.

(** A carriage return or a line feed. *)
Definition is_line_break (c : ascii) : bool :=
  (nat_of_ascii c =? 10)%nat || (nat_of_ascii c =? 13)%nat.

(** A field without line break. *)
Fixpoint no_line_break (s : string) : bool :=
  match s with
  | EmptyString => true
  | String c s' => negb (is_line_break c) && no_line_break s'
  end.

(** The number of lines of a text in which every line ends with a line
    feed: the number of line feeds. *)
Fixpoint line_count (s : string) : nat :=
  match s with
  | EmptyString => 0
  | String c s' =>
      ((if (nat_of_ascii c =? 10)%nat then 1 else 0) + line_count s')%nat
  end.

(** The text that records written one after the other make up. *)
Definition text_of (records : list string) : string :=
  fold_right String.append "" records.

(** A string has a character that is not white space. *)
Fixpoint nonblank (s : string) : bool :=
  match s with
  | EmptyString => false
  | String c s' => negb (isspace c) || nonblank s'
  end.



(** The three ways out of the pagination loop after a page has arrived
    (lines 91, 100 and 104). *)
Definition page_stops (total_count : Z) (st : page_state)
  (response : ListResponse) : Prop :=
  let page := dict_get (messages response) [] in
  page = []
  \/ token_truthy (nextPageToken response) = false
  \/ reached_expected (Z.of_nat (List.length (all_messages st ++ page)))
                      total_count = inr true.

(** Projections of a world that was just built, and the events appended to
    it one by one, in normal form. *)
Ltac world_simpl :=
  cbn [env console trace fst snd]; rewrite <- ?app_assoc; cbn [app].

(** A computation comes to an end: it returns or raises. *)
Definition finishes {E A : Type} (c : M E A) : Prop :=
  forall w, fst (c w) <> Diverge.

(** An integer the float does not exceed; none for plus infinity and NaN. *)
Definition float_upper_bound (f : spec_float) : option Z :=
  match f with
  | S754_zero _ => Some 0
  | S754_infinity true => Some 0
  | S754_infinity false => None
  | S754_nan => None
  | S754_finite _ m e =>
      Some (if 0 <=? e then Zpos m * 2 ^ e else Zpos m / 2 ^ (- e) + 1)
  end.

(** From [bound] identifiers on, the safety check of the pagination loop
    does not let the loop go on. *)
Definition stops_by (total_count bound : Z) : Prop :=
  forall count, bound <= count -> reached_expected count total_count <> inr false.

(** A world in which nothing has happened yet. *)
Definition fresh {E : Type} (e : E) : world E := mkWorld e [] [].

(** * Sample collaborators

    Small stand-ins for the provider, scikit-learn and the file system, on
    which the statements below are exercised. *)

Module Sample.
(** A vectorizer over a fixed vocabulary that rejects a corpus of empty
    documents, as scikit-learn rejects an empty vocabulary. *)
Definition fit_transform (v : TfidfVectorizer) (documents : list string)
  : exn + (list string * list string) :=
  if forallb (fun d => negb (str_truthy d)) documents
  then inl (LibraryError "empty vocabulary; perhaps the documents only contain stop words")
  else inr (documents, ["invoice"; "meeting"; "team"]).

(** A clustering that needs at least one cluster and as many documents as
    clusters, and that puts document [j] into cluster [(seed + j) mod k]. *)
Definition fit (kmeans : KMeans) (g : Z) (X : list string)
  : (exn + KMeansFitted) * Z :=
  let k := n_clusters kmeans in
  if (k <=? 0) || (Z.of_nat (List.length X) <? k)
  then (inl (LibraryError "n_samples should be >= n_clusters >= 1"), g)
  else
    let seed := dict_get (random_state kmeans) g in
    (inr (mkKMeansFitted
            (map (fun j => (seed + Z.of_nat j) mod k) (seq 0 (List.length X)))
            (repeat [1 # 2; 0; 1 # 2]%Q (Z.to_nat k))),
     match random_state kmeans with Some _ => g | None => g + 1 end).

Definition mail (subject : string) : Email :=
  mkEmail "id" "thread" (Some "a@example.org") (Some subject) None
          (Some true) "" None.

(** A mailbox of three unread messages served in two pages. *)
Definition messages_list (served : nat) (user_id q : string)
  (pageToken : option string) (maxResults : Z)
  : (exn + ListResponse) * nat :=
  (inr (match pageToken with
        | None =>
            if maxResults =? 1
            then mkListResponse (Some 3) (Some [mkMessageRef (Some "m1") (Some "t1")])
                                (Some "p1")
            else mkListResponse (Some 3)
                   (Some [mkMessageRef (Some "m1") (Some "t1");
                          mkMessageRef (Some "m2") (Some "t2")])
                   (Some "p2")
        | Some _ =>
            mkListResponse (Some 3) (Some [mkMessageRef (Some "m3") (Some "t3")])
                           None
        end),
   S served).

Definition messages_get (served : nat) (user_id message_id format : string)
  (metadataHeaders : list string) : (exn + Message) * nat :=
  (if String.eqb message_id "m3"
   then inl (LibraryError "HttpError 429: rate limit exceeded")
   else inr (mkMessage (Some message_id) (Some "t")
               (Some (mkPayload (Some [mkHeader (Some "Subject") (Some "Invoice due")])))
               (Some "Dear customer")),
   S served).

(** A provider that answers every request for a message; the preview of
    [m2] is blank. *)
Definition messages_get_ok (served : nat) (user_id message_id format : string)
  (metadataHeaders : list string) : (exn + Message) * nat :=
  (inr (mkMessage (Some message_id) (Some "t")
          (Some (mkPayload (Some [mkHeader (Some "Subject") (Some "Invoice due");
                                  mkHeader (Some "From") (Some "a@example.org")])))
          (Some (if String.eqb message_id "m2" then "  " else "Dear customer"))),
   S served).

(** A provider whose first page is empty although it names a next page. *)
Definition empty_page_list (served : nat) (user_id q : string)
  (pageToken : option string) (maxResults : Z)
  : (exn + ListResponse) * nat :=
  (inr (mkListResponse (Some 50) (Some []) (Some "p2")), S served).

(** A file system of one file, the rows written to it so far. *)
Definition fs_open (rows : list (list string)) (filename : string)
  : option exn * list (list string) := (None, []).
Definition fs_writerow (rows : list (list string)) (row : list string)
  : option exn * list (list string) := (None, (rows ++ [row])%list).
Definition fs_close (rows : list (list string))
  : option exn * list (list string) := (None, rows).

(** A provider that gives no estimate and always names a next page. *)
Definition unestimated_list (served : nat) (user_id q : string)
  (pageToken : option string) (maxResults : Z)
  : (exn + ListResponse) * nat :=
  (inr (mkListResponse None (Some [mkMessageRef (Some "m1") (Some "t1")])
                       (Some "p2")),
   S served).

(** A sorting routine that keeps numpy's promise: insertion into a sorted
    list, equal weights in ascending index order. *)
Fixpoint insert_sorted (x : nat * Q) (l : list (nat * Q)) : list (nat * Q) :=
  match l with
  | [] => [x]
  | y :: l' =>
      if Qle_bool (snd y) (snd x) then y :: insert_sorted x l' else x :: l
  end.

Definition stable_argsort (a : list Q) : list nat :=
  map fst (fold_left (fun sorted x => insert_sorted x sorted) (enumerate a) []).

Definition numpy : Numpy := {| argsort := stable_argsort |}.

(** A sorting routine that keeps the promise too and puts equal weights in
    descending index order. *)
Fixpoint insert_before (x : nat * Q) (l : list (nat * Q)) : list (nat * Q) :=
  match l with
  | [] => [x]
  | y :: l' =>
      if Qle_bool (snd x) (snd y) then x :: l else y :: insert_before x l'
  end.

Definition reverse_argsort (a : list Q) : list nat :=
  map fst (fold_left (fun sorted x => insert_before x sorted) (enumerate a) []).

(** A csv writer of the default dialect: a field that holds a comma, a
    double quote or a line break is written between double quotes, with
    every double quote in it doubled; the fields are joined by commas and
    the record ends with a carriage return and a line feed. *)
Definition needs_quotes (c : ascii) : bool :=
  (nat_of_ascii c =? 44)%nat || (nat_of_ascii c =? 34)%nat || is_line_break c.

Fixpoint has_special (s : string) : bool :=
  match s with
  | EmptyString => false
  | String c s' => needs_quotes c || has_special s'
  end.

Fixpoint double_quotes (s : string) : string :=
  match s with
  | EmptyString => EmptyString
  | String c s' =>
      if (nat_of_ascii c =? 34)%nat
      then String c (String c (double_quotes s'))
      else String c (double_quotes s')
  end.

Definition quote : string := String (ascii_of_nat 34) EmptyString.

Definition csv_field (s : string) : string :=
  if has_special s then quote ++ double_quotes s ++ quote else s.

Definition crlf : string :=
  String (ascii_of_nat 13) (String (ascii_of_nat 10) EmptyString).

Definition csv_record (row : list string) : string :=
  join "," (map csv_field row) ++ crlf.

(** The text of the one file of the sample file system. *)
Definition file_text (rows : list (list string)) : string :=
  text_of (map csv_record rows).

(** Credentials that are valid from 10 on, expired below, and carry a
    refresh token when positive; the state of the collaborators is what
    [token.pickle] holds, if the file is there. *)
Definition valid (c : Z) : bool := 10 <=? c.
Definition expired (c : Z) : bool := c <? 10.
Definition has_refresh_token (c : Z) : bool := 0 <? c.
Definition path_exists (token : option Z) (path : string) : bool :=
  match token with Some _ => true | None => false end.
Definition pickle_load (token : option Z) (path : string)
  : (exn + option Z) * option Z := (inr token, token).
Definition creds_refresh (token : option Z) (c : Z)
  : (exn + Z) * option Z := (inr (c + 10), token).
Definition from_client_secrets_file (token : option Z) (path : string)
  (scopes : list string) : (exn + unit) * option Z := (inr tt, token).
Definition run_local_server (token : option Z) (flow : unit) (port : Z)
  (prompt message : string) : (exn + Z) * option Z := (inr 20, token).
Definition pickle_dump (token : option Z) (path : string) (c : Z)
  : option exn * option Z := (None, Some c).
Definition build (token : option Z) (serviceName version : string) (c : Z)
  : (exn + Z) * option Z := (inr c, token).

(** A consent flow that the user abandons. *)
Definition run_local_server_denied (token : option Z) (flow : unit) (port : Z)
  (prompt message : string) : (exn + Z) * option Z :=
  (inl (LibraryError "access_denied"), token).

(** A file system on which every write fails. *)
Definition fs_writerow_full (rows : list (list string)) (row : list string)
  : option exn * list (list string) :=
  (Some (LibraryError "No space left on device"), rows).
End Sample.

(** ** Reading the trace and the console of a run *)

(** What a run from [w] to [w'] has added to the trace and to the console. *)
Definition events_since {E1 E2 : Type} (w : world E1) (w' : world E2)
  : list event :=
  skipn (List.length (trace w)) (trace w').

Definition lines_since {E1 E2 : Type} (w : world E1) (w' : world E2)
  : list string :=
  skipn (List.length (console w)) (console w').

(** The listing requests among the events: query, page token, page size. *)
Definition list_requests (tr : list event) : list (string * option string * Z) :=
  flat_map (fun ev => match ev with
                      | EvListMessages q token n => [(q, token, n)]
                      | _ => []
                      end) tr.

(** The identifiers asked for, the rows written, the pauses, the exceptions
    and the files opened among the events. *)
Definition get_requests (tr : list event) : list string :=
  flat_map (fun ev => match ev with EvGetMessage id => [id] | _ => [] end) tr.

Definition rows_written (tr : list event) : list (list string) :=
  flat_map (fun ev => match ev with EvWriteRow row => [row] | _ => [] end) tr.

Definition pauses (tr : list event) : list Z :=
  flat_map (fun ev => match ev with EvSleep s => [s] | _ => [] end) tr.

Definition exceptions (tr : list event) : list exn :=
  flat_map (fun ev => match ev with EvRaised e => [e] | _ => [] end) tr.

Definition files_opened (tr : list event) : list string :=
  flat_map (fun ev => match ev with EvOpen f => [f] | _ => [] end) tr.

(** A computation only adds events, all of them of the kind [P]. *)
Definition emits {E A : Type} (P : event -> Prop) (c : M E A) : Prop :=
  forall w, exists tr,
    trace (snd (c w)) = (trace w ++ tr)%list /\ Forall P tr.

(** The events of the fetch: listings of the unread inbox, one message or a
    page at a time, requests for the metadata of a message, pauses of one
    second and exceptions. *)
Definition fetch_event (ev : event) : Prop :=
  match ev with
  | EvListMessages q _ n => q = unread_query /\ (n = 1 \/ n = 100)
  | EvGetMessage _ => True
  | EvSleep s => s = 1
  | EvRaised _ => True
  | _ => False
  end.

(** The events of the export. *)
Definition export_event (filename : string) (ev : event) : Prop :=
  match ev with
  | EvOpen f => f = filename
  | EvWriteRow _ => True
  | EvClose => True
  | EvRaised _ => True
  | _ => False
  end.

(** A provider that answers the listing requests from a script, one answer
    per request, whatever the request; it has no answer left when the script
    is used up. *)
Definition scripted_list (script : list (exn + ListResponse))
  (user_id q : string) (pageToken : option string) (maxResults : Z)
  : (exn + ListResponse) * list (exn + ListResponse) :=
  match script with
  | [] => (inl (LibraryError "StopIteration"), [])
  | answer :: rest => (answer, rest)
  end.

(** The messages of a page. *)
Definition page_messages (response : ListResponse) : list MessageRef :=
  dict_get (messages response) [].

(** The value of the last header called [name], if there is one. *)
Fixpoint last_header (name : string) (hs : list Header) : option string :=
  match hs with
  | [] => None
  | h :: hs' =>
      match last_header name hs' with
      | Some v => Some v
      | None =>
          match header_name h with
          | Some n => if String.eqb n name then header_value h else None
          | None => None
          end
      end
  end.

(** A record is the hydration of the provider's answer to the request for
    the message [message_id]. *)
Definition hydrated_from (Service : Type)
  (messages_get : Service -> string -> string -> string -> list string ->
                  (exn + Message) * Service)
  (user_id message_id : string) (email : Email) : Prop :=
  exists msg s s',
    messages_get s user_id message_id "metadata" ["From"; "Subject"; "Date"]
    = (inr msg, s')
    /\ hydrate msg = inr email.

(** A decimal digit. *)
Definition is_digit (c : ascii) : bool :=
  (48 <=? Z.of_nat (nat_of_ascii c)) && (Z.of_nat (nat_of_ascii c) <=? 57).

Fixpoint all_digits (s : string) : bool :=
  match s with
  | EmptyString => true
  | String c s' => is_digit c && all_digits s'
  end.

(** A string does not begin with a digit. *)
Definition no_leading_digit (s : string) : bool :=
  match s with
  | EmptyString => true
  | String c _ => negb (is_digit c)
  end.

(** The label each record gets when the clustering puts record [j] into
    cluster [labels[j]]. *)
Definition label_of_cluster {numpy : Numpy} (feature_names : list string)
  (cluster_centers : list (list Q)) (c : Z) : string :=
  category_name feature_names (Z.to_nat c) (nth (Z.to_nat c) cluster_centers []).

(** A computation that prints nothing and comes to an end: it returns
    without any exception among its events, or it raises the last exception
    among its events. *)
Definition settles {E A : Type} (c : M E A) : Prop :=
  forall w, exists tr,
    trace (snd (c w)) = (trace w ++ tr)%list
    /\ console (snd (c w)) = console w
    /\ match fst (c w) with
       | Ok _ => exceptions tr = []
       | Raise e =>
           exists tr0 tr1,
             tr = (tr0 ++ EvRaised e :: tr1)%list /\ exceptions tr1 = []
       | Diverge => False
       end.

(** All rows of an export, header first. *)
Definition csv_rows (categories : list (string * list Email)) : list (list string) :=
  fieldnames
    :: flat_map (fun item => map (csv_row (fst item)) (snd item)) categories.

(** The events inside the [with] block of the export: rows handed to the
    writer and exceptions. *)
Definition writer_event (ev : event) : Prop :=
  match ev with
  | EvWriteRow _ => True
  | EvRaised _ => True
  | _ => False
  end.

(** A computation hands the rows [rows] to the writer, in order, and stops
    at the first failure: it returns only after all of them. *)
Definition writes {E A : Type} (rows : list (list string)) (c : M E A) : Prop :=
  forall w, exists tr n,
    trace (snd (c w)) = (trace w ++ tr)%list
    /\ Forall writer_event tr
    /\ rows_written tr = firstn n rows
    /\ match fst (c w) with
       | Ok _ => (List.length rows <= n)%nat
       | _ => True
       end.

(** ** Reading a grouping, the summary and the calls of the authentication *)

(** A record carries the category [key]. *)
Definition in_category (key : string) (email : Email) : bool :=
  match email_category email with
  | Some category => String.eqb category key
  | None => false
  end.

(** The categories the records carry, record by record. *)
Definition labels_of (emails : list Email) : list string :=
  flat_map (fun email => match email_category email with
                         | Some category => [category]
                         | None => []
                         end) emails.

(** The distinct strings of a list, each where it comes first. *)
Fixpoint first_seen (l : list string) : list string :=
  match l with
  | [] => []
  | x :: rest => x :: filter (fun y => negb (String.eqb y x)) (first_seen rest)
  end.

(** A string is not among [keys]. *)
Definition absent (keys : list string) (x : string) : bool :=
  negb (existsb (String.eqb x) keys).

(** The four lines the summary prints for a record. *)
Definition sample_lines (email : Email) : list string :=
  [("  - From: " ++ dict_get (email_from email) "Unknown")%string;
   ("    Subject: " ++ dict_get (email_subject email) "No subject")%string;
   ("    Date: " ++ dict_get (email_date email) "Unknown")%string;
   ""%string].

(** The lines the summary prints for a category. *)
Definition category_lines (item : string * list Email) : list string :=
  ((nl ++ fst item ++ " (" ++ str_int (Z.of_nat (List.length (snd item)))
       ++ " emails):")%string
   :: flat_map sample_lines (firstn 3 (snd item))
   ++ (if (3 <? List.length (snd item))%nat
       then [("  ... and " ++ str_int (Z.of_nat (List.length (snd item) - 3))
                ++ " more emails in this category.")%string]
       else []))%list.

(** The calls a run from [w] to [w'] has made into the collaborators of the
    authentication. *)
Definition calls_since {A C : Type} (w w' : world (AuthEnv A C))
  : list (auth_call C) :=
  skipn (List.length (auth_log (env w))) (auth_log (env w')).

(** A call of the consent flow. *)
Definition is_consent {C : Type} (call : auth_call C) : bool :=
  match call with
  | CallFromSecrets _ _ => true
  | CallRunLocalServer _ _ => true
  | _ => false
  end.

(** A record has a category. *)
Definition has_category (email : Email) : bool :=
  match email_category email with Some _ => true | None => false end.

(** The events of the categorizer: the vectorization, the clustering and
    exceptions. *)
Definition categorizer_event (ev : event) : Prop :=
  match ev with
  | EvFitTransform _ => True
  | EvKMeansFit _ _ => True
  | EvRaised _ => True
  | _ => False
  end.

(** The last line on the console. *)
Definition last_line {E : Type} (w : world E) : string :=
  last (console w) ""%string.

(** * Properties of the categorizer *)

(** What a run has added to the trace and to the console. *)
Lemma events_since_app : forall (E1 E2 : Type) (w : world E1) (w' : world E2) tr,
  trace w' = (trace w ++ tr)%list -> events_since w w' = tr.
Proof.
  intros E1 E2 w w' tr H. unfold events_since. rewrite H. clear H.
  induction (trace w) as [| ev l IH]; [reflexivity | exact IH].
Qed.

Lemma lines_since_app : forall (E1 E2 : Type) (w : world E1) (w' : world E2) ls,
  console w' = (console w ++ ls)%list -> lines_since w w' = ls.
Proof.
  intros E1 E2 w w' ls H. unfold lines_since. rewrite H. clear H.
  induction (console w) as [| line l IH]; [reflexivity | exact IH].
Qed.

Lemma set_category_overwrite : forall label label' email,
  set_category label (set_category label' email) = set_category label email.
Proof. reflexivity. Qed.

Lemma set_category_subject : forall label email,
  email_subject (set_category label email) = email_subject email.
Proof. reflexivity. Qed.

Lemma documents_of_set_category : forall f emails,
  documents_of (map (fun e => set_category (f e) e) emails) = documents_of emails.
Proof.
  intros f emails. unfold documents_of. rewrite map_map. reflexivity.
Qed.

Section CategorizerFacts.
Context {numpy : Numpy}.
Variables Matrix RNG : Type.
Variable fit_transform :
  TfidfVectorizer -> list string -> exn + (Matrix * list string).
Variable fit : KMeans -> RNG -> Matrix -> (exn + KMeansFitted) * RNG.

(** What the [try] block of [suggest_categories] does before it touches the
    records, case by case. *)
Lemma cluster_labels_run : forall documents k w,
  cluster_labels fit_transform fit documents k w =
  match fit_transform vectorizer documents with
  | inl e =>
      (Raise e,
       mkWorld (env w) (console w)
               (trace w ++ [EvFitTransform documents; EvRaised e]))
  | inr (X, feature_names) =>
      let kmeans := mkKMeans k (Some 42) in
      match fit kmeans (env w) X with
      | (inl e, g) =>
          (Raise e,
           mkWorld g (console w)
                   (trace w ++ [EvFitTransform documents;
                                EvKMeansFit k (Some 42); EvRaised e]))
      | (inr fitted, g) =>
          match build_categories feature_names (cluster_centers_ fitted)
                                 0 (Z.to_nat k) with
          | inl e =>
              (Raise e,
               mkWorld g (console w)
                       (trace w ++ [EvFitTransform documents;
                                    EvKMeansFit k (Some 42); EvRaised e]))
          | inr categories =>
              (Ok (categories, labels_ fitted),
               mkWorld g (console w)
                       (trace w ++ [EvFitTransform documents;
                                    EvKMeansFit k (Some 42)]))
          end
      end
  end%list.
Proof.
  intros documents k w.
  unfold cluster_labels, call_fit_transform, call_fit, bind, emit, lift, throw, ret.
  cbn [env console trace n_clusters random_state].
  destruct (fit_transform vectorizer documents) as [e | [X feature_names]];
    world_simpl; [reflexivity | ].
  destruct (fit (mkKMeans k (Some 42)) (env w) X) as [[e | fitted] g];
    world_simpl; [reflexivity | ].
  destruct (build_categories feature_names (cluster_centers_ fitted) 0 (Z.to_nat k));
    world_simpl; reflexivity.
Qed.
End CategorizerFacts.

Lemma category_name_not_empty {numpy : Numpy} : forall feature_names i center,
  category_name feature_names i center <> "".
Proof.
  intros feature_names i center. unfold category_name.
  destruct (top_words feature_names (top_indices center)); discriminate.
Qed.

Lemma build_categories_length {numpy : Numpy} : forall feature_names centers count i categories,
  build_categories feature_names centers i count = inr categories ->
  List.length categories = count.
Proof.
  induction count as [| count IH]; intros i categories H; cbn in H.
  - injection H as <-. reflexivity.
  - destruct (nth_error centers i) as [center |]; [| discriminate].
    destruct (build_categories feature_names centers (S i) count) as [e | cs] eqn:Hrec;
      [discriminate |].
    injection H as <-. cbn. f_equal. eapply IH. eassumption.
Qed.

Lemma build_categories_nth {numpy : Numpy} : forall feature_names centers count i categories,
  build_categories feature_names centers i count = inr categories ->
  forall j, (j < count)%nat ->
  exists center,
    nth_error centers (i + j) = Some center
    /\ nth_error categories j = Some (category_name feature_names (i + j) center).
Proof.
  induction count as [| count IH]; intros i categories H j Hj; [lia |].
  cbn in H.
  destruct (nth_error centers i) as [center |] eqn:Hrow; [| discriminate].
  destruct (build_categories feature_names centers (S i) count) as [e | cs] eqn:Hrec;
    [discriminate |].
  injection H as <-.
  destruct j as [| j].
  - exists center. rewrite Nat.add_0_r. split; [assumption | reflexivity].
  - destruct (IH (S i) cs Hrec j) as [c [Hc Hn]]; [lia |].
    exists c. replace (i + S j)%nat with (S i + j)%nat by lia. split; assumption.
Qed.

Lemma build_categories_not_empty {numpy : Numpy} : forall feature_names centers count i categories,
  build_categories feature_names centers i count = inr categories ->
  Forall (fun label => label <> "") categories.
Proof.
  induction count as [| count IH]; intros i categories H; cbn in H.
  - injection H as <-. constructor.
  - destruct (nth_error centers i) as [center |]; [| discriminate].
    destruct (build_categories feature_names centers (S i) count) as [e | cs] eqn:Hrec;
      [discriminate |].
    injection H as <-. constructor.
    + apply category_name_not_empty.
    + eapply IH. eassumption.
Qed.

Lemma py_getitem_In : forall (A : Type) (l : list A) i x,
  py_getitem l i = Some x -> In x l.
Proof.
  intros A l i x. unfold py_getitem.
  destruct (0 <=? i); [apply nth_error_In |].
  destruct (- Z.of_nat (List.length l) <=? i); [apply nth_error_In | discriminate].
Qed.

(** The assignment loop gives each record it reaches one of the categories
    and leaves everything else as it was. *)
Lemma assign_categories_shape : forall categories clusters emails i,
  Forall2 (fun email email' =>
             email' = email
             \/ exists label, In label categories
                              /\ email' = set_category label email)
          emails (fst (assign_categories categories clusters i emails))
  /\ (snd (assign_categories categories clusters i emails) = None ->
      Forall2 (fun email email' =>
                 exists label, In label categories
                               /\ email' = set_category label email)
              emails (fst (assign_categories categories clusters i emails))).
Proof.
  intros categories clusters.
  assert (Hsame : forall l : list Email,
             Forall2 (fun email email' =>
                        email' = email
                        \/ exists label, In label categories
                                         /\ email' = set_category label email) l l).
  { induction l; constructor; auto. }
  induction emails as [| email rest IH]; intros i; cbn.
  - split; [constructor | intros _; constructor].
  - destruct (nth_error clusters i) as [c |]; cbn; [| split; [apply Hsame | discriminate]].
    destruct (py_getitem categories c) as [label |] eqn:Hget; cbn;
      [| split; [apply Hsame | discriminate]].
    specialize (IH (S i)).
    destruct (assign_categories categories clusters (S i) rest) as [rest' r].
    cbn in *. destruct IH as [IH1 IH2].
    assert (Hin : In label categories) by (eapply py_getitem_In; eassumption).
    split.
    + constructor; [right; exists label; auto | assumption].
    + intros Hr. constructor; [exists label; auto | auto].
Qed.

Lemma uncategorized_after_assign : forall categories clusters emails i,
  map (set_category "Uncategorized")
      (fst (assign_categories categories clusters i emails))
  = map (set_category "Uncategorized") emails.
Proof.
  intros categories clusters emails i.
  destruct (assign_categories_shape categories clusters emails i) as [H _].
  induction H as [| email email' l l' Hhead _ IH]; [reflexivity |].
  cbn. f_equal; [| assumption].
  destruct Hhead as [-> | [label [_ ->]]]; reflexivity.
Qed.

Lemma distinct_labels_among : forall (categories : list string) emails,
  Forall (fun email => exists label, In label categories
                                     /\ email_category email = Some label) emails ->
  (distinct_labels emails <= List.length categories)%nat.
Proof.
  intros categories emails H. unfold distinct_labels.
  rewrite <- (length_map (@Some string) categories).
  apply NoDup_incl_length; [apply NoDup_nodup |].
  intros x Hx. apply nodup_In in Hx. apply in_map_iff in Hx.
  destruct Hx as [email [<- Hin]].
  rewrite Forall_forall in H. destruct (H email Hin) as [label [Hl ->]].
  apply in_map. assumption.
Qed.

Lemma effective_clusters_positive : forall documents k,
  1 <= k -> 1 <= effective_clusters documents k.
Proof.
  intros documents k Hk. unfold effective_clusters.
  destruct (Z.of_nat (List.length documents) <? k); lia.
Qed.

Lemma assign_categories_again : forall categories clusters emails i out,
  assign_categories categories clusters i emails = (out, None) ->
  assign_categories categories clusters i out = (out, None).
Proof.
  intros categories clusters.
  induction emails as [| email rest IH]; intros i out H; cbn in H.
  - injection H as <-. reflexivity.
  - destruct (nth_error clusters i) as [c |] eqn:Hc; [| discriminate].
    destruct (py_getitem categories c) as [label |] eqn:Hget; [| discriminate].
    destruct (assign_categories categories clusters (S i) rest) as [rest' r] eqn:Hrest.
    injection H as <- ->.
    cbn. rewrite Hc, Hget, (IH (S i) rest' Hrest). reflexivity.
Qed.

Lemma assign_categories_outcome : forall categories clusters emails emails' i,
  List.length emails = List.length emails' ->
  snd (assign_categories categories clusters i emails)
  = snd (assign_categories categories clusters i emails').
Proof.
  intros categories clusters.
  induction emails as [| email rest IH]; intros [| email' rest'] i Hlen;
    try discriminate; [reflexivity |].
  cbn. destruct (nth_error clusters i) as [c |]; [| reflexivity].
  destruct (py_getitem categories c) as [label |]; [| reflexivity].
  specialize (IH rest' (S i) ltac:(cbn in Hlen; lia)).
  destruct (assign_categories categories clusters (S i) rest) as [o r].
  destruct (assign_categories categories clusters (S i) rest') as [o' r'].
  exact IH.
Qed.

Lemma documents_of_relabelled : forall emails out,
  Forall2 (fun email email' => exists label, email' = set_category label email)
          emails out ->
  documents_of out = documents_of emails.
Proof.
  intros emails out H. induction H as [| email email' l l' [label ->] _ IH];
    [reflexivity |].
  cbn. f_equal. exact IH.
Qed.

Lemma relabelled_uncategorized : forall emails,
  Forall2 (fun email email' => exists label, email' = set_category label email)
          emails (map (set_category "Uncategorized") emails).
Proof.
  induction emails; cbn; constructor; eauto.
Qed.

Lemma Ok_inj : forall (A : Type) (a b : A), Ok a = Ok b -> a = b.
Proof. intros A a b H. injection H as H. exact H. Qed.

Lemma Forall2_right : forall (A B : Type) (R : A -> B -> Prop) (P : B -> Prop) l l',
  Forall2 R l l' -> (forall x y, R x y -> P y) -> Forall P l'.
Proof.
  intros A B R P l l' H HP. induction H; constructor; eauto.
Qed.

Lemma labelled_uncategorized : forall emails,
  Forall labelled (map (set_category "Uncategorized") emails).
Proof.
  intros emails. apply Forall_forall. intros x Hx. apply in_map_iff in Hx.
  destruct Hx as [email [<- _]]. exists "Uncategorized". split; [reflexivity | discriminate].
Qed.

Lemma distinct_labels_uncategorized : forall emails,
  (distinct_labels (map (set_category "Uncategorized") emails) <= 1)%nat.
Proof.
  intros emails. apply (distinct_labels_among ["Uncategorized"]).
  apply Forall_forall. intros x Hx. apply in_map_iff in Hx.
  destruct Hx as [email [<- _]]. exists "Uncategorized". split; [left |]; reflexivity.
Qed.

Section CategorizerTheorems.
Context {numpy : Numpy}.
Variables Matrix RNG : Type.
Variable fit_transform :
  TfidfVectorizer -> list string -> exn + (Matrix * list string).
Variable fit : KMeans -> RNG -> Matrix -> (exn + KMeansFitted) * RNG.

(** A run of [suggest_categories] on at least one record, case by case. *)
Lemma suggest_categories_run : forall email emails k w,
  suggest_categories fit_transform fit (email :: emails) k w =
  let all := email :: emails in
  let documents := documents_of all in
  match cluster_labels fit_transform fit documents
                       (effective_clusters documents k) w with
  | (Ok (categories, clusters), w1) =>
      match assign_categories categories clusters 0 all with
      | (out, None) => (Ok out, w1)
      | (_, Some e) =>
          (Ok (map (set_category "Uncategorized") all),
           mkWorld (env w1)
                   (console w1 ++ [("Error in categorization: " ++ str_exn e)%string])%list
                   (trace w1 ++ [EvRaised e])%list)
      end
  | (Raise e, w1) =>
      (Ok (map (set_category "Uncategorized") all),
       mkWorld (env w1)
               (console w1 ++ [("Error in categorization: " ++ str_exn e)%string])%list
               (trace w1))
  | (Diverge, w1) => (Diverge, w1)
  end.
Proof.
  intros email emails k w. unfold suggest_categories. cbv zeta.
  destruct (cluster_labels fit_transform fit (documents_of (email :: emails))
              (effective_clusters (documents_of (email :: emails)) k) w)
    as [[[categories clusters] | e |] w1]; try reflexivity.
  pose proof (uncategorized_after_assign categories clusters (email :: emails) 0) as Hun.
  destruct (assign_categories categories clusters 0 (email :: emails)) as [out [e |]];
    [| reflexivity].
  cbn [fst] in Hun.
  unfold try_except, throw, uncategorize, bind, print, ret. world_simpl.
  rewrite Hun. reflexivity.
Qed.

(** The outcome of the labelling does not depend on the state of the
    process-wide generator when a seeded estimator never draws from it. *)
Lemma cluster_labels_seeded :
  (forall kmeans g1 g2 X,
      random_state kmeans <> None ->
      fst (fit kmeans g1 X) = fst (fit kmeans g2 X)) ->
  forall documents k w1 w2,
    fst (cluster_labels fit_transform fit documents k w1)
    = fst (cluster_labels fit_transform fit documents k w2).
Proof.
  intros seeded documents k w1 w2. rewrite !cluster_labels_run.
  destruct (fit_transform vectorizer documents) as [e | [X names]]; [reflexivity |].
  cbv zeta.
  pose proof (seeded (mkKMeans k (Some 42)) (env w1) (env w2) X) as H.
  destruct (fit (mkKMeans k (Some 42)) (env w1) X) as [r1 g1].
  destruct (fit (mkKMeans k (Some 42)) (env w2) X) as [r2 g2].
  cbn in H. rewrite <- H by discriminate.
  destruct r1 as [e | fitted]; [reflexivity |].
  destruct (build_categories names (cluster_centers_ fitted) 0 (Z.to_nat k));
    reflexivity.
Qed.

(** C10: on an empty sequence of records [suggest_categories] returns the
    empty sequence at once: nothing is vectorized, nothing is clustered,
    nothing is printed and no label is assigned. *)
Theorem C10_empty_input_returns_at_once : forall k w,
  suggest_categories fit_transform fit [] k w = (Ok [], w).
Proof. reflexivity. Qed.

(** C4: the cluster count the clustering is asked for.  On [n >= 1]
    documents and a requested count [k], every call of the k-means fit made
    by [suggest_categories] asks for [max(2, n // 2)] clusters when [n < k]
    and for [k] clusters otherwise, with seed 42; and the fit is called
    whenever the vectorizer has succeeded. *)
Theorem C4_effective_cluster_count : forall email emails k w,
  let n := Z.of_nat (List.length (email :: emails)) in
  let keff := if n <? k then Z.max 2 (n / 2) else k in
  effective_clusters (documents_of (email :: emails)) k = keff
  /\ exists tr,
      trace (snd (suggest_categories fit_transform fit (email :: emails) k w))
      = (trace w ++ tr)%list
      /\ (forall m s, In (EvKMeansFit m s) tr -> m = keff /\ s = Some 42)
      /\ ((exists X names,
              fit_transform vectorizer (documents_of (email :: emails))
              = inr (X, names))
          -> In (EvKMeansFit keff (Some 42)) tr).
Proof.
  intros email emails k w n keff.
  assert (Hk : effective_clusters (documents_of (email :: emails)) k = keff).
  { unfold effective_clusters, documents_of. rewrite length_map. reflexivity. }
  split; [exact Hk |].
  rewrite suggest_categories_run. cbv zeta. rewrite cluster_labels_run, Hk.
  destruct (fit_transform vectorizer (documents_of (email :: emails)))
    as [e | [X names]].
  - world_simpl. eexists. split; [reflexivity |]. split.
    + intros m s [H | [H | []]]; discriminate.
    + intros [X [names H]]. discriminate.
  - cbv zeta.
    destruct (fit (mkKMeans keff (Some 42)) (env w) X) as [[e | fitted] g].
    + world_simpl. eexists. split; [reflexivity |]. split.
      * intros m s [H | [H | [H | []]]]; try discriminate.
        injection H as <- <-. auto.
      * intros _. right. left. reflexivity.
    + destruct (build_categories names (cluster_centers_ fitted) 0 (Z.to_nat keff))
        as [e | categories].
      * world_simpl. eexists. split; [reflexivity |]. split.
        -- intros m s [H | [H | [H | []]]]; try discriminate.
           injection H as <- <-. auto.
        -- intros _. right. left. reflexivity.
      * destruct (assign_categories categories (labels_ fitted) 0 (email :: emails))
          as [out [e |]]; world_simpl; (eexists; split; [reflexivity |]); split.
        -- intros m s [H | [H | [H | []]]]; try discriminate.
           injection H as <- <-. auto.
        -- intros _. right. left. reflexivity.
        -- intros m s [H | [H | []]]; try discriminate.
           injection H as <- <-. auto.
        -- intros _. right. left. reflexivity.
Qed.

Lemma uncategorized_records : forall emails,
  Forall (fun email => email_category email = Some "Uncategorized")
         (map (set_category "Uncategorized") emails)
  /\ Forall2 same_message emails (map (set_category "Uncategorized") emails).
Proof.
  induction emails as [| email emails [IH1 IH2]]; cbn [map].
  - split; constructor.
  - split; constructor; try assumption; [reflexivity |].
    unfold same_message. cbn. repeat split; reflexivity.
Qed.

(** C3: when the vectorizer or the clustering raises on a non-empty
    sequence of records, [suggest_categories] returns normally: no exception
    escapes.  It returns as many records as it was given; every one of them
    has the category "Uncategorized" and is otherwise the record at the same
    place of the input; the only event after the failing call is the
    exception, and the only line printed reports it. *)
Theorem C3_fallback_is_global : forall email emails k w e,
  let all := email :: emails in
  let documents := documents_of all in
  (fit_transform vectorizer documents = inl e
   \/ exists X names g,
       fit_transform vectorizer documents = inr (X, names)
       /\ fit (mkKMeans (effective_clusters documents k) (Some 42)) (env w) X
          = (inl e, g)) ->
  exists out w',
    suggest_categories fit_transform fit all k w = (Ok out, w')
    /\ Forall (fun email' => email_category email' = Some "Uncategorized") out
    /\ Forall2 same_message all out
    /\ exceptions (events_since w w') = [e]
    /\ lines_since w w' = [("Error in categorization: " ++ str_exn e)%string].
Proof.
  intros email emails k w e all documents H.
  destruct (uncategorized_records all) as [Hlabels Hsame].
  unfold all at 1. rewrite suggest_categories_run. cbv zeta.
  rewrite cluster_labels_run. fold all. fold documents.
  destruct H as [H | [X [names [g [H1 H2]]]]].
  - rewrite H. eexists. eexists. split; [reflexivity |].
    split; [exact Hlabels |]. split; [exact Hsame |]. split.
    + rewrite (events_since_app _ _ w _ [EvFitTransform documents; EvRaised e]);
        reflexivity.
    + apply lines_since_app. reflexivity.
  - rewrite H1. cbv zeta. rewrite H2. eexists. eexists. split; [reflexivity |].
    split; [exact Hlabels |]. split; [exact Hsame |]. split.
    + rewrite (events_since_app _ _ w _
                 [EvFitTransform documents;
                  EvKMeansFit (effective_clusters documents k) (Some 42);
                  EvRaised e]); reflexivity.
    + apply lines_since_app. reflexivity.
Qed.

(** What a run on at least one record returns. *)
Lemma suggest_categories_labels : forall email emails k w,
  let all := email :: emails in
  exists out w',
    suggest_categories fit_transform fit all k w = (Ok out, w')
    /\ Forall2 (fun e e' => exists label, e' = set_category label e) all out
    /\ Forall labelled out
    /\ (1 <= k ->
        Z.of_nat (distinct_labels out)
        <= effective_clusters (documents_of all) k).
Proof.
  intros email emails k w all.
  assert (Hfallback : forall w' : world RNG,
             exists out w'',
               (Ok (map (set_category "Uncategorized") all), w') = (Ok out, w'')
               /\ Forall2 (fun e e' => exists label, e' = set_category label e) all out
               /\ Forall labelled out
               /\ (1 <= k ->
                   Z.of_nat (distinct_labels out)
                   <= effective_clusters (documents_of all) k)).
  { intros w'. exists (map (set_category "Uncategorized") all), w'.
    split; [reflexivity |]. split; [apply relabelled_uncategorized |].
    split; [apply labelled_uncategorized |].
    intros Hk. pose proof (effective_clusters_positive (documents_of all) k Hk).
    pose proof (distinct_labels_uncategorized all). lia. }
  unfold all at 1. rewrite suggest_categories_run. cbv zeta. fold all.
  rewrite cluster_labels_run.
  destruct (fit_transform vectorizer (documents_of all)) as [e | [X names]];
    [apply Hfallback |].
  cbv zeta.
  destruct (fit (mkKMeans (effective_clusters (documents_of all) k) (Some 42)) (env w) X)
    as [[e | fitted] g]; [apply Hfallback |].
  destruct (build_categories names (cluster_centers_ fitted) 0
              (Z.to_nat (effective_clusters (documents_of all) k)))
    as [e | categories] eqn:Hbuild; [apply Hfallback |].
  destruct (assign_categories_shape categories (labels_ fitted) all 0) as [_ Hshape].
  destruct (assign_categories categories (labels_ fitted) 0 all) as [out [e |]];
    [apply Hfallback |].
  cbn [fst snd] in Hshape. specialize (Hshape eq_refl).
  eexists out, _. split; [reflexivity |]. split; [| split].
  - eapply Forall2_impl; [| exact Hshape]. intros a b [label [_ ->]]. eauto.
  - eapply Forall2_right; [exact Hshape |].
    intros a b [label [Hin ->]]. exists label. split; [reflexivity |].
    pose proof (build_categories_not_empty _ _ _ _ _ Hbuild) as Hne.
    rewrite Forall_forall in Hne. auto.
  - intros Hk.
    assert (Hamong : (distinct_labels out <= List.length categories)%nat).
    { apply distinct_labels_among. eapply Forall2_right; [exact Hshape |].
      intros a b [label [Hin ->]]. exists label. auto. }
    rewrite (build_categories_length _ _ _ _ _ Hbuild) in Hamong.
    pose proof (effective_clusters_positive (documents_of all) k Hk). lia.
Qed.

(** C2 (as amended): after [suggest_categories] has returned on a non-empty
    sequence of records, the result is the same records, each with one
    non-empty category label, whether the clustering succeeded or the
    fallback ran; and when the requested cluster count is at least 1 the
    number of distinct labels is at most the effective cluster count. *)
Theorem C2_every_record_labelled : forall email emails k w,
  let all := email :: emails in
  exists out w',
    suggest_categories fit_transform fit all k w = (Ok out, w')
    /\ Forall2 (fun e e' => exists label, e' = set_category label e) all out
    /\ Forall labelled out
    /\ (1 <= k ->
        Z.of_nat (distinct_labels out)
        <= effective_clusters (documents_of all) k).
Proof. exact suggest_categories_labels. Qed.

(** C8: categorization is reproducible.  Provided a seeded k-means fit does
    not draw from the process-wide generator, two runs of
    [suggest_categories] on the same records and the same requested count
    return the same labelled records, whatever the state of the generator
    and whatever the earlier run left on the console; and a second run on
    the records the first run has labelled returns them unchanged. *)
Theorem C8_categorization_reproducible :
  (forall kmeans g1 g2 X,
      random_state kmeans <> None ->
      fst (fit kmeans g1 X) = fst (fit kmeans g2 X)) ->
  forall emails k w1 w2,
    fst (suggest_categories fit_transform fit emails k w1)
    = fst (suggest_categories fit_transform fit emails k w2)
    /\ forall out,
        fst (suggest_categories fit_transform fit emails k w1) = Ok out ->
        fst (suggest_categories fit_transform fit out k w2) = Ok out.
Proof.
  intros seeded [| email emails] k w1 w2.
  { split; [reflexivity |]. intros out H. injection H as <-. reflexivity. }
  set (all := email :: emails).
  assert (Hrun : forall w,
             fst (suggest_categories fit_transform fit all k w)
             = match fst (cluster_labels fit_transform fit (documents_of all)
                            (effective_clusters (documents_of all) k) w) with
               | Ok (categories, clusters) =>
                   match assign_categories categories clusters 0 all with
                   | (out, None) => Ok out
                   | (_, Some _) => Ok (map (set_category "Uncategorized") all)
                   end
               | Raise _ => Ok (map (set_category "Uncategorized") all)
               | Diverge => Diverge
               end).
  { intros w. unfold all. rewrite suggest_categories_run. cbv zeta.
    destruct (cluster_labels fit_transform fit (documents_of (email :: emails))
                (effective_clusters (documents_of (email :: emails)) k) w)
      as [[[categories clusters] | e |] w']; cbn [fst]; try reflexivity.
    destruct (assign_categories categories clusters 0 (email :: emails)) as [out [e |]];
      reflexivity. }
  split.
  { rewrite !Hrun.
    rewrite (cluster_labels_seeded seeded _ _ w1 w2). reflexivity. }
  intros out Hout.
  assert (Hrel : Forall2 (fun e e' => exists label, e' = set_category label e) all out).
  { destruct (suggest_categories_labels email emails k w1)
      as [out' [w' [Heq [Hrel _]]]].
    unfold all in Hout. rewrite Heq in Hout. injection Hout as <-. exact Hrel. }
  pose proof (documents_of_relabelled _ _ Hrel) as Hdocs.
  pose proof (Forall2_length Hrel) as Hlen.
  destruct out as [| email' out']; [discriminate |].
  set (all' := email' :: out') in *.
  assert (Hrun' : fst (suggest_categories fit_transform fit all' k w2)
                  = match fst (cluster_labels fit_transform fit (documents_of all)
                                 (effective_clusters (documents_of all) k) w1) with
                    | Ok (categories, clusters) =>
                        match assign_categories categories clusters 0 all' with
                        | (o, None) => Ok o
                        | (_, Some _) => Ok (map (set_category "Uncategorized") all')
                        end
                    | Raise _ => Ok (map (set_category "Uncategorized") all')
                    | Diverge => Diverge
                    end).
  { unfold all'. rewrite suggest_categories_run. cbv zeta. fold all'.
    rewrite Hdocs. rewrite (cluster_labels_seeded seeded _ _ w1 w2).
    destruct (cluster_labels fit_transform fit (documents_of all)
                (effective_clusters (documents_of all) k) w2)
      as [[[categories clusters] | e |] w']; cbn [fst]; try reflexivity.
    destruct (assign_categories categories clusters 0 all') as [o [e |]];
      reflexivity. }
  rewrite Hrun'. rewrite Hrun in Hout.
  assert (Hun : map (set_category "Uncategorized") all = all' ->
                map (set_category "Uncategorized") all' = all').
  { intros <-. rewrite map_map. apply map_ext. reflexivity. }
  destruct (fst (cluster_labels fit_transform fit (documents_of all)
                   (effective_clusters (documents_of all) k) w1))
    as [[categories clusters] | e |]; [| | discriminate].
  - pose proof (assign_categories_outcome categories clusters all all' 0 Hlen) as Hsnd.
    destruct (assign_categories categories clusters 0 all) as [o [e |]] eqn:Hassign.
    + apply Ok_inj in Hout.
      destruct (assign_categories categories clusters 0 all') as [o' r'].
      cbn [snd] in Hsnd. subst r'. f_equal. auto.
    + injection Hout as ->.
      rewrite (assign_categories_again _ _ _ _ _ Hassign). reflexivity.
  - apply Ok_inj in Hout. f_equal. auto.
Qed.
End CategorizerTheorems.

(** * The label of a cluster *)

(** ** Sorted lists *)

Lemma StronglySorted_app_iff : forall (A : Type) (R : A -> A -> Prop) l1 l2,
  StronglySorted R (l1 ++ l2)%list
  <-> StronglySorted R l1 /\ StronglySorted R l2
      /\ forall x y, In x l1 -> In y l2 -> R x y.
Proof.
  intros A R l1 l2. induction l1 as [| a l1 IH]; cbn.
  - split.
    + intros H. repeat split; [constructor | exact H | intros x y []].
    + intros [_ [H _]]. exact H.
  - split.
    + intros H. apply StronglySorted_inv in H. destruct H as [Hs Ha].
      apply IH in Hs. destruct Hs as [H1 [H2 H12]].
      rewrite Forall_forall in Ha.
      repeat split.
      * constructor; [exact H1 |]. apply Forall_forall. intros x Hx.
        apply Ha. apply in_or_app. auto.
      * exact H2.
      * intros x y [<- | Hx] Hy; [apply Ha, in_or_app; auto | auto].
    + intros [H1 [H2 H12]]. apply StronglySorted_inv in H1. destruct H1 as [H1 Ha].
      constructor.
      * apply IH. repeat split; auto.
      * rewrite Forall_forall in *. intros x Hx. apply in_app_or in Hx.
        destruct Hx; auto.
Qed.

Lemma StronglySorted_rev : forall (A : Type) (R : A -> A -> Prop) l,
  StronglySorted R l -> StronglySorted (fun x y => R y x) (rev l).
Proof.
  intros A R l H. induction H as [| a l Hs IH Ha]; cbn; [constructor |].
  apply StronglySorted_app_iff. repeat split.
  - exact IH.
  - constructor; constructor.
  - intros x y Hx [<- | []]. rewrite Forall_forall in Ha.
    apply Ha, in_rev. exact Hx.
Qed.

Lemma StronglySorted_map_fst : forall (center : list Q) (l : list (nat * Q)),
  StronglySorted pair_below l ->
  Forall (fun p => snd p = weight center (fst p)) l ->
  StronglySorted (below center) (map fst l).
Proof.
  intros center l H. induction H as [| p l Hs IH Hp]; intros Hw; cbn;
    [constructor |].
  inversion Hw as [| ? ? Hp0 Hl]; subst.
  constructor; [auto |].
  rewrite Forall_forall in *. intros j Hj. apply in_map_iff in Hj.
  destruct Hj as [q [<- Hq]]. unfold below.
  rewrite <- Hp0, <- (Hl q Hq).
  destruct p, q. apply Hp. exact Hq.
Qed.

(** ** Sorting routines that keep numpy's promise *)

Lemma insert_sorted_perm : forall x l, Permutation (Sample.insert_sorted x l) (x :: l).
Proof.
  intros x l. induction l as [| y l IH]; cbn; [reflexivity |].
  destruct (Qle_bool (snd y) (snd x)); [| reflexivity].
  rewrite IH. apply perm_swap.
Qed.

Lemma insert_sorted_sorted : forall x l,
  StronglySorted pair_below l ->
  Forall (fun p => (fst p < fst x)%nat) l ->
  StronglySorted pair_below (Sample.insert_sorted x l).
Proof.
  intros x l Hs. induction Hs as [| y l Hs IH Hy]; intros Hlt; cbn.
  - constructor; constructor.
  - inversion Hlt as [| ? ? Hyx Hl]; subst.
    destruct (Qle_bool (snd y) (snd x)) eqn:Hle.
    + constructor; [auto |].
      rewrite Forall_forall in *. intros p Hp.
      apply (Permutation_in _ (insert_sorted_perm x l)) in Hp.
      destruct Hp as [<- | Hp]; [| auto].
      apply Qle_bool_iff, Qle_lteq in Hle. destruct Hle as [Hle | Hle].
      * left. exact Hle.
      * right. split; assumption.
    + assert (Hxy : (snd x < snd y)%Q).
      { apply Qnot_le_lt. intros C. apply Qle_bool_iff in C. congruence. }
      constructor; [constructor; assumption |].
      constructor; [left; exact Hxy |].
      rewrite Forall_forall in *. intros p Hp. left.
      apply Qlt_le_trans with (snd y); [exact Hxy |].
      destruct (Hy p Hp) as [H | [H _]].
      * apply Qlt_le_weak. exact H.
      * apply Qle_lteq. right. exact H.
Qed.

Lemma combine_seq_fst : forall (a : list Q) i,
  map fst (combine (seq i (List.length a)) a) = seq i (List.length a).
Proof.
  induction a as [| w a IH]; intros i; cbn; [reflexivity |].
  f_equal. apply IH.
Qed.

Lemma combine_seq_weight : forall (a : list Q) i j w,
  In (j, w) (combine (seq i (List.length a)) a) ->
  (i <= j)%nat /\ nth (j - i) a 0%Q = w.
Proof.
  induction a as [| x a IH]; intros i j w H; cbn in H; [contradiction |].
  destruct H as [H | H].
  - injection H as <- <-. rewrite Nat.sub_diag. split; [lia | reflexivity].
  - apply IH in H. destruct H as [Hle <-]. split; [lia |].
    replace (j - i)%nat with (S (j - S i)) by lia. reflexivity.
Qed.

Lemma fold_insert_sorted : forall (a : list Q) i acc,
  StronglySorted pair_below acc ->
  Forall (fun p => (fst p < i)%nat) acc ->
  let sorted :=
    fold_left (fun sorted x => Sample.insert_sorted x sorted)
              (combine (seq i (List.length a)) a) acc in
  StronglySorted pair_below sorted
  /\ Permutation sorted (acc ++ combine (seq i (List.length a)) a).
Proof.
  induction a as [| w a IH]; intros i acc Hs Hlt; cbn.
  - split; [exact Hs | rewrite app_nil_r; reflexivity].
  - destruct (IH (S i) (Sample.insert_sorted (i, w) acc)) as [H1 H2].
    + apply insert_sorted_sorted; assumption.
    + rewrite Forall_forall in *. intros p Hp.
      apply (Permutation_in _ (insert_sorted_perm (i, w) acc)) in Hp.
      destruct Hp as [<- | Hp]; [cbn; lia |]. specialize (Hlt p Hp). lia.
    + split; [exact H1 |]. rewrite H2, insert_sorted_perm.
      apply Permutation_middle.
Qed.

Lemma stable_argsort_perm : forall a,
  Permutation (Sample.stable_argsort a) (seq 0 (List.length a)).
Proof.
  intros a. unfold Sample.stable_argsort, enumerate.
  destruct (fold_insert_sorted a 0 []) as [_ H]; [constructor | constructor |].
  cbn in H. rewrite H. rewrite combine_seq_fst. reflexivity.
Qed.

Lemma stable_argsort_sorted : forall a,
  StronglySorted (below a) (Sample.stable_argsort a).
Proof.
  intros a. unfold Sample.stable_argsort, enumerate.
  destruct (fold_insert_sorted a 0 []) as [Hs Hp]; [constructor | constructor |].
  cbn in Hs, Hp. apply StronglySorted_map_fst; [exact Hs |].
  apply Forall_forall. intros [j w] Hj.
  apply (Permutation_in _ Hp) in Hj. apply combine_seq_weight in Hj.
  destruct Hj as [_ <-]. cbn. unfold weight. rewrite Nat.sub_0_r. reflexivity.
Qed.

Lemma StronglySorted_impl : forall (A : Type) (R R' : A -> A -> Prop) l,
  (forall x y, R x y -> R' x y) -> StronglySorted R l -> StronglySorted R' l.
Proof.
  intros A R R' l HR H. induction H as [| a l Hs IH Ha]; constructor; [exact IH |].
  eapply Forall_impl; [| exact Ha]. intros y. apply HR.
Qed.

(** The stable sort keeps numpy's promise. *)
Lemma stable_argsort_sorts : sorts Sample.numpy.
Proof.
  intros a. split; [apply stable_argsort_perm |].
  apply (StronglySorted_impl _ (below a)); [| apply stable_argsort_sorted].
  intros i j [H | [H _]].
  - apply Qlt_le_weak. exact H.
  - apply Qle_lteq. right. exact H.
Qed.

(** The sort that puts equal weights in descending index order keeps the
    promise as well. *)
Lemma insert_before_perm : forall x l,
  Permutation (Sample.insert_before x l) (x :: l).
Proof.
  intros x l. induction l as [| y l IH]; cbn; [reflexivity |].
  destruct (Qle_bool (snd x) (snd y)); [reflexivity |].
  rewrite IH. apply perm_swap.
Qed.

Lemma insert_before_sorted : forall x l,
  StronglySorted (fun p q : nat * Q => (snd p <= snd q)%Q) l ->
  StronglySorted (fun p q : nat * Q => (snd p <= snd q)%Q)
                 (Sample.insert_before x l).
Proof.
  intros x l Hs. induction Hs as [| y l Hs IH Hy]; cbn.
  - constructor; constructor.
  - destruct (Qle_bool (snd x) (snd y)) eqn:Hle.
    + apply Qle_bool_iff in Hle.
      constructor; [constructor; assumption |].
      constructor; [exact Hle |].
      eapply Forall_impl; [| exact Hy]. intros p Hp. cbv beta in Hp |- *.
      apply Qle_trans with (snd y); assumption.
    + assert (Hyx : (snd y <= snd x)%Q).
      { apply Qlt_le_weak, Qnot_le_lt. intros C. apply Qle_bool_iff in C. congruence. }
      constructor; [exact IH |].
      rewrite Forall_forall in *. intros p Hp.
      apply (Permutation_in _ (insert_before_perm x l)) in Hp.
      destruct Hp as [<- | Hp]; [exact Hyx | auto].
Qed.

Lemma sorted_by_weight_map_fst : forall (center : list Q) (l : list (nat * Q)),
  StronglySorted (fun p q : nat * Q => (snd p <= snd q)%Q) l ->
  Forall (fun p => snd p = weight center (fst p)) l ->
  StronglySorted (fun i j => (weight center i <= weight center j)%Q) (map fst l).
Proof.
  intros center l H. induction H as [| p l Hs IH Hp]; intros Hw; cbn [map];
    [constructor |].
  inversion Hw as [| ? ? Hp0 Hl]; subst.
  constructor; [exact (IH Hl) |].
  rewrite Forall_forall in *. intros j Hj. apply in_map_iff in Hj.
  destruct Hj as [q [<- Hq]]. rewrite <- Hp0, <- (Hl q Hq). exact (Hp q Hq).
Qed.

Lemma reverse_argsort_sorts : sorts {| argsort := Sample.reverse_argsort |}.
Proof.
  intros a. cbn [argsort]. unfold Sample.reverse_argsort, enumerate.
  assert (H : forall (xs acc : list (nat * Q)),
             StronglySorted (fun p q : nat * Q => (snd p <= snd q)%Q) acc ->
             let sorted := fold_left (fun sorted x => Sample.insert_before x sorted)
                                     xs acc in
             StronglySorted (fun p q : nat * Q => (snd p <= snd q)%Q) sorted
             /\ Permutation sorted (acc ++ xs)).
  { induction xs as [| x xs IH]; intros acc Hacc; cbn.
    - split; [exact Hacc | rewrite app_nil_r; reflexivity].
    - destruct (IH _ (insert_before_sorted x acc Hacc)) as [H1 H2].
      split; [exact H1 |]. rewrite H2, insert_before_perm.
      apply Permutation_middle. }
  destruct (H (combine (seq 0 (List.length a)) a) [] (SSorted_nil _)) as [Hs Hp].
  cbn [app] in Hp. split.
  - rewrite Hp, combine_seq_fst. reflexivity.
  - assert (Hw : Forall (fun p : nat * Q => snd p = weight a (fst p))
                   (fold_left (fun sorted x => Sample.insert_before x sorted)
                              (combine (seq 0 (List.length a)) a) [])).
    { apply Forall_forall. intros [j w] Hj.
      apply (Permutation_in _ Hp) in Hj. apply combine_seq_weight in Hj.
      destruct Hj as [_ <-]. cbn. unfold weight. rewrite Nat.sub_0_r. reflexivity. }
    exact (sorted_by_weight_map_fst a _ Hs Hw).
Qed.

(** Both sorts keep the promise, and they give a centroid with equal
    weights different labels: the order of equal weights is not left to the
    script. *)
Lemma label_follows_the_sort :
  category_name (numpy := Sample.numpy) ["a"; "b"; "c"; "d"] 0
                [1 # 2; 1 # 2; 0; 0]%Q
  = "Category 1: b, a, d"
  /\ category_name (numpy := {| argsort := Sample.reverse_argsort |})
                   ["a"; "b"; "c"; "d"] 0 [1 # 2; 1 # 2; 0; 0]%Q
     = "Category 1: a, b, c".
Proof. split; vm_compute; reflexivity. Qed.

(** ** The three heaviest features *)

Section Labels.
Context {numpy : Numpy}.
Hypothesis promise : sorts numpy.

Lemma argsort_length : forall a, List.length (argsort a) = List.length a.
Proof.
  intros a. rewrite (Permutation_length (proj1 (promise a))). apply length_seq.
Qed.

Lemma top_indices_length : forall center,
  List.length (top_indices center) = Nat.min 3 (List.length center).
Proof.
  intros center. unfold top_indices, last_n.
  rewrite length_rev, length_skipn, argsort_length. lia.
Qed.

Lemma top_indices_sorted : forall center,
  StronglySorted (outweighs center) (top_indices center).
Proof.
  intros center. unfold top_indices, last_n.
  apply (StronglySorted_rev _ (fun i j => (weight center i <= weight center j)%Q)).
  pose proof (proj2 (promise center)) as H.
  rewrite <- (firstn_skipn (List.length (argsort center) - 3) (argsort center)) in H.
  apply StronglySorted_app_iff in H. tauto.
Qed.

Lemma top_indices_NoDup : forall center, NoDup (top_indices center).
Proof.
  intros center. unfold top_indices, last_n. apply NoDup_rev.
  assert (H : NoDup (argsort center)).
  { apply (Permutation_NoDup (Permutation_sym (proj1 (promise center)))).
    apply seq_NoDup. }
  rewrite <- (firstn_skipn (List.length (argsort center) - 3) (argsort center)) in H.
  apply NoDup_app_remove_l in H. exact H.
Qed.

Lemma top_indices_range : forall center i,
  In i (top_indices center) -> (i < List.length center)%nat.
Proof.
  intros center i H. unfold top_indices, last_n in H.
  apply in_rev in H.
  assert (Hin : In i (argsort center)).
  { rewrite <- (firstn_skipn (List.length (argsort center) - 3) (argsort center)).
    apply in_or_app. auto. }
  apply (Permutation_in _ (proj1 (promise center))) in Hin.
  apply in_seq in Hin. lia.
Qed.

Lemma top_indices_heaviest : forall center i j,
  In i (top_indices center) ->
  (j < List.length center)%nat ->
  ~ In j (top_indices center) ->
  outweighs center i j.
Proof.
  intros center i j Hi Hj Hnj. unfold top_indices, last_n in *.
  apply in_rev in Hi.
  assert (Hin : In j (argsort center)).
  { apply (Permutation_in _ (Permutation_sym (proj1 (promise center)))).
    apply in_seq. lia. }
  pose proof (proj2 (promise center)) as Hs.
  rewrite <- (firstn_skipn (List.length (argsort center) - 3) (argsort center))
    in Hs, Hin.
  apply StronglySorted_app_iff in Hs. destruct Hs as [_ [_ Hs]].
  apply in_app_or in Hin. destruct Hin as [Hin | Hin].
  - exact (Hs j i Hin Hi).
  - exfalso. apply Hnj. apply in_rev in Hin. exact Hin.
Qed.

Lemma filter_all : forall (A : Type) (f : A -> bool) l,
  (forall x, In x l -> f x = true) -> filter f l = l.
Proof.
  intros A f l. induction l as [| a l IH]; intros H; cbn; [reflexivity |].
  rewrite (H a (or_introl eq_refl)). f_equal. apply IH.
  intros x Hx. apply H. right. exact Hx.
Qed.

Lemma top_words_all : forall feature_names center,
  List.length feature_names = List.length center ->
  top_words feature_names (top_indices center)
  = map (fun idx => nth idx feature_names "") (top_indices center).
Proof.
  intros feature_names center Hlen. unfold top_words.
  rewrite filter_all; [reflexivity |].
  intros idx Hidx. apply top_indices_range in Hidx.
  apply Nat.ltb_lt. lia.
Qed.

(** C6 (as amended): the labels of a successful clustering, for every
    sorting routine that keeps numpy's promise.  The list of categories has
    one label per cluster, in cluster-id order; the label of cluster [i] is
    "Category i+1" when no term qualifies and "Category i+1: " followed by
    the qualifying terms joined by ", " otherwise.  The terms are those of
    (up to) three different features of the centroid, each weighing at
    least as much as every feature left out, listed so that the weights do
    not increase.  Which of several features of equal weight are taken, and
    in which order, is the sorting routine's choice. *)
Theorem C6_cluster_label : forall feature_names cluster_centers count categories,
  build_categories feature_names cluster_centers 0 count = inr categories ->
  List.length categories = count
  /\ forall i, (i < count)%nat ->
     exists center,
       nth_error cluster_centers i = Some center
       /\ nth_error categories i = Some (category_name feature_names i center)
       /\ (top_words feature_names (top_indices center) = [] ->
           category_name feature_names i center
           = "Category " ++ str_int (Z.of_nat i + 1))
       /\ (top_words feature_names (top_indices center) <> [] ->
           category_name feature_names i center
           = "Category " ++ str_int (Z.of_nat i + 1) ++ ": "
               ++ join ", " (top_words feature_names (top_indices center)))
       /\ (List.length feature_names = List.length center ->
           top_words feature_names (top_indices center)
           = map (fun idx => nth idx feature_names "") (top_indices center))
       /\ List.length (top_indices center) = Nat.min 3 (List.length center)
       /\ NoDup (top_indices center)
       /\ StronglySorted (outweighs center) (top_indices center)
       /\ (forall a b,
              In a (top_indices center) ->
              (b < List.length center)%nat ->
              ~ In b (top_indices center) ->
              outweighs center a b).
Proof.
  intros feature_names cluster_centers count categories Hbuild.
  split; [eapply build_categories_length; eassumption |].
  intros i Hi.
  destruct (build_categories_nth _ _ _ _ _ Hbuild i Hi) as [center [Hrow Hlabel]].
  cbn [Nat.add] in Hrow, Hlabel.
  exists center. split; [exact Hrow |]. split; [exact Hlabel |].
  split; [| split; [| split; [| split; [| split; [| split]]]]].
  - intros Hnone. unfold category_name. rewrite Hnone. reflexivity.
  - intros Hsome. unfold category_name.
    destruct (top_words feature_names (top_indices center)); [congruence | reflexivity].
  - apply top_words_all.
  - apply top_indices_length.
  - apply top_indices_NoDup.
  - apply top_indices_sorted.
  - apply top_indices_heaviest.
Qed.
End Labels.

Lemma C6_cluster_label_witness :
  sorts Sample.numpy
  /\ build_categories (numpy := Sample.numpy)
       ["invoice"; "meeting"; "team"; "notes"]
       [[1 # 2; 0; 1 # 4; 1 # 8]; [0; 1; 0; 1 # 2]]%Q 0 2
     = inr ["Category 1: invoice, team, notes"; "Category 2: meeting, notes, team"]
  /\ List.length ["Category 1: invoice, team, notes";
                  "Category 2: meeting, notes, team"] = 2%nat.
Proof.
  split; [exact stable_argsort_sorts |]. split; [reflexivity |].
  apply (C6_cluster_label (numpy := Sample.numpy) stable_argsort_sorts
           ["invoice"; "meeting"; "team"; "notes"]
           [[1 # 2; 0; 1 # 4; 1 # 8]; [0; 1; 0; 1 # 2]]%Q 2
           ["Category 1: invoice, team, notes"; "Category 2: meeting, notes, team"]).
  reflexivity.
Defined.

(** C6 as worded fails on ties: with four features of equal weight, a
    sorting routine that keeps numpy's promise makes the code name the last
    three, last first, where feature index order names the first three. *)
Lemma C6_ties_counterexample :
  sorts Sample.numpy
  /\ category_name (numpy := Sample.numpy) ["a"; "b"; "c"; "d"] 0 [1; 1; 1; 1]%Q
     = "Category 1: d, c, b"
  /\ Spec.category_name ["a"; "b"; "c"; "d"] 0 [1; 1; 1; 1]%Q
     = "Category 1: a, b, c"
  /\ ~ (forall numpy : Numpy,
           sorts numpy ->
           forall feature_names i center,
             category_name feature_names i center
             = Spec.category_name feature_names i center).
Proof.
  split; [exact stable_argsort_sorts |].
  split; [reflexivity |]. split; [reflexivity |].
  intros H.
  specialize (H Sample.numpy stable_argsort_sorts ["a"; "b"; "c"; "d"] 0%nat
                [1; 1; 1; 1]%Q).
  vm_compute in H. discriminate.
Qed.

(** * Properties of the fetcher *)

(** ** Hydration *)

Lemma lstrip_truthy : forall s, str_truthy (lstrip s) = nonblank s.
Proof.
  induction s as [| c s IH]; cbn; [reflexivity |].
  destruct (isspace c); cbn; [exact IH | reflexivity].
Qed.

Lemma nonblank_lstrip : forall s, nonblank (lstrip s) = nonblank s.
Proof.
  induction s as [| c s IH]; cbn; [reflexivity |].
  destruct (isspace c) eqn:Hc; cbn; [exact IH | rewrite Hc; reflexivity].
Qed.

Lemma nonblank_rev_onto : forall s acc,
  nonblank (string_rev_onto s acc) = nonblank s || nonblank acc.
Proof.
  induction s as [| c s IH]; intros acc; cbn; [reflexivity |].
  rewrite IH. cbn. destruct (isspace c), (nonblank s), (nonblank acc); reflexivity.
Qed.

Lemma truthy_rev_onto : forall s acc,
  str_truthy (string_rev_onto s acc) = str_truthy s || str_truthy acc.
Proof.
  induction s as [| c s IH]; intros acc; cbn; [reflexivity |].
  rewrite IH. cbn. apply orb_true_r.
Qed.

(** [bool(s.strip())] is true exactly when [s] has a character that is not
    white space. *)
Lemma strip_truthy : forall s, str_truthy (strip s) = nonblank s.
Proof.
  intros s. unfold strip, string_rev.
  rewrite truthy_rev_onto, orb_false_r, lstrip_truthy.
  rewrite nonblank_rev_onto, orb_false_r. apply nonblank_lstrip.
Qed.

Lemma hydrate_body : forall msg email,
  hydrate msg = inr email ->
  email_body email = ""
  /\ email_has_body email = Some (nonblank (dict_get (msg_snippet msg) "")).
Proof.
  intros msg email H. unfold hydrate, and_then in H.
  destruct (getitem "id" (msg_id msg)); [discriminate |].
  destruct (getitem "threadId" (msg_threadId msg)); [discriminate |].
  destruct (getitem "payload" (msg_payload msg)) as [| payload]; [discriminate |].
  destruct (getitem "headers" (headers payload)) as [| hs]; [discriminate |].
  destruct (header_loop _ hs); [discriminate |].
  injection H as <-. cbn. unfold has_body_of. rewrite strip_truthy.
  split; reflexivity.
Qed.

(** ** Exceptions and the trace *)





Section TidyFacts.
Context {E : Type}.










End TidyFacts.


Section FetcherFacts.
Variable Service : Type.
Variable messages_list :
  Service -> string -> string -> option string -> Z ->
  (exn + ListResponse) * Service.
Variable messages_get :
  Service -> string -> string -> string -> list string ->
  (exn + Message) * Service.





End FetcherFacts.

(** ** Reading a successful run backwards *)

Lemma bind_Ok : forall (E A B : Type) (c : M E A) (k : A -> M E B) w b w',
  bind c k w = (Ok b, w') ->
  exists a w1, c w = (Ok a, w1) /\ k a w1 = (Ok b, w').
Proof.
  intros E A B c k w b w' H. unfold bind in H.
  destruct (c w) as [[a | e |] w1]; try discriminate.
  exists a, w1. split; [reflexivity | exact H].
Qed.

Lemma lift_Ok : forall (E A : Type) (r : exn + A) (w : world E) a w',
  lift r w = (Ok a, w') -> r = inr a.
Proof.
  intros E A [e | x] w a w' H; cbn in H; [discriminate |].
  injection H as <- _. reflexivity.
Qed.

Section FetcherTheorems.
Variable Service : Type.
Variable messages_list :
  Service -> string -> string -> option string -> Z ->
  (exn + ListResponse) * Service.
Variable messages_get :
  Service -> string -> string -> string -> list string ->
  (exn + Message) * Service.

Lemma hydrate_loop_hydrated :
  forall (P : Email -> Prop) user_id batch_size total_messages,
  (forall msg email, hydrate msg = inr email -> P email) ->
  forall refs i emails w out w',
    Forall P emails ->
    hydrate_loop messages_get user_id batch_size total_messages i refs emails w
    = (Ok out, w') ->
    Forall P out.
Proof.
  intros P user_id batch_size total_messages HP.
  induction refs as [| message refs IH]; intros i emails w out w' Hacc H; cbn in H.
  - injection H as <- _. exact Hacc.
  - apply bind_Ok in H. destruct H as [_ [w1 [_ H]]].
    apply bind_Ok in H. destruct H as [message_id [w2 [_ H]]].
    apply bind_Ok in H. destruct H as [msg [w3 [_ H]]].
    apply bind_Ok in H. destruct H as [email_data [w4 [Hhyd H]]].
    apply lift_Ok in Hhyd.
    apply bind_Ok in H. destruct H as [pause [w5 [_ H]]].
    apply bind_Ok in H. destruct H as [_ [w6 [_ H]]].
    eapply IH; [| exact H].
    apply Forall_app. split; [exact Hacc |].
    constructor; [| constructor]. eapply HP. exact Hhyd.
Qed.

Lemma fetch_hydrated : forall (P : Email -> Prop) fuel user_id batch_size w out w',
  (forall msg email, hydrate msg = inr email -> P email) ->
  get_all_unread_emails messages_list messages_get fuel user_id batch_size w
  = (Ok out, w') ->
  Forall P out.
Proof.
  intros P fuel user_id batch_size w out w' HP H.
  unfold get_all_unread_emails, try_except in H.
  destruct (fetch_body messages_list messages_get fuel user_id batch_size w)
    as [[emails | e |] w1] eqn:Hbody.
  - injection H as <- _. unfold fetch_body in Hbody.
    apply bind_Ok in Hbody. destruct Hbody as [total_count [w2 [_ Hbody]]].
    apply bind_Ok in Hbody. destruct Hbody as [_ [w3 [_ Hbody]]].
    apply bind_Ok in Hbody. destruct Hbody as [refs [w4 [_ Hbody]]].
    destruct (negb (list_truthy refs)).
    + apply bind_Ok in Hbody. destruct Hbody as [_ [w5 [_ Hbody]]].
      injection Hbody as <- _. constructor.
    + apply bind_Ok in Hbody. destruct Hbody as [_ [w5 [_ Hbody]]].
      eapply hydrate_loop_hydrated; [exact HP | constructor | exact Hbody].
  - cbn in H. injection H as <- _. constructor.
  - discriminate.
Qed.

End FetcherTheorems.

(** ** The pagination loop *)

Section PaginationTheorems.
Variable Service : Type.
Variable messages_list :
  Service -> string -> string -> option string -> Z ->
  (exn + ListResponse) * Service.

(** One pass through the loop after the provider has answered with a page,
    case by case. *)
Lemma page_body_run : forall user_id total_count st w response s,
  messages_list (env w) user_id unread_query (next_page_token st) 100
  = (inr response, s) ->
  let page := dict_get (messages response) [] in
  let all := (all_messages st ++ page)%list in
  fst (page_body messages_list user_id total_count st w)
  = if negb (list_truthy page) then Ok (Break (all_messages st))
    else if negb (token_truthy (nextPageToken response)) then Ok (Break all)
    else match reached_expected (Z.of_nat (List.length all)) total_count with
         | inl e => Raise e
         | inr true => Ok (Break all)
         | inr false =>
             Ok (Continue (mkPageState all (nextPageToken response)
                                       (page_count st + 1)))
         end.
Proof.
  intros user_id total_count st w response s H page all.
  unfold page_body, call_list, bind, print, emit. cbn [env console trace].
  rewrite H. cbn [lift ret]. fold page. fold all.
  destruct (negb (list_truthy page)); [reflexivity |].
  destruct (negb (token_truthy (nextPageToken response))); [reflexivity |].
  destruct (reached_expected (Z.of_nat (List.length all)) total_count) as [e | [|]];
    reflexivity.
Qed.

(** Every pass begins by asking for the page its token names. *)
Lemma page_body_requests : forall user_id total_count st w,
  exists tr,
    trace (snd (page_body messages_list user_id total_count st w))
    = (trace w ++ EvListMessages unread_query (next_page_token st) 100 :: tr)%list.
Proof.
  intros user_id total_count st w.
  unfold page_body, call_list, bind, print, emit. cbn [env console trace].
  destruct (messages_list (env w) user_id unread_query (next_page_token st) 100)
    as [[e | response] s]; cbn [lift ret throw].
  - world_simpl. eexists. reflexivity.
  - destruct (negb (list_truthy (dict_get (messages response) [])));
      [world_simpl; exists []; reflexivity |].
    cbn [env console trace].
    destruct (negb (token_truthy (nextPageToken response)));
      [world_simpl; exists []; reflexivity |].
    destruct (reached_expected _ total_count) as [e | [|]];
      cbn [lift ret throw]; world_simpl; eexists; reflexivity.
Qed.

(** C1 (as amended): once the provider has answered a page request, the
    pagination loop stops exactly when the page carries no messages, or no
    continuation token, or the accumulated identifier count is at least the
    estimate times 1.1 as binary64 arithmetic computes it.  Otherwise,
    provided that product can be computed, the loop goes on with the
    identifiers accumulated so far, and its next pass asks for the page the
    token names. *)
Theorem C1_pagination_stopping_rule :
  forall user_id total_count st w response s,
    messages_list (env w) user_id unread_query (next_page_token st) 100
    = (inr response, s) ->
    let page := dict_get (messages response) [] in
    let all := (all_messages st ++ page)%list in
    let st' := mkPageState all (nextPageToken response) (page_count st + 1) in
    ((exists acc, fst (page_body messages_list user_id total_count st w)
                  = Ok (Break acc))
     <-> page_stops total_count st response)
    /\ (~ page_stops total_count st response ->
        reached_expected (Z.of_nat (List.length all)) total_count = inr false ->
        fst (page_body messages_list user_id total_count st w) = Ok (Continue st')
        /\ (forall fuel,
               while_true (S fuel) (page_body messages_list user_id total_count) st w
               = while_true fuel (page_body messages_list user_id total_count) st'
                   (snd (page_body messages_list user_id total_count st w)))
        /\ forall w1, exists tr,
             trace (snd (page_body messages_list user_id total_count st' w1))
             = (trace w1
                  ++ EvListMessages unread_query (nextPageToken response) 100
                  :: tr)%list).
Proof.
  intros user_id total_count st w response s H page all st'.
  pose proof (page_body_run user_id total_count st w response s H) as Hrun.
  cbv zeta in Hrun. fold page in Hrun. fold all in Hrun.
  unfold page_stops. fold page. fold all.
  split; [split |].
  - intros [acc Hacc]. rewrite Hrun in Hacc.
    destruct page as [| m page']; [left; reflexivity |]. right.
    cbn [list_truthy negb] in Hacc.
    destruct (token_truthy (nextPageToken response)); [| left; reflexivity]. right.
    cbn [negb] in Hacc.
    destruct (reached_expected (Z.of_nat (List.length all)) total_count)
      as [e | [|]]; [discriminate | reflexivity | discriminate].
  - intros Hstop. rewrite Hrun.
    destruct page as [| m page']; [eexists; reflexivity |].
    cbn [list_truthy negb].
    destruct (token_truthy (nextPageToken response)); cbn [negb];
      [| eexists; reflexivity].
    destruct Hstop as [Hstop | [Hstop | Hstop]]; [discriminate | discriminate |].
    rewrite Hstop. eexists; reflexivity.
  - intros Hgo Hreached.
    assert (Hstep : fst (page_body messages_list user_id total_count st w)
                    = Ok (Continue st')).
    { rewrite Hrun, Hreached.
      destruct page as [| m page']; [exfalso; apply Hgo; left; reflexivity |].
      cbn [list_truthy negb].
      destruct (token_truthy (nextPageToken response));
        [reflexivity | exfalso; apply Hgo; right; left; reflexivity]. }
    split; [exact Hstep |]. split.
    + intros fuel. cbn [while_true]. unfold bind. clear Hrun.
      destruct (page_body messages_list user_id total_count st w) as [r w1].
      cbn [fst snd] in Hstep |- *. rewrite Hstep. reflexivity.
    + intros w1. apply page_body_requests.
Qed.
End PaginationTheorems.

(** C1 as worded fails on an empty page: the loop stops although the page
    names a next page and nothing has been accumulated against an estimate
    of 50. *)
Lemma C1_empty_page_counterexample :
  fst (page_body Sample.empty_page_list "me" 50 (mkPageState [] None 0)
                 (fresh 0%nat))
  = Ok (Break [])
  /\ ~ Spec.pagination_stops (mkListResponse (Some 50) (Some []) (Some "p2")) 0 50.
Proof.
  split; [reflexivity |].
  unfold Spec.pagination_stops. cbn. intros [H | H]; [discriminate | lia].
Qed.

(** The safety check is [>=] on a rounded product: 22 identifiers against an
    estimate of 20 stop the loop although they exceed it by no more than 10%,
    and 110 against 100 do not, the product being just above 110. *)
Lemma reached_expected_examples :
  reached_expected 22 20 = inr true
  /\ reached_expected 110 100 = inr false
  /\ reached_expected 111 100 = inr true
  /\ reached_expected 1 0 = inr true.
Proof. repeat split; reflexivity. Qed.

(** * Properties of the exporter *)

Lemma csv_rows_length : forall categories : list (string * list Email),
  List.length (flat_map (fun item => map (csv_row (fst item)) (snd item)) categories)
  = List.length (flat_map snd categories).
Proof.
  induction categories as [| item categories IH]; cbn; [reflexivity |].
  rewrite !length_app, length_map. f_equal. exact IH.
Qed.

Section ExporterTheorems.
Variable FS : Type.
Variable fs_open : FS -> string -> option exn * FS.
Variable fs_writerow : FS -> list string -> option exn * FS.
Variable fs_close : FS -> option exn * FS.

Lemma call_fs_Ok : forall ev op (w : world FS) u w',
  call_fs FS ev op w = (Ok u, w') -> trace w' = (trace w ++ [ev])%list.
Proof.
  intros ev op w u w' H. unfold call_fs, bind, emit in H. cbn [env console trace] in H.
  destruct (op (env w)) as [[e |] fs]; cbn in H; [discriminate |].
  injection H as _ <-. reflexivity.
Qed.

Lemma for_each_writerow : forall (A : Type) (f : A -> list string) l w u w',
  for_each FS l (fun x => writerow FS fs_writerow (f x)) w = (Ok u, w') ->
  trace w' = (trace w ++ map EvWriteRow (map f l))%list.
Proof.
  intros A f. induction l as [| x l IH]; intros w u w' H; cbn in H.
  - injection H as _ <-. cbn. symmetry. apply app_nil_r.
  - apply bind_Ok in H. destruct H as [u1 [w1 [Hrow H]]].
    apply call_fs_Ok in Hrow. apply IH in H. rewrite H, Hrow.
    rewrite <- app_assoc. reflexivity.
Qed.

Lemma for_each_categories : forall (categories : list (string * list Email)) w u w',
  for_each FS categories (fun item =>
    for_each FS (snd item) (fun email =>
      writerow FS fs_writerow (csv_row (fst item) email))) w = (Ok u, w') ->
  trace w'
  = (trace w
       ++ map EvWriteRow
            (flat_map (fun item => map (csv_row (fst item)) (snd item)) categories))%list.
Proof.
  induction categories as [| item categories IH]; intros w u w' H; cbn in H.
  - injection H as _ <-. cbn. symmetry. apply app_nil_r.
  - apply bind_Ok in H. destruct H as [u1 [w1 [Hitem H]]].
    apply for_each_writerow in Hitem. apply IH in H. rewrite H, Hitem.
    cbn [flat_map]. rewrite map_app, <- app_assoc. reflexivity.
Qed.

Lemma call_fs_Ok_env : forall ev op (w : world FS) u w',
  call_fs FS ev op w = (Ok u, w') -> op (env w) = (None, env w').
Proof.
  intros ev op w u w' H. unfold call_fs, bind, emit in H. cbn [env console trace] in H.
  destruct (op (env w)) as [[e |] fs]; cbn in H; [discriminate |].
  injection H as _ <-. reflexivity.
Qed.

Section DestinationFile.
(** The text of the destination file, and the text that the csv writer
    writes for one record. *)
Variable file_text : FS -> string.
Variable csv_record : list string -> string.
(** Opening for writing empties the file; [writer.writerow] appends the
    text of the record; closing changes nothing. *)
Hypothesis open_truncates : forall fs filename fs',
  fs_open fs filename = (None, fs') -> file_text fs' = "".
Hypothesis writerow_appends : forall fs row fs',
  fs_writerow fs row = (None, fs') ->
  file_text fs' = file_text fs ++ csv_record row.
Hypothesis close_keeps : forall fs fs',
  fs_close fs = (None, fs') -> file_text fs' = file_text fs.
(** A record without line break in its fields is written as one line. *)
Hypothesis one_line_per_record : forall row,
  forallb no_line_break row = true -> line_count (csv_record row) = 1%nat.

Lemma text_of_app : forall l1 l2, text_of (l1 ++ l2) = text_of l1 ++ text_of l2.
Proof.
  induction l1 as [| x l1 IH]; intros l2; cbn; [reflexivity |].
  rewrite IH. clear. induction x as [| c x IH]; cbn; [reflexivity |].
  rewrite IH. reflexivity.
Qed.

Lemma append_assoc : forall s1 s2 s3 : string, (s1 ++ s2) ++ s3 = s1 ++ s2 ++ s3.
Proof.
  induction s1 as [| c s1 IH]; intros s2 s3; cbn; [reflexivity |].
  rewrite IH. reflexivity.
Qed.

Lemma append_nil_r : forall s : string, s ++ "" = s.
Proof. induction s as [| c s IH]; cbn; [| rewrite IH]; reflexivity. Qed.

Lemma line_count_app : forall s1 s2,
  line_count (s1 ++ s2) = (line_count s1 + line_count s2)%nat.
Proof.
  induction s1 as [| c s1 IH]; intros s2; cbn; [reflexivity |].
  rewrite IH. lia.
Qed.

Lemma line_count_records : forall rows,
  forallb (forallb no_line_break) rows = true ->
  line_count (text_of (map csv_record rows)) = List.length rows.
Proof.
  induction rows as [| row rows IH]; intros H; [reflexivity |].
  cbn [forallb] in H. apply andb_true_iff in H. destruct H as [Hrow Hrows].
  change (text_of (map csv_record (row :: rows)))
    with (csv_record row ++ text_of (map csv_record rows)).
  rewrite line_count_app, (one_line_per_record row Hrow), (IH Hrows). reflexivity.
Qed.

Lemma for_each_writerow_text : forall (A : Type) (f : A -> list string) l w u w',
  for_each FS l (fun x => writerow FS fs_writerow (f x)) w = (Ok u, w') ->
  file_text (env w') = file_text (env w) ++ text_of (map csv_record (map f l)).
Proof.
  intros A f. induction l as [| x l IH]; intros w u w' H; cbn in H.
  - injection H as _ <-. cbn. symmetry. apply append_nil_r.
  - apply bind_Ok in H. destruct H as [u1 [w1 [Hrow H]]].
    apply call_fs_Ok_env in Hrow. apply writerow_appends in Hrow.
    apply IH in H. rewrite H, Hrow.
    change (text_of (map csv_record (map f (x :: l))))
      with (csv_record (f x) ++ text_of (map csv_record (map f l))).
    apply append_assoc.
Qed.

Lemma for_each_categories_text :
  forall (categories : list (string * list Email)) w u w',
    for_each FS categories (fun item =>
      for_each FS (snd item) (fun email =>
        writerow FS fs_writerow (csv_row (fst item) email))) w = (Ok u, w') ->
    file_text (env w')
    = file_text (env w)
        ++ text_of (map csv_record
                      (flat_map (fun item => map (csv_row (fst item)) (snd item))
                                categories)).
Proof.
  induction categories as [| item categories IH]; intros w u w' H; cbn in H.
  - injection H as _ <-. cbn. symmetry. apply append_nil_r.
  - apply bind_Ok in H. destruct H as [u1 [w1 [Hitem H]]].
    apply for_each_writerow_text in Hitem. apply IH in H. rewrite H, Hitem.
    cbn [flat_map]. rewrite map_app, text_of_app. apply append_assoc.
Qed.

(** C7 (as amended): a successful export of N records leaves in the
    destination file the text of N+1 records and nothing else: the header
    record [Category,From,Subject,Date,Has Body] and then one record per
    email, in the order of the grouping.  They were handed to the writer in
    that order between the opening and the closing of the file.  A record
    without sender, subject or date gets "Unknown", "No subject" and
    "Unknown" in that column.  The file has exactly N+1 lines when no field
    holds a line break. *)
Theorem C7_export_writes_header_and_rows :
  forall (categories : list (string * list Email)) filename w w',
    save_categories_to_file fs_open fs_writerow fs_close categories filename w
    = (Ok true, w') ->
    let records :=
      ["Category"; "From"; "Subject"; "Date"; "Has Body"]
        :: flat_map (fun item => map (csv_row (fst item)) (snd item)) categories in
    file_text (env w') = text_of (map csv_record records)
    /\ trace w' = (trace w ++ EvOpen filename :: map EvWriteRow records ++ [EvClose])%list
    /\ List.length records = S (List.length (flat_map snd categories))
    /\ (forallb (forallb no_line_break) records = true ->
        line_count (file_text (env w')) = S (List.length (flat_map snd categories)))
    /\ forall category email,
         nth_error (csv_row category email) 0 = Some category
         /\ (email_from email = None ->
             nth_error (csv_row category email) 1 = Some "Unknown")
         /\ (email_subject email = None ->
             nth_error (csv_row category email) 2 = Some "No subject")
         /\ (email_date email = None ->
             nth_error (csv_row category email) 3 = Some "Unknown").
Proof.
  intros categories filename w w' H records.
  assert (Hlen : List.length records = S (List.length (flat_map snd categories))).
  { unfold records. cbn [List.length]. f_equal. apply csv_rows_length. }
  assert (Hrun : file_text (env w') = text_of (map csv_record records)
                 /\ trace w' = (trace w ++ EvOpen filename
                                  :: map EvWriteRow records ++ [EvClose])%list).
  { unfold save_categories_to_file, try_except in H.
    match type of H with
    | match ?body w with _ => _ end = _ => destruct (body w) as [[b | e |] w1] eqn:Hbody
    end; [| cbn in H; discriminate | discriminate].
    injection H as -> ->.
    apply bind_Ok in Hbody. destruct Hbody as [u [w2 [Hwith Hprint]]].
    cbn in Hprint. injection Hprint as <-. cbn [trace env].
    unfold with_open in Hwith.
    apply bind_Ok in Hwith. destruct Hwith as [u1 [w3 [Hopen Hwith]]].
    pose proof Hopen as Hopened. apply call_fs_Ok_env in Hopened.
    apply open_truncates in Hopened. apply call_fs_Ok in Hopen.
    match type of Hwith with
    | match ?body w3 with _ => _ end = _ => destruct (body w3) as [[u2 | e |] w4] eqn:Hrows
    end.
    - apply bind_Ok in Hwith. destruct Hwith as [u3 [w5 [Hclose Hret]]].
      pose proof Hclose as Hclosed. apply call_fs_Ok_env in Hclosed.
      apply close_keeps in Hclosed. apply call_fs_Ok in Hclose.
      injection Hret as _ <-.
      apply bind_Ok in Hrows. destruct Hrows as [u4 [w6 [Hheader Hrows]]].
      pose proof Hheader as Hwritten. apply call_fs_Ok_env in Hwritten.
      apply writerow_appends in Hwritten. apply call_fs_Ok in Hheader.
      pose proof (for_each_categories_text _ _ _ _ Hrows) as Htext.
      apply for_each_categories in Hrows. split.
      + rewrite Hclosed, Htext, Hwritten, Hopened. reflexivity.
      + rewrite Hclose, Hrows, Hheader, Hopen.
        rewrite <- !app_assoc. reflexivity.
    - destruct (close_file FS fs_close w4) as [[u3 | e' |] w5]; discriminate.
    - discriminate. }
  destruct Hrun as [Htext Htrace].
  split; [exact Htext |]. split; [exact Htrace |]. split; [exact Hlen |]. split.
  - intros Hfields. rewrite Htext, (line_count_records records Hfields). exact Hlen.
  - intros category email. repeat split; intros Hnone; cbn; rewrite ?Hnone; reflexivity.
Qed.
End DestinationFile.
End ExporterTheorems.

(** * The statements on sample runs *)

Lemma py_getitem_nil : forall (A : Type) (i : Z), py_getitem (@nil A) i = None.
Proof.
  intros A i. unfold py_getitem. cbn [List.length Z.of_nat Z.opp].
  destruct (0 <=? i) eqn:Hi; [| reflexivity].
  destruct (Z.to_nat i); reflexivity.
Qed.

(** With a requested count of zero or less on at least one record, the list
    of categories is empty and the run ends in the fallback, whatever the
    vectorizer and the clustering do. *)
Lemma nonpositive_count_falls_back {numpy : Numpy} :
  forall (Matrix RNG : Type)
         (fit_transform : TfidfVectorizer -> list string -> exn + (Matrix * list string))
         (fit : KMeans -> RNG -> Matrix -> (exn + KMeansFitted) * RNG)
         email emails k w,
    k <= 0 ->
    fst (suggest_categories fit_transform fit (email :: emails) k w)
    = Ok (map (set_category "Uncategorized") (email :: emails))
    /\ effective_clusters (documents_of (email :: emails)) k = k.
Proof.
  intros Matrix RNG fit_transform fit email emails k w Hk.
  assert (Heff : effective_clusters (documents_of (email :: emails)) k = k).
  { unfold effective_clusters.
    destruct (Z.of_nat (List.length (documents_of (email :: emails))) <? k) eqn:Hlt;
      [| reflexivity].
    apply Z.ltb_lt in Hlt. lia. }
  split; [| exact Heff].
  rewrite suggest_categories_run. cbv zeta. rewrite cluster_labels_run, Heff.
  destruct (fit_transform vectorizer (documents_of (email :: emails)))
    as [e | [X names]]; [reflexivity |].
  cbv zeta.
  destruct (fit (mkKMeans k (Some 42)) (env w) X) as [[e | fitted] g]; [reflexivity |].
  replace (Z.to_nat k) with 0%nat by lia. cbn [build_categories assign_categories].
  destruct (nth_error (labels_ fitted) 0) as [c |]; [| reflexivity].
  rewrite py_getitem_nil. reflexivity.
Qed.

(** C2 as worded fails for a requested count of 0: the fallback leaves one
    label, "Uncategorized", against an effective count of 0. *)
Lemma C2_zero_clusters_counterexample :
  fst (suggest_categories (numpy := Sample.numpy) Sample.fit_transform Sample.fit
         [Sample.mail "Invoice due"] 0 (fresh 0))
  = Ok [set_category "Uncategorized" (Sample.mail "Invoice due")]
  /\ distinct_labels [set_category "Uncategorized" (Sample.mail "Invoice due")]
     = 1%nat
  /\ effective_clusters (documents_of [Sample.mail "Invoice due"]) 0 = 0
  /\ ~ (Z.of_nat (distinct_labels
                    [set_category "Uncategorized" (Sample.mail "Invoice due")])
        <= effective_clusters (documents_of [Sample.mail "Invoice due"]) 0).
Proof.
  split; [reflexivity |]. split; [reflexivity |]. split; [reflexivity |].
  vm_compute. intros H. apply H. reflexivity.
Qed.

Lemma C2_every_record_labelled_witness :
  1 <= 2
  /\ exists out w',
      suggest_categories (numpy := Sample.numpy) Sample.fit_transform Sample.fit
        [Sample.mail "Invoice due"; Sample.mail "Invoice reminder";
         Sample.mail "Team meeting"] 2 (fresh 0)
      = (Ok out, w')
      /\ Forall labelled out
      /\ Z.of_nat (distinct_labels out) <= 2.
Proof.
  split; [lia |].
  destruct (C2_every_record_labelled (numpy := Sample.numpy) (list string) Z Sample.fit_transform Sample.fit
              (Sample.mail "Invoice due")
              [Sample.mail "Invoice reminder"; Sample.mail "Team meeting"]
              2 (fresh 0)) as [out [w' [Hrun [_ [Hlab Hdistinct]]]]].
  exists out, w'. split; [exact Hrun |]. split; [exact Hlab |].
  apply Hdistinct. lia.
Defined.

Lemma C3_fallback_is_global_witness :
  Sample.fit_transform vectorizer (documents_of [Sample.mail ""; Sample.mail ""])
  = inl (LibraryError "empty vocabulary; perhaps the documents only contain stop words")
  /\ exists out w',
      suggest_categories (numpy := Sample.numpy) Sample.fit_transform Sample.fit
        [Sample.mail ""; Sample.mail ""] 5 (fresh 0)
      = (Ok out, w')
      /\ Forall (fun email' => email_category email' = Some "Uncategorized") out
      /\ Forall2 same_message [Sample.mail ""; Sample.mail ""] out
      /\ exceptions (events_since (fresh 0) w')
         = [LibraryError "empty vocabulary; perhaps the documents only contain stop words"]
      /\ lines_since (fresh 0) w'
         = ["Error in categorization: empty vocabulary; perhaps the documents only contain stop words"].
Proof.
  split; [reflexivity |].
  apply (C3_fallback_is_global (numpy := Sample.numpy) (list string) Z
           Sample.fit_transform Sample.fit
           (Sample.mail "") [Sample.mail ""] 5 (fresh 0)
           (LibraryError "empty vocabulary; perhaps the documents only contain stop words")).
  left. reflexivity.
Defined.

Lemma C4_effective_cluster_count_witness :
  effective_clusters
    (documents_of [Sample.mail "Invoice due"; Sample.mail "Invoice reminder";
                   Sample.mail "Team meeting"]) 5 = Z.max 2 (3 / 2)
  /\ In (EvKMeansFit 2 (Some 42))
        (trace (snd (suggest_categories (numpy := Sample.numpy) Sample.fit_transform Sample.fit
                       [Sample.mail "Invoice due"; Sample.mail "Invoice reminder";
                        Sample.mail "Team meeting"] 5 (fresh 0)))).
Proof.
  destruct (C4_effective_cluster_count (numpy := Sample.numpy) (list string) Z Sample.fit_transform Sample.fit
              (Sample.mail "Invoice due")
              [Sample.mail "Invoice reminder"; Sample.mail "Team meeting"]
              5 (fresh 0)) as [Heff [tr [Htr [_ Hin]]]].
  split; [exact Heff |].
  rewrite Htr. apply in_or_app. right. apply Hin.
  eexists. eexists. reflexivity.
Defined.

Lemma C8_categorization_reproducible_witness :
  (forall kmeans g1 g2 X,
      random_state kmeans <> None ->
      fst (Sample.fit kmeans g1 X) = fst (Sample.fit kmeans g2 X))
  /\ fst (suggest_categories (numpy := Sample.numpy) Sample.fit_transform Sample.fit
            [Sample.mail "Invoice due"; Sample.mail "Team meeting"] 2 (fresh 0))
     = fst (suggest_categories (numpy := Sample.numpy) Sample.fit_transform Sample.fit
              [Sample.mail "Invoice due"; Sample.mail "Team meeting"] 2
              (mkWorld 7 ["an earlier line"] [])).
Proof.
  assert (Hseeded : forall kmeans g1 g2 X,
             random_state kmeans <> None ->
             fst (Sample.fit kmeans g1 X) = fst (Sample.fit kmeans g2 X)).
  { intros kmeans g1 g2 X Hseed. unfold Sample.fit.
    destruct (random_state kmeans) as [seed |]; [| congruence].
    destruct ((n_clusters kmeans <=? 0)
              || (Z.of_nat (List.length X) <? n_clusters kmeans)); reflexivity. }
  split; [exact Hseeded |].
  apply (C8_categorization_reproducible (numpy := Sample.numpy) (list string) Z Sample.fit_transform
           Sample.fit Hseeded).
Defined.

(** C9 as worded fails on a preview of white space only: the preview is not
    empty, the flag is false. *)
Lemma C9_blank_snippet_counterexample :
  hydrate (mkMessage (Some "m1") (Some "t1") (Some (mkPayload (Some []))) (Some " "))
  = inr (mkEmail "m1" "t1" None None None (Some false) "" None)
  /\ Spec.has_content
       (mkMessage (Some "m1") (Some "t1") (Some (mkPayload (Some []))) (Some " "))
     = true.
Proof. split; reflexivity. Qed.

Lemma C1_pagination_stopping_rule_witness :
  Sample.messages_list 0%nat "me" unread_query None 100
  = (inr (mkListResponse (Some 3)
            (Some [mkMessageRef (Some "m1") (Some "t1");
                   mkMessageRef (Some "m2") (Some "t2")])
            (Some "p2")), 1%nat)
  /\ fst (page_body Sample.messages_list "me" 3 (mkPageState [] None 0)
                    (fresh 0%nat))
     = Ok (Continue (mkPageState [mkMessageRef (Some "m1") (Some "t1");
                                  mkMessageRef (Some "m2") (Some "t2")]
                                 (Some "p2") 1)).
Proof.
  split; [reflexivity |].
  apply (C1_pagination_stopping_rule nat Sample.messages_list "me" 3
           (mkPageState [] None 0) (fresh 0%nat)
           (mkListResponse (Some 3)
              (Some [mkMessageRef (Some "m1") (Some "t1");
                     mkMessageRef (Some "m2") (Some "t2")])
              (Some "p2"))
           1%nat eq_refl).
  - unfold page_stops. vm_compute. intros [H | [H | H]]; discriminate.
  - vm_compute. reflexivity.
Defined.


(** The sample file system and the sample csv writer keep the contract of
    the destination file. *)
Lemma no_line_break_count : forall s, no_line_break s = true -> line_count s = 0%nat.
Proof.
  induction s as [| c s IH]; intros H; [reflexivity |].
  cbn [no_line_break] in H. apply andb_true_iff in H. destruct H as [Hc Hs].
  unfold is_line_break in Hc. apply negb_true_iff, orb_false_iff in Hc.
  destruct Hc as [Hc _]. cbn [line_count]. rewrite Hc, (IH Hs). reflexivity.
Qed.

Lemma double_quotes_count : forall s,
  line_count (Sample.double_quotes s) = line_count s.
Proof.
  induction s as [| c s IH]; [reflexivity |]. cbn [Sample.double_quotes].
  destruct (nat_of_ascii c =? 34)%nat eqn:Hc; cbn [line_count]; rewrite IH;
    [| reflexivity].
  apply Nat.eqb_eq in Hc. rewrite Hc. reflexivity.
Qed.

Lemma csv_field_count : forall s,
  no_line_break s = true -> line_count (Sample.csv_field s) = 0%nat.
Proof.
  intros s H. unfold Sample.csv_field.
  destruct (Sample.has_special s); [| apply no_line_break_count; exact H].
  rewrite !line_count_app, double_quotes_count, (no_line_break_count s H).
  reflexivity.
Qed.

Lemma sample_one_line_per_record : forall row,
  forallb no_line_break row = true -> line_count (Sample.csv_record row) = 1%nat.
Proof.
  intros row H. unfold Sample.csv_record. rewrite line_count_app.
  assert (Hjoin : line_count (join "," (map Sample.csv_field row)) = 0%nat).
  { unfold join. induction row as [| field row IH]; [reflexivity |].
    cbn [forallb] in H. apply andb_true_iff in H. destruct H as [Hfield Hrow].
    specialize (IH Hrow). cbn [map String.concat].
    destruct row as [| field' row]; [apply csv_field_count; exact Hfield |].
    cbn [map] in IH |- *. rewrite !line_count_app, IH, (csv_field_count field Hfield).
    reflexivity. }
  rewrite Hjoin. reflexivity.
Qed.

Lemma sample_writerow_appends : forall rows row rows',
  Sample.fs_writerow rows row = (None, rows') ->
  Sample.file_text rows' = Sample.file_text rows ++ Sample.csv_record row.
Proof.
  intros rows row rows' H. injection H as <-. unfold Sample.file_text.
  rewrite map_app, text_of_app. cbn. rewrite append_nil_r. reflexivity.
Qed.

Lemma C7_export_writes_header_and_rows_witness :
  fst (save_categories_to_file Sample.fs_open Sample.fs_writerow Sample.fs_close
         [("Category 1: invoice", [Sample.mail "Invoice due"; Sample.mail "Invoice reminder"]);
          ("Uncategorized", [mkEmail "m9" "t9" None None None None "" None])]
         "email_categories.csv" (fresh [["a line of an older export"]]))
  = Ok true
  /\ Sample.file_text
       (env (snd (save_categories_to_file Sample.fs_open Sample.fs_writerow
                    Sample.fs_close
                    [("Category 1: invoice",
                      [Sample.mail "Invoice due"; Sample.mail "Invoice reminder"]);
                     ("Uncategorized", [mkEmail "m9" "t9" None None None None "" None])]
                    "email_categories.csv" (fresh [["a line of an older export"]]))))
     = text_of
         (map Sample.csv_record
              [["Category"; "From"; "Subject"; "Date"; "Has Body"];
               ["Category 1: invoice"; "a@example.org"; "Invoice due";
                "Unknown"; "True"];
               ["Category 1: invoice"; "a@example.org"; "Invoice reminder";
                "Unknown"; "True"];
               ["Uncategorized"; "Unknown"; "No subject"; "Unknown"; "False"]])
  /\ line_count
       (Sample.file_text
          (env (snd (save_categories_to_file Sample.fs_open Sample.fs_writerow
                       Sample.fs_close
                       [("Category 1: invoice",
                         [Sample.mail "Invoice due"; Sample.mail "Invoice reminder"]);
                        ("Uncategorized", [mkEmail "m9" "t9" None None None None "" None])]
                       "email_categories.csv" (fresh [["a line of an older export"]])))))
     = 4%nat.
Proof.
  split; [vm_compute; reflexivity |].
  destruct (C7_export_writes_header_and_rows (list (list string))
              Sample.fs_open Sample.fs_writerow Sample.fs_close
              Sample.file_text Sample.csv_record
              (fun fs filename fs' H =>
                 f_equal Sample.file_text (eq_sym (f_equal snd H)))
              sample_writerow_appends
              (fun fs fs' H => f_equal Sample.file_text (eq_sym (f_equal snd H)))
              sample_one_line_per_record
              [("Category 1: invoice",
                [Sample.mail "Invoice due"; Sample.mail "Invoice reminder"]);
               ("Uncategorized", [mkEmail "m9" "t9" None None None None "" None])]
              "email_categories.csv" (fresh [["a line of an older export"]])
              (snd (save_categories_to_file Sample.fs_open Sample.fs_writerow
                      Sample.fs_close
                      [("Category 1: invoice",
                        [Sample.mail "Invoice due"; Sample.mail "Invoice reminder"]);
                       ("Uncategorized", [mkEmail "m9" "t9" None None None None "" None])]
                      "email_categories.csv" (fresh [["a line of an older export"]]))))
    as [Htext [_ [_ [Hlines _]]]].
  - vm_compute. reflexivity.
  - split; [exact Htext |]. apply Hlines. vm_compute. reflexivity.
Defined.

(** C7 as worded fails on a field with a line break: the export of one
    record whose subject has two lines succeeds and leaves three lines in
    the file, not two.  The csv writer writes such a field between double
    quotes, line break included. *)
Lemma C7_line_break_counterexample :
  fst (save_categories_to_file Sample.fs_open Sample.fs_writerow Sample.fs_close
         [("Uncategorized",
           [mkEmail "m1" "t1" None (Some ("Invoice" ++ nl ++ "due")) None None ""
                    (Some "Uncategorized")])]
         "email_categories.csv" (fresh []))
  = Ok true
  /\ env (snd (save_categories_to_file Sample.fs_open Sample.fs_writerow
                 Sample.fs_close
                 [("Uncategorized",
                   [mkEmail "m1" "t1" None (Some ("Invoice" ++ nl ++ "due")) None None
                            "" (Some "Uncategorized")])]
                 "email_categories.csv" (fresh [])))
     = [["Category"; "From"; "Subject"; "Date"; "Has Body"];
        ["Uncategorized"; "Unknown"; "Invoice" ++ nl ++ "due"; "Unknown"; "False"]]
  /\ Sample.csv_record
       ["Uncategorized"; "Unknown"; "Invoice" ++ nl ++ "due"; "Unknown"; "False"]
     = "Uncategorized,Unknown," ++ Sample.quote ++ "Invoice" ++ nl ++ "due"
         ++ Sample.quote ++ ",Unknown,False" ++ Sample.crlf
  /\ line_count
       (Sample.file_text
          [["Category"; "From"; "Subject"; "Date"; "Has Body"];
           ["Uncategorized"; "Unknown"; "Invoice" ++ nl ++ "due"; "Unknown"; "False"]])
     = 3%nat.
Proof. repeat split; vm_compute; reflexivity. Qed.

(** * The fetch comes to an end

    The loops of the embedding run on fuel.  The pagination loop needs no
    more passes than the safety check allows identifiers, because every pass
    that goes on has added at least one; the other loops follow a list. *)

Lemma int_ge_float_bound : forall f bound n,
  float_upper_bound f = Some bound -> bound <= n -> int_ge_float n f = true.
Proof.
  intros f bound n Hf Hn.
  destruct f as [s | [|] | | s m e]; cbn [float_upper_bound] in Hf;
    try discriminate; injection Hf as <-; cbn [int_ge_float].
  - apply Z.leb_le. exact Hn.
  - reflexivity.
  - assert (Hv : cond_Zopp s (Zpos m) <= Zpos m) by (destruct s; cbn; lia).
    destruct (0 <=? e) eqn:He.
    + apply Z.leb_le in He. apply Z.leb_le.
      change (Zpos m * 2 ^ e <= n) in Hn.
      pose proof (Z.pow_nonneg 2 e ltac:(lia)) as Hpow.
      assert (Hscale : cond_Zopp s (Zpos m) * 2 ^ e <= Zpos m * 2 ^ e)
        by (apply Z.mul_le_mono_nonneg_r; assumption).
      lia.
    + apply Z.leb_gt in He. apply Z.leb_le.
      change (Zpos m / 2 ^ (- e) + 1 <= n) in Hn.
      pose proof (Z.pow_pos_nonneg 2 (- e) ltac:(lia) ltac:(lia)) as Hpow.
      pose proof (Z.mul_succ_div_gt (Zpos m) (2 ^ (- e)) Hpow) as Hdiv.
      assert (Hscale : Z.succ (Zpos m / 2 ^ (- e)) * 2 ^ (- e) <= n * 2 ^ (- e))
        by (apply Z.mul_le_mono_nonneg_r; lia).
      lia.
Qed.

Lemma stops_by_bound : forall total_count limit bound,
  int_mul_float total_count float_1_1 = inr limit ->
  float_upper_bound limit = Some bound ->
  stops_by total_count bound.
Proof.
  intros total_count limit bound Hlimit Hbound count Hcount.
  unfold reached_expected. rewrite Hlimit. cbn.
  rewrite (int_ge_float_bound limit bound count Hbound Hcount). discriminate.
Qed.

Section Finishing.
Context {E : Type}.

Lemma finishes_ret : forall (A : Type) (a : A), finishes (ret a : M E A).
Proof. intros A a w. discriminate. Qed.

Lemma finishes_print : forall line, finishes (print line : M E unit).
Proof. intros line w. discriminate. Qed.

Lemma finishes_emit : forall ev, finishes (emit ev : M E unit).
Proof. intros ev w. discriminate. Qed.

Lemma finishes_lift : forall (A : Type) (r : exn + A), finishes (lift r : M E A).
Proof. intros A [e | a] w; discriminate. Qed.

Lemma finishes_ask : forall (A : Type) (op : E -> (exn + A) * E),
  finishes (fun w => let (r, s) := op (env w) in
                     lift r (mkWorld s (console w) (trace w))).
Proof.
  intros A op w. destruct (op (env w)) as [[e | a] s]; discriminate.
Qed.

Lemma finishes_bind : forall (A B : Type) (c : M E A) (k : A -> M E B),
  finishes c -> (forall a, finishes (k a)) -> finishes (bind c k).
Proof.
  intros A B c k Hc Hk w. unfold bind. specialize (Hc w).
  destruct (c w) as [[a | e |] w1]; cbn in *; [apply Hk | discriminate | congruence].
Qed.

Lemma finishes_when : forall (cond : bool) (then_ : M E unit),
  finishes then_ -> finishes (when cond then_).
Proof. intros [|] then_ H; [exact H | apply finishes_ret]. Qed.

Lemma finishes_try_except : forall (A : Type) (body : M E A) handler,
  finishes body -> (forall e, finishes (handler e)) ->
  finishes (try_except body handler).
Proof.
  intros A body handler Hb Hh w. unfold try_except. specialize (Hb w).
  destruct (body w) as [[a | e |] w1]; cbn in *; [discriminate | apply Hh | congruence].
Qed.
End Finishing.

Section FetchFinishes.
Variable Service : Type.
Variable messages_list :
  Service -> string -> string -> option string -> Z ->
  (exn + ListResponse) * Service.
Variable messages_get :
  Service -> string -> string -> string -> list string ->
  (exn + Message) * Service.

Lemma finishes_call_list : forall user_id q pageToken maxResults,
  finishes (call_list messages_list user_id q pageToken maxResults).
Proof.
  intros. unfold call_list. apply finishes_bind; [apply finishes_emit |].
  intros _. apply (finishes_ask _ (fun s => messages_list s user_id q pageToken maxResults)).
Qed.

Lemma finishes_page_body : forall user_id total_count st,
  finishes (page_body messages_list user_id total_count st).
Proof.
  intros. unfold page_body.
  apply finishes_bind; [apply finishes_print |]. intros _.
  apply finishes_bind; [apply finishes_call_list |]. intros response.
  destruct (negb (list_truthy (dict_get (messages response) [])));
    [apply finishes_ret |].
  apply finishes_bind; [apply finishes_print |]. intros _.
  destruct (negb (token_truthy (nextPageToken response))); [apply finishes_ret |].
  apply finishes_bind; [apply finishes_lift |]. intros [|].
  - apply finishes_bind; [apply finishes_print | intros _; apply finishes_ret].
  - apply finishes_ret.
Qed.

(** A pass that goes on has added an identifier and has seen the safety
    check fail. *)
Lemma page_body_continue : forall user_id total_count st w st',
  fst (page_body messages_list user_id total_count st w) = Ok (Continue st') ->
  (List.length (all_messages st) < List.length (all_messages st'))%nat
  /\ reached_expected (Z.of_nat (List.length (all_messages st'))) total_count
     = inr false.
Proof.
  intros user_id total_count st w st' H.
  destruct (messages_list (env w) user_id unread_query (next_page_token st) 100)
    as [[e | response] s] eqn:Hanswer.
  - unfold page_body, call_list, bind, print, emit in H.
    cbn [env console trace] in H. rewrite Hanswer in H. discriminate.
  - rewrite (page_body_run Service messages_list user_id total_count st w
               response s Hanswer) in H.
    destruct (dict_get (messages response) []) as [| m page]; [discriminate |].
    cbn [list_truthy negb] in H.
    destruct (negb (token_truthy (nextPageToken response))); [discriminate |].
    destruct (reached_expected _ total_count) as [e | [|]] eqn:Hreached;
      try discriminate.
    injection H as <-. cbn [all_messages]. split; [| exact Hreached].
    rewrite length_app. cbn. lia.
Qed.

Lemma pagination_finishes : forall user_id total_count bound,
  stops_by total_count bound ->
  forall fuel st,
    (Z.to_nat (bound - Z.of_nat (List.length (all_messages st))) < fuel)%nat ->
    finishes (while_true fuel (page_body messages_list user_id total_count) st).
Proof.
  intros user_id total_count bound Hstop.
  induction fuel as [| fuel IH]; intros st Hfuel w; [lia |].
  cbn [while_true]. unfold bind.
  pose proof (finishes_page_body user_id total_count st w) as Hpass.
  pose proof (page_body_continue user_id total_count st w) as Hcont.
  destruct (page_body messages_list user_id total_count st w) as [[[st' | r] | e |] w1];
    cbn [fst] in *; [| discriminate | discriminate | congruence].
  destruct (Hcont st' eq_refl) as [Hlen Hreached].
  apply IH.
  assert (Z.of_nat (List.length (all_messages st')) < bound).
  { destruct (Z_lt_le_dec (Z.of_nat (List.length (all_messages st'))) bound)
      as [Hlt | Hge]; [exact Hlt |].
    destruct (Hstop _ Hge Hreached). }
  lia.
Qed.

Lemma finishes_hydrate_loop : forall user_id batch_size total_messages refs i emails,
  finishes (hydrate_loop messages_get user_id batch_size total_messages i refs emails).
Proof.
  intros user_id batch_size total_messages.
  induction refs as [| message refs IH]; intros i emails; cbn.
  - apply finishes_ret.
  - apply finishes_bind; [apply finishes_when, finishes_print |]. intros _.
    apply finishes_bind; [apply finishes_lift |]. intros message_id.
    apply finishes_bind.
    { unfold call_get. apply finishes_bind; [apply finishes_emit |]. intros _.
      apply (finishes_ask _ (fun s => messages_get s user_id message_id "metadata"
                                                   ["From"; "Subject"; "Date"])). }
    intros msg.
    apply finishes_bind; [apply finishes_lift |]. intros email_data.
    apply finishes_bind; [apply finishes_lift |]. intros pause.
    apply finishes_bind; [| intros _; apply IH].
    apply finishes_when. apply finishes_bind; [apply finishes_print |].
    intros _. apply finishes_emit.
Qed.

(** X9.  With fuel beyond the bound that the provider's estimate sets, the fetch
    returns. *)
Lemma fetch_returns : forall user_id batch_size w bound,
  (forall total_count,
      fst (get_unread_email_count Service messages_list user_id w) = Ok total_count ->
      stops_by total_count bound) ->
  exists emails,
    fst (get_all_unread_emails messages_list messages_get
           (S (Z.to_nat bound)) user_id batch_size w) = Ok emails.
Proof.
  intros user_id batch_size w bound Hbound.
  assert (Hfin : fst (fetch_body messages_list messages_get
                        (S (Z.to_nat bound)) user_id batch_size w) <> Diverge).
  { unfold fetch_body. unfold bind at 1.
    assert (Hcount : finishes (get_unread_email_count Service messages_list user_id)).
    { unfold get_unread_email_count.
      apply finishes_bind; [apply finishes_call_list | intros ?; apply finishes_ret]. }
    specialize (Hcount w).
    destruct (get_unread_email_count Service messages_list user_id w)
      as [[total_count | e |] w1]; cbn [fst] in *; [| discriminate | congruence].
    apply finishes_bind; [apply finishes_print |]. intros _.
    apply finishes_bind.
    { apply (pagination_finishes user_id total_count bound (Hbound _ eq_refl)).
      cbn [all_messages List.length]. lia. }
    intros refs. destruct (negb (list_truthy refs)).
    - apply finishes_bind; [apply finishes_print | intros _; apply finishes_ret].
    - apply finishes_bind; [apply finishes_print |]. intros _.
      apply finishes_hydrate_loop. }
  unfold get_all_unread_emails, try_except.
  destruct (fetch_body messages_list messages_get (S (Z.to_nat bound))
              user_id batch_size w) as [[emails | e |] w1]; cbn [fst] in *.
  - exists emails. reflexivity.
  - exists []. reflexivity.
  - congruence.
Qed.
End FetchFinishes.

(** For an estimate of 3 the product is just above 3.3 and four identifiers
    end the loop. *)
Lemma stops_by_example : stops_by 3 4.
Proof.
  assert (H : exists limit bound,
             int_mul_float 3 float_1_1 = inr limit
             /\ float_upper_bound limit = Some bound /\ bound <= 4).
  { eexists. eexists. split; [vm_compute; reflexivity |].
    split; [vm_compute; reflexivity |]. apply Z.leb_le. vm_compute. reflexivity. }
  destruct H as [limit [bound [H1 [H2 H3]]]].
  intros count Hcount. apply (stops_by_bound 3 limit bound H1 H2). lia.
Qed.

(** * Further properties of the program *)

(** ** The events of a run *)

Section EmitsFacts.
Context {E : Type}.
Variable P : event -> Prop.
Hypothesis P_raise : forall e, P (EvRaised e).

Lemma emits_ret : forall (A : Type) (a : A), emits P (ret a : M E A).
Proof.
  intros A a w. exists []. cbn. rewrite app_nil_r. split; [reflexivity | constructor].
Qed.

Lemma emits_print : forall line, emits P (print line : M E unit).
Proof.
  intros line w. exists []. cbn. rewrite app_nil_r. split; [reflexivity | constructor].
Qed.

Lemma emits_diverge : forall (A : Type), emits P (diverge : M E A).
Proof.
  intros A w. exists []. cbn. rewrite app_nil_r. split; [reflexivity | constructor].
Qed.

Lemma emits_emit : forall ev, P ev -> emits P (emit ev : M E unit).
Proof.
  intros ev Hev w. exists [ev]. cbn. split; [reflexivity | constructor; [exact Hev | constructor]].
Qed.

Lemma emits_throw : forall (A : Type) e, emits P (throw e : M E A).
Proof.
  intros A e w. exists [EvRaised e]. cbn.
  split; [reflexivity | constructor; [apply P_raise | constructor]].
Qed.

Lemma emits_lift : forall (A : Type) (r : exn + A), emits P (lift r : M E A).
Proof. intros A [e | a]; [apply emits_throw | apply emits_ret]. Qed.

Lemma emits_ask : forall (A : Type) (op : E -> (exn + A) * E),
  emits P (fun w => let (r, s) := op (env w) in
                    lift r (mkWorld s (console w) (trace w))).
Proof.
  intros A op w. destruct (op (env w)) as [[e | a] s]; cbn.
  - exists [EvRaised e]. split; [reflexivity | constructor; [apply P_raise | constructor]].
  - exists []. rewrite app_nil_r. split; [reflexivity | constructor].
Qed.

Lemma emits_bind : forall (A B : Type) (c : M E A) (k : A -> M E B),
  emits P c -> (forall a, emits P (k a)) -> emits P (bind c k).
Proof.
  intros A B c k Hc Hk w. unfold bind.
  destruct (Hc w) as [tr1 [Ht1 Hp1]].
  destruct (c w) as [[a | e |] w1]; cbn [fst snd] in *.
  - destruct (Hk a w1) as [tr2 [Ht2 Hp2]].
    exists (tr1 ++ tr2)%list. split.
    + rewrite Ht2, Ht1. symmetry. apply app_assoc.
    + apply Forall_app. split; assumption.
  - exists tr1. split; assumption.
  - exists tr1. split; assumption.
Qed.

Lemma emits_when : forall (cond : bool) (then_ : M E unit),
  emits P then_ -> emits P (when cond then_).
Proof. intros [|] then_ H; [exact H | apply emits_ret]. Qed.

Lemma emits_while_true : forall (S R : Type) (body : S -> M E (control S R)) fuel s,
  (forall s, emits P (body s)) -> emits P (while_true fuel body s).
Proof.
  intros S R body fuel. induction fuel as [| fuel IH]; intros s Hbody; cbn.
  - apply emits_diverge.
  - apply emits_bind; [apply Hbody |].
    intros [s' | r]; [apply IH; exact Hbody | apply emits_ret].
Qed.

Lemma emits_try_except : forall (A : Type) (body : M E A) handler,
  emits P body -> (forall e, emits P (handler e)) ->
  emits P (try_except body handler).
Proof.
  intros A body handler Hb Hh w. unfold try_except.
  destruct (Hb w) as [tr1 [Ht1 Hp1]].
  destruct (body w) as [[a | e |] w1]; cbn [fst snd] in *.
  - exists tr1. split; assumption.
  - destruct (Hh e w1) as [tr2 [Ht2 Hp2]].
    exists (tr1 ++ tr2)%list. split.
    + rewrite Ht2, Ht1. symmetry. apply app_assoc.
    + apply Forall_app. split; assumption.
  - exists tr1. split; assumption.
Qed.
End EmitsFacts.

Lemma emits_impl : forall (E A : Type) (P Q : event -> Prop) (c : M E A),
  (forall ev, P ev -> Q ev) -> emits P c -> emits Q c.
Proof.
  intros E A P Q c HPQ Hc w. destruct (Hc w) as [tr [Ht Hp]].
  exists tr. split; [exact Ht |]. eapply Forall_impl; eassumption.
Qed.

Lemma emits_zoom : forall (E1 E2 A : Type) (P : event -> Prop)
                          (get : E2 -> E1) (set : E1 -> E2 -> E2) (c : M E1 A),
  emits P c -> emits P (zoom get set c).
Proof.
  intros E1 E2 A P get set c Hc w. unfold zoom.
  destruct (Hc (mkWorld (get (env w)) (console w) (trace w))) as [tr [Ht Hp]].
  destruct (c (mkWorld (get (env w)) (console w) (trace w))) as [r w1].
  exists tr. split; [exact Ht | exact Hp].
Qed.

(** ** The fetch only reads *)

Section FetchEvents.
Variable Service : Type.
Variable messages_list :
  Service -> string -> string -> option string -> Z ->
  (exn + ListResponse) * Service.
Variable messages_get :
  Service -> string -> string -> string -> list string ->
  (exn + Message) * Service.

Lemma emits_call_list : forall (P : event -> Prop) user_id q pageToken maxResults,
  (forall e, P (EvRaised e)) ->
  P (EvListMessages q pageToken maxResults) ->
  emits P (call_list messages_list user_id q pageToken maxResults).
Proof.
  intros P user_id q pageToken maxResults Hraise Hev. unfold call_list.
  apply emits_bind; [apply emits_emit; exact Hev |]. intros _.
  apply (emits_ask P Hraise _ (fun s => messages_list s user_id q pageToken maxResults)).
Qed.

Lemma emits_call_get : forall (P : event -> Prop) user_id message_id,
  (forall e, P (EvRaised e)) ->
  P (EvGetMessage message_id) ->
  emits P (call_get Service messages_get user_id message_id).
Proof.
  intros P user_id message_id Hraise Hev. unfold call_get.
  apply emits_bind; [apply emits_emit; exact Hev |]. intros _.
  apply (emits_ask P Hraise _
           (fun s => messages_get s user_id message_id "metadata"
                                  ["From"; "Subject"; "Date"])).
Qed.

Lemma emits_page_body : forall (P : event -> Prop) user_id total_count st,
  (forall e, P (EvRaised e)) ->
  P (EvListMessages unread_query (next_page_token st) 100) ->
  emits P (page_body messages_list user_id total_count st).
Proof.
  intros P user_id total_count st Hraise Hev. unfold page_body.
  apply emits_bind; [apply emits_print |]. intros _.
  apply emits_bind; [apply emits_call_list; assumption |]. intros response.
  destruct (negb (list_truthy (dict_get (messages response) [])));
    [apply emits_ret |].
  apply emits_bind; [apply emits_print |]. intros _.
  destruct (negb (token_truthy (nextPageToken response))); [apply emits_ret |].
  apply emits_bind; [apply emits_lift; exact Hraise |]. intros [|].
  - apply emits_bind; [apply emits_print | intros _; apply emits_ret].
  - apply emits_ret.
Qed.

Lemma emits_hydrate_loop :
  forall (P : event -> Prop) user_id batch_size total_messages,
  (forall e, P (EvRaised e)) ->
  (forall message_id, P (EvGetMessage message_id)) ->
  P (EvSleep 1) ->
  forall refs i emails,
    emits P (hydrate_loop messages_get user_id batch_size total_messages
                          i refs emails).
Proof.
  intros P user_id batch_size total_messages Hraise Hget Hsleep.
  induction refs as [| message refs IH]; intros i emails; cbn.
  - apply emits_ret.
  - apply emits_bind; [apply emits_when, emits_print |]. intros _.
    apply emits_bind; [apply emits_lift; exact Hraise |]. intros message_id.
    apply emits_bind; [apply emits_call_get; auto |]. intros msg.
    apply emits_bind; [apply emits_lift; exact Hraise |]. intros email_data.
    apply emits_bind; [apply emits_lift; exact Hraise |]. intros pause.
    apply emits_bind; [| intros _; apply IH].
    apply emits_when. apply emits_bind; [apply emits_print |].
    intros _. apply emits_emit. exact Hsleep.
Qed.

Lemma emits_fetch_body : forall fuel user_id batch_size,
  emits fetch_event
        (fetch_body messages_list messages_get fuel user_id batch_size).
Proof.
  intros fuel user_id batch_size.
  assert (Hraise : forall e, fetch_event (EvRaised e)) by (intros e; exact I).
  unfold fetch_body, get_unread_email_count.
  apply emits_bind.
  { apply emits_bind; [| intros ?; apply emits_ret].
    apply emits_call_list; [exact Hraise |]. cbn. auto. }
  intros total_count.
  apply emits_bind; [apply emits_print |]. intros _.
  apply emits_bind.
  { apply emits_while_true. intros st. apply emits_page_body; [exact Hraise |].
    cbn. auto. }
  intros refs. destruct (negb (list_truthy refs)).
  - apply emits_bind; [apply emits_print | intros _; apply emits_ret].
  - apply emits_bind; [apply emits_print |]. intros _.
    apply emits_hydrate_loop; [exact Hraise | intros id; exact I | reflexivity].
Qed.

(** X1.  The fetch never writes: whatever the provider answers, it only lists
    the unread messages of the inbox outside spam (one for the estimate,
    then pages of up to 100), asks for the metadata of messages and pauses
    for one second at a time. *)
Theorem fetch_only_reads : forall fuel user_id batch_size,
  emits fetch_event
        (get_all_unread_emails messages_list messages_get fuel user_id batch_size).
Proof.
  intros fuel user_id batch_size.
  unfold get_all_unread_emails.
  apply emits_try_except;
    [| intros e; apply emits_bind; [apply emits_print | intros _; apply emits_ret]].
  apply emits_fetch_body.
Qed.
End FetchEvents.

(** ** A mailbox without estimate *)

Lemma reached_without_estimate : forall count,
  reached_expected count 0 = inr (0 <=? count).
Proof. intros count. reflexivity. Qed.

Lemma list_requests_app : forall tr1 tr2,
  list_requests (tr1 ++ tr2) = (list_requests tr1 ++ list_requests tr2)%list.
Proof. intros. apply flat_map_app. Qed.

Lemma list_requests_none : forall tr,
  Forall (fun ev => list_requests [ev] = []) tr -> list_requests tr = [].
Proof.
  intros tr H. induction H as [| ev tr Hev _ IH]; [reflexivity |].
  change (ev :: tr) with ([ev] ++ tr)%list.
  rewrite list_requests_app, Hev, IH. reflexivity.
Qed.

Section WithoutEstimate.
Variable Service : Type.
Variable messages_list :
  Service -> string -> string -> option string -> Z ->
  (exn + ListResponse) * Service.
Variable messages_get :
  Service -> string -> string -> string -> list string ->
  (exn + Message) * Service.

(** A pass asks for one page and for nothing else. *)
Lemma page_body_one_request : forall user_id total_count st w,
  exists tr,
    trace (snd (page_body messages_list user_id total_count st w))
    = (trace w ++ EvListMessages unread_query (next_page_token st) 100 :: tr)%list
    /\ list_requests tr = [].
Proof.
  intros user_id total_count st w.
  unfold page_body, call_list, bind, print, emit. cbn [env console trace].
  destruct (messages_list (env w) user_id unread_query (next_page_token st) 100)
    as [[e | response] s]; cbn [lift ret throw].
  - world_simpl. eexists. split; reflexivity.
  - destruct (negb (list_truthy (dict_get (messages response) [])));
      [world_simpl; exists []; split; reflexivity |].
    cbn [env console trace].
    destruct (negb (token_truthy (nextPageToken response)));
      [world_simpl; exists []; split; reflexivity |].
    destruct (reached_expected _ total_count) as [e | [|]];
      cbn [lift ret throw]; world_simpl; eexists; split; reflexivity.
Qed.

Lemma page_body_stops_without_estimate : forall user_id st w st',
  fst (page_body messages_list user_id 0 st w) <> Ok (Continue st').
Proof.
  intros user_id st w st' H.
  apply (page_body_continue Service messages_list) in H. destruct H as [_ H].
  rewrite reached_without_estimate in H.
  destruct (0 <=? Z.of_nat (List.length (all_messages st'))) eqn:Hle;
    [discriminate |].
  apply Z.leb_gt in Hle. lia.
Qed.

Lemma one_pass_without_estimate :
  forall (R : Type) user_id fuel st (k : list MessageRef -> M Service R) w,
    (forall refs, emits (fun ev => list_requests [ev] = []) (k refs)) ->
    exists tr,
      trace (snd (bind (while_true (S fuel) (page_body messages_list user_id 0) st)
                       k w))
      = (trace w ++ tr)%list
      /\ list_requests tr = [(unread_query, next_page_token st, 100)].
Proof.
  intros R user_id fuel st k w Hk. cbn [while_true]. unfold bind.
  destruct (page_body_one_request user_id 0 st w) as [tr [Htr Hnone]].
  pose proof (page_body_stops_without_estimate user_id st w) as Hstop.
  assert (Hone : list_requests
                   (EvListMessages unread_query (next_page_token st) 100 :: tr)
                 = [(unread_query, next_page_token st, 100)]).
  { change (EvListMessages unread_query (next_page_token st) 100 :: tr)%list
      with ([EvListMessages unread_query (next_page_token st) 100] ++ tr)%list.
    rewrite list_requests_app, Hnone. reflexivity. }
  destruct (page_body messages_list user_id 0 st w) as [[[st' | refs] | e |] w1];
    cbn [fst snd ret] in *.
  - destruct (Hstop st' eq_refl).
  - destruct (Hk refs w1) as [tr2 [Htr2 Hnone2]].
    destruct (k refs w1) as [r w2]. cbn [snd] in *.
    exists ((EvListMessages unread_query (next_page_token st) 100 :: tr) ++ tr2)%list.
    split.
    + rewrite Htr2, Htr, <- app_assoc. reflexivity.
    + rewrite list_requests_app, Hone, (list_requests_none tr2 Hnone2). reflexivity.
  - eexists. split; [exact Htr | exact Hone].
  - eexists. split; [exact Htr | exact Hone].
Qed.

(** X2.  When the provider's answer to the count request has no estimate, or an
    estimate of 0, the safety check holds after the first page: the fetch
    asks for the count and for one page of identifiers, never for a second
    page, whatever the first page says. *)
Theorem fetch_without_estimate_reads_one_page :
  forall fuel user_id batch_size w response s,
    messages_list (env w) user_id unread_query None 1 = (inr response, s) ->
    dict_get (resultSizeEstimate response) 0 = 0 ->
    list_requests
      (events_since w
         (snd (get_all_unread_emails messages_list messages_get (S fuel)
                 user_id batch_size w)))
    = [(unread_query, None, 1); (unread_query, None, 100)].
Proof.
  intros fuel user_id batch_size w response s Hcount Hzero.
  set (k := fun refs : list MessageRef =>
              if negb (list_truthy refs)
              then (print "No unread messages found.";; ret [])
              else
                print ("Processing "
                         ++ str_int (Z.of_nat (List.length refs))
                         ++ " unread emails...");;
                hydrate_loop messages_get user_id batch_size
                             (Z.of_nat (List.length refs)) 0 refs []).
  set (w2 := mkWorld s
               (console w
                  ++ [("Total unread emails (excluding spam and archived): "
                         ++ str_int 0)%string])%list
               (trace w ++ [EvListMessages unread_query None 1])%list).
  assert (Hbody :
    fetch_body messages_list messages_get (S fuel) user_id batch_size w
    = bind (while_true (S fuel) (page_body messages_list user_id 0)
                       (mkPageState [] None 0)) k w2).
  { unfold fetch_body, get_unread_email_count, call_list.
    unfold bind at 1 2 3 4. unfold emit, print. cbn [env console trace].
    rewrite Hcount. cbn [lift ret]. rewrite Hzero. reflexivity. }
  assert (Hk : forall refs, emits (fun ev => list_requests [ev] = []) (k refs)).
  { intros refs. unfold k. destruct (negb (list_truthy refs)).
    - apply emits_bind; [apply emits_print | intros _; apply emits_ret].
    - apply emits_bind; [apply emits_print |]. intros _.
      apply emits_hydrate_loop; reflexivity. }
  destruct (one_pass_without_estimate _ user_id fuel (mkPageState [] None 0)
              k w2 Hk) as [tr [Htr Hone]].
  cbn [next_page_token] in Hone.
  assert (Hfinal :
    trace (snd (get_all_unread_emails messages_list messages_get (S fuel)
                  user_id batch_size w))
    = (trace w ++ EvListMessages unread_query None 1 :: tr)%list).
  { unfold get_all_unread_emails, try_except. rewrite Hbody.
    destruct (bind (while_true (S fuel) (page_body messages_list user_id 0)
                               (mkPageState [] None 0)) k w2) as [[a | e |] w3];
      cbn [snd trace bind print ret] in *; rewrite Htr; unfold w2; cbn [trace];
      rewrite <- app_assoc; reflexivity. }
  rewrite (events_since_app _ _ _ _ _ Hfinal).
  change (EvListMessages unread_query None 1 :: tr)%list
    with ([EvListMessages unread_query None 1] ++ tr)%list.
  rewrite list_requests_app, Hone. reflexivity.
Qed.
End WithoutEstimate.

(** ** The pages of a listing *)

Section PageWorld.
Variable Service : Type.
Variable messages_list :
  Service -> string -> string -> option string -> Z ->
  (exn + ListResponse) * Service.

(** After a pass that did not raise, the provider has moved on by one
    request and the trace has grown by that request. *)
Lemma page_body_ok_world : forall user_id total_count st w response s c w1,
  messages_list (env w) user_id unread_query (next_page_token st) 100
  = (inr response, s) ->
  page_body messages_list user_id total_count st w = (Ok c, w1) ->
  env w1 = s
  /\ trace w1
     = (trace w ++ [EvListMessages unread_query (next_page_token st) 100])%list.
Proof.
  intros user_id total_count st w response s c w1 Hanswer H.
  unfold page_body, call_list, bind, print, emit in H.
  cbn [env console trace] in H. rewrite Hanswer in H. cbn [lift ret] in H.
  destruct (negb (list_truthy (dict_get (messages response) []))).
  { injection H as _ <-. split; reflexivity. }
  cbn [env console trace] in H.
  destruct (negb (token_truthy (nextPageToken response))).
  { injection H as _ <-. split; reflexivity. }
  destruct (reached_expected _ total_count) as [e | [|]];
    cbn [lift ret throw env console trace] in H; try discriminate;
    injection H as _ <-; split; reflexivity.
Qed.
End PageWorld.

(** X3.  Pagination against a scripted provider: when the loop returns, it has
    used up a non-empty run of pages from the front of the script, it
    returns the identifiers it started with followed by those of these pages
    in order, and it has asked for each page with the token of the page
    before it. *)
Theorem pagination_concatenates_pages :
  forall fuel user_id total_count st (w w' : world (list (exn + ListResponse))) refs,
    while_true fuel (page_body scripted_list user_id total_count) st w
    = (Ok refs, w') ->
    exists pages tr,
      pages <> []
      /\ env w = (map inr pages ++ env w')%list
      /\ refs = (all_messages st ++ flat_map page_messages pages)%list
      /\ trace w' = (trace w ++ tr)%list
      /\ tr = map (fun token => EvListMessages unread_query token 100)
                  (firstn (List.length pages)
                          (next_page_token st :: map nextPageToken pages)).
Proof.
  induction fuel as [| fuel IH]; intros user_id total_count st w w' refs H;
    [discriminate |].
  cbn [while_true] in H. apply bind_Ok in H. destruct H as [c [w1 [Hpass H]]].
  destruct (env w) as [| [e | response] rest] eqn:Hscript.
  - unfold page_body, call_list, bind, print, emit in Hpass.
    cbn [env console trace] in Hpass. rewrite Hscript in Hpass. discriminate.
  - unfold page_body, call_list, bind, print, emit in Hpass.
    cbn [env console trace] in Hpass. rewrite Hscript in Hpass. discriminate.
  - assert (Hanswer : scripted_list (env w) user_id unread_query
                                    (next_page_token st) 100
                      = (inr response, rest)) by (rewrite Hscript; reflexivity).
    destruct (page_body_ok_world _ scripted_list user_id total_count st w
                response rest c w1 Hanswer Hpass) as [Henv Htrace].
    pose proof (page_body_run _ scripted_list user_id total_count st w
                  response rest Hanswer) as Hrun.
    cbv zeta in Hrun. rewrite Hpass in Hrun. cbn [fst] in Hrun.
    fold (page_messages response) in Hrun.
    destruct c as [st' | r].
    + assert (Hst' : st' = mkPageState (all_messages st ++ page_messages response)
                                       (nextPageToken response) (page_count st + 1)).
      { destruct (negb (list_truthy (page_messages response))); [discriminate |].
        destruct (negb (token_truthy (nextPageToken response))); [discriminate |].
        destruct (reached_expected _ total_count) as [e | [|]]; try discriminate.
        injection Hrun as ->. reflexivity. }
      destruct (IH user_id total_count st' w1 w' refs H)
        as [pages [tr [Hne [Hrest [Hrefs [Htr Hreq]]]]]].
      exists (response :: pages),
             (EvListMessages unread_query (next_page_token st) 100 :: tr).
      split; [discriminate |]. split; [| split; [| split]].
      * cbn [map app]. rewrite <- Hrest, Henv. reflexivity.
      * rewrite Hrefs, Hst'. cbn [all_messages flat_map].
        rewrite <- app_assoc. reflexivity.
      * rewrite Htr, Htrace, <- app_assoc. reflexivity.
      * rewrite Hreq, Hst'. cbn [next_page_token List.length map firstn].
        reflexivity.
    + injection H as -> <-.
      exists [response], [EvListMessages unread_query (next_page_token st) 100].
      split; [discriminate |]. split; [| split; [| split]].
      * cbn [map app]. rewrite Henv. reflexivity.
      * cbn [flat_map]. rewrite app_nil_r.
        destruct (page_messages response) as [| m page] eqn:Hpage.
        -- cbn in Hrun. injection Hrun as ->. rewrite app_nil_r. reflexivity.
        -- cbn [list_truthy negb] in Hrun.
           destruct (negb (token_truthy (nextPageToken response)));
             [injection Hrun as ->; reflexivity |].
           destruct (reached_expected _ total_count) as [e | [|]]; try discriminate.
           injection Hrun as ->. reflexivity.
      * exact Htrace.
      * reflexivity.
Qed.

(** ** One record per identifier *)

Lemma emits_run : forall (E A : Type) (P : event -> Prop) (c : M E A) w r w1,
  emits P c -> c w = (r, w1) ->
  exists tr, trace w1 = (trace w ++ tr)%list /\ Forall P tr.
Proof.
  intros E A P c w r w1 Hc Hrun. destruct (Hc w) as [tr H].
  rewrite Hrun in H. exists tr. exact H.
Qed.

Lemma get_requests_app : forall tr1 tr2,
  get_requests (tr1 ++ tr2) = (get_requests tr1 ++ get_requests tr2)%list.
Proof. intros. apply flat_map_app. Qed.

Lemma get_requests_none : forall tr,
  Forall (fun ev => get_requests [ev] = []) tr -> get_requests tr = [].
Proof.
  intros tr H. induction H as [| ev tr Hev _ IH]; [reflexivity |].
  change (ev :: tr) with ([ev] ++ tr)%list.
  rewrite get_requests_app, Hev, IH. reflexivity.
Qed.

Lemma print_run : forall (E : Type) line (w : world E) u w1,
  print line w = (Ok u, w1) ->
  trace w1 = trace w /\ env w1 = env w
  /\ console w1 = (console w ++ [line])%list.
Proof.
  intros E line w u w1 H. injection H as _ <-. repeat split.
Qed.

Lemma when_print_run : forall (E : Type) cond line (w : world E) u w1,
  when cond (print line) w = (Ok u, w1) -> trace w1 = trace w /\ env w1 = env w.
Proof.
  intros E [|] line w u w1 H; injection H as _ <-; split; reflexivity.
Qed.

Section OneRecordPerIdentifier.
Variable Service : Type.
Variable messages_list :
  Service -> string -> string -> option string -> Z ->
  (exn + ListResponse) * Service.
Variable messages_get :
  Service -> string -> string -> string -> list string ->
  (exn + Message) * Service.

Lemma call_get_run : forall user_id message_id w msg w1,
  call_get Service messages_get user_id message_id w = (Ok msg, w1) ->
  trace w1 = (trace w ++ [EvGetMessage message_id])%list
  /\ exists s s',
      messages_get s user_id message_id "metadata" ["From"; "Subject"; "Date"]
      = (inr msg, s').
Proof.
  intros user_id message_id w msg w1 H.
  unfold call_get, bind, emit in H. cbn [env console trace] in H.
  destruct (messages_get (env w) user_id message_id "metadata"
                         ["From"; "Subject"; "Date"]) as [[e | m] s'] eqn:Hget;
    cbn in H; [discriminate |].
  injection H as <- <-. split; [reflexivity |]. eauto.
Qed.

Lemma hydrate_loop_run :
  forall user_id batch_size total_messages refs i emails w out w',
    hydrate_loop messages_get user_id batch_size total_messages i refs emails w
    = (Ok out, w') ->
    exists new ids tr,
      out = (emails ++ new)%list
      /\ map ref_id refs = map Some ids
      /\ Forall2 (hydrated_from Service messages_get user_id) ids new
      /\ trace w' = (trace w ++ tr)%list
      /\ get_requests tr = ids.
Proof.
  intros user_id batch_size total_messages.
  induction refs as [| message refs IH]; intros i emails w out w' H; cbn in H.
  - injection H as <- <-. exists [], [], []. rewrite !app_nil_r.
    repeat split. constructor.
  - apply bind_Ok in H. destruct H as [u1 [w1 [Hp1 H]]].
    apply when_print_run in Hp1. destruct Hp1 as [Ht1 _].
    apply bind_Ok in H. destruct H as [message_id [w2 [Hid H]]].
    assert (Hw2 : w2 = w1).
    { destruct (ref_id message); cbn in Hid; [| discriminate].
      injection Hid as _ <-. reflexivity. }
    apply lift_Ok in Hid. subst w2.
    apply bind_Ok in H. destruct H as [msg [w3 [Hget H]]].
    apply call_get_run in Hget. destruct Hget as [Ht3 [s [s' Hanswer]]].
    apply bind_Ok in H. destruct H as [email_data [w4 [Hhyd H]]].
    assert (Hw4 : w4 = w3).
    { destruct (hydrate msg); cbn in Hhyd; [discriminate |].
      injection Hhyd as _ <-. reflexivity. }
    apply lift_Ok in Hhyd. subst w4.
    apply bind_Ok in H. destruct H as [pause [w5 [Hpause H]]].
    assert (Hw5 : w5 = w3).
    { destruct (batch_boundary i batch_size total_messages); cbn in Hpause;
        [discriminate |]. injection Hpause as _ <-. reflexivity. }
    subst w5. clear Hpause.
    apply bind_Ok in H. destruct H as [u6 [w6 [Hsleep H]]].
    assert (Ht6 : exists tr6, trace w6 = (trace w3 ++ tr6)%list
                              /\ get_requests tr6 = []).
    { destruct pause; cbn in Hsleep.
      - injection Hsleep as _ <-. cbn. exists [EvSleep 1]. split; reflexivity.
      - injection Hsleep as _ <-. exists []. rewrite app_nil_r. split; reflexivity. }
    destruct Ht6 as [tr6 [Ht6 Hnone6]].
    apply IH in H. destruct H as [new [ids [tr [Hout [Hids [Hall [Ht Hreq]]]]]]].
    exists (email_data :: new), (message_id :: ids),
           (EvGetMessage message_id :: tr6 ++ tr)%list.
    split; [| split; [| split; [| split]]].
    + rewrite Hout, <- app_assoc. reflexivity.
    + cbn [map]. unfold getitem in Hid. destruct (ref_id message); [| discriminate].
      injection Hid as ->. f_equal. exact Hids.
    + constructor; [| exact Hall]. exists msg, s, s'. split; assumption.
    + rewrite Ht, Ht6, Ht3, Ht1, <- !app_assoc. reflexivity.
    + change (EvGetMessage message_id :: tr6 ++ tr)%list
        with ([EvGetMessage message_id] ++ tr6 ++ tr)%list.
      rewrite !get_requests_app, Hnone6, Hreq. reflexivity.
Qed.

(** The records of a fetch and the requests for a message of its run. *)
Lemma fetch_answers :
  forall fuel user_id batch_size w out w',
    get_all_unread_emails messages_list messages_get fuel user_id batch_size w
    = (Ok out, w') ->
    out <> [] ->
    Forall2 (hydrated_from Service messages_get user_id) (get_requests (events_since w w')) out.
Proof.
  intros fuel user_id batch_size w out w' H Hne.
  set (P := fun ev : event => get_requests [ev] = []).
  assert (Hraise : forall e, P (EvRaised e)) by reflexivity.
  unfold get_all_unread_emails, try_except in H.
  destruct (fetch_body messages_list messages_get fuel user_id batch_size w)
    as [[emails | e |] w1] eqn:Hbody.
  - injection H as -> ->. unfold fetch_body in Hbody.
    apply bind_Ok in Hbody. destruct Hbody as [total_count [w2 [Hcount Hbody]]].
    assert (Hc : emits P (get_unread_email_count Service messages_list user_id)).
    { unfold get_unread_email_count.
      apply emits_bind; [| intros ?; apply emits_ret].
      apply emits_call_list; [exact Hraise | reflexivity]. }
    destruct (emits_run _ _ P _ _ _ _ Hc Hcount) as [tr2 [Ht2 Hp2]].
    apply bind_Ok in Hbody. destruct Hbody as [u3 [w3 [Hprint Hbody]]].
    apply print_run in Hprint. destruct Hprint as [Ht3 _].
    apply bind_Ok in Hbody. destruct Hbody as [refs [w4 [Hloop Hbody]]].
    assert (Hl : emits P (while_true fuel (page_body messages_list user_id total_count)
                            (mkPageState [] None 0))).
    { apply emits_while_true. intros st.
      apply emits_page_body; [exact Hraise | reflexivity]. }
    destruct (emits_run _ _ P _ _ _ _ Hl Hloop) as [tr4 [Ht4 Hp4]].
    destruct (negb (list_truthy refs)).
    + apply bind_Ok in Hbody. destruct Hbody as [u5 [w5 [_ Hbody]]].
      injection Hbody as Hout _. congruence.
    + apply bind_Ok in Hbody. destruct Hbody as [u5 [w5 [Hprint5 Hbody]]].
      apply print_run in Hprint5. destruct Hprint5 as [Ht5 _].
      apply hydrate_loop_run in Hbody.
      destruct Hbody as [new [ids [tr [Hout [_ [Hall [Ht Hreq]]]]]]].
      cbn [app] in Hout. subst out.
      rewrite (events_since_app _ _ w w' (tr2 ++ tr4 ++ tr)).
      * rewrite !get_requests_app, (get_requests_none tr2 Hp2),
          (get_requests_none tr4 Hp4), Hreq. exact Hall.
      * rewrite Ht, Ht5, Ht4, Ht3, Ht2, <- !app_assoc. reflexivity.
  - cbn in H. injection H as Hout _. congruence.
  - discriminate.
Qed.

(** X4.  When the fetch returns records, they are, in order, the hydrations of
    the provider's answers to the requests for a message that the fetch
    made: one record per request. *)
Theorem fetch_one_record_per_request :
  forall fuel user_id batch_size w out w',
    get_all_unread_emails messages_list messages_get fuel user_id batch_size w
    = (Ok out, w') ->
    out <> [] ->
    Forall2 (hydrated_from Service messages_get user_id) (get_requests (events_since w w')) out.
Proof.
  intros fuel user_id batch_size w out w' H Hne.
  exact (fetch_answers fuel user_id batch_size w out w' H Hne).
Qed.

(** C9 (as amended): the records a fetch returns are, in order, built from
    the provider's answers to the requests for a message that the run made.
    The body of every record is the empty string, and its has-content flag
    is true exactly when the preview in the provider's answer for that
    record has a character that is not white space (a missing preview counts
    as empty). *)
Theorem C9_has_body_from_stripped_snippet :
  forall fuel user_id batch_size w out w',
    get_all_unread_emails messages_list messages_get fuel user_id batch_size w
    = (Ok out, w') ->
    Forall (fun email => email_body email = "") out
    /\ (out <> [] ->
        Forall2 (fun message_id email =>
                   exists msg s s',
                     messages_get s user_id message_id "metadata"
                                  ["From"; "Subject"; "Date"]
                     = (inr msg, s')
                     /\ hydrate msg = inr email
                     /\ email_has_body email
                        = Some (nonblank (dict_get (msg_snippet msg) "")))
                (get_requests (events_since w w')) out).
Proof.
  intros fuel user_id batch_size w out w' H. split.
  - eapply (fetch_hydrated Service messages_list messages_get); [| exact H].
    intros msg email Hhyd. exact (proj1 (hydrate_body msg email Hhyd)).
  - intros Hne.
    eapply Forall2_impl; [| exact (fetch_answers fuel user_id batch_size w out w' H Hne)].
    intros message_id email [msg [s [s' [Hget Hhyd]]]].
    exists msg, s, s'. split; [exact Hget |]. split; [exact Hhyd |].
    exact (proj2 (hydrate_body msg email Hhyd)).
Qed.
End OneRecordPerIdentifier.

(** Three messages, the second with a preview of two spaces. *)
Lemma C9_has_body_from_stripped_snippet_witness :
  Forall (fun email => email_body email = "")
    [mkEmail "m1" "t" (Some "a@example.org") (Some "Invoice due") None
             (Some true) "" None;
     mkEmail "m2" "t" (Some "a@example.org") (Some "Invoice due") None
             (Some false) "" None;
     mkEmail "m3" "t" (Some "a@example.org") (Some "Invoice due") None
             (Some true) "" None]
  /\ Forall2 (fun message_id email =>
                exists msg s s',
                  Sample.messages_get_ok s "me" message_id "metadata"
                                         ["From"; "Subject"; "Date"]
                  = (inr msg, s')
                  /\ hydrate msg = inr email
                  /\ email_has_body email
                     = Some (nonblank (dict_get (msg_snippet msg) "")))
       (get_requests
          (events_since (fresh 0%nat)
             (snd (get_all_unread_emails Sample.messages_list
                     Sample.messages_get_ok 5 "me" 25 (fresh 0%nat)))))
       [mkEmail "m1" "t" (Some "a@example.org") (Some "Invoice due") None
                (Some true) "" None;
        mkEmail "m2" "t" (Some "a@example.org") (Some "Invoice due") None
                (Some false) "" None;
        mkEmail "m3" "t" (Some "a@example.org") (Some "Invoice due") None
                (Some true) "" None].
Proof.
  assert (Hrun :
    get_all_unread_emails Sample.messages_list Sample.messages_get_ok 5 "me" 25
                          (fresh 0%nat)
    = (Ok [mkEmail "m1" "t" (Some "a@example.org") (Some "Invoice due") None
                   (Some true) "" None;
           mkEmail "m2" "t" (Some "a@example.org") (Some "Invoice due") None
                   (Some false) "" None;
           mkEmail "m3" "t" (Some "a@example.org") (Some "Invoice due") None
                   (Some true) "" None],
       snd (get_all_unread_emails Sample.messages_list Sample.messages_get_ok 5 "me" 25
                                  (fresh 0%nat)))) by (vm_compute; reflexivity).
  destruct (C9_has_body_from_stripped_snippet nat Sample.messages_list
              Sample.messages_get_ok 5 "me" 25 (fresh 0%nat) _ _ Hrun)
    as [Hbody Hflag].
  split; [exact Hbody |]. apply Hflag. discriminate.
Defined.

(** ** Pauses, batches and the empty mailbox *)

Lemma pauses_app : forall tr1 tr2,
  pauses (tr1 ++ tr2) = (pauses tr1 ++ pauses tr2)%list.
Proof. intros. apply flat_map_app. Qed.

Lemma pauses_none : forall tr,
  Forall (fun ev => pauses [ev] = []) tr -> pauses tr = [].
Proof.
  intros tr H. induction H as [| ev tr Hev _ IH]; [reflexivity |].
  change (ev :: tr) with ([ev] ++ tr)%list.
  rewrite pauses_app, Hev, IH. reflexivity.
Qed.

Lemma div_next : forall b i,
  0 < b -> 0 <= i ->
  (i + 1) / b = i / b + (if (i + 1) mod b =? 0 then 1 else 0).
Proof.
  intros b i Hb Hi.
  pose proof (Z.div_mod i b ltac:(lia)) as Hdiv.
  pose proof (Z.mod_pos_bound i b Hb) as Hmod.
  destruct ((i + 1) mod b =? 0) eqn:Hz.
  - apply Z.eqb_eq in Hz. symmetry.
    apply (Z.div_unique (i + 1) b (i / b + 1) 0); [lia |].
    pose proof (Z.div_mod (i + 1) b ltac:(lia)) as Hdiv'.
    rewrite Hz in Hdiv'.
    assert (Hq : (i + 1) / b = i / b + 1) by nia.
    rewrite Hq in Hdiv'. lia.
  - apply Z.eqb_neq in Hz. symmetry.
    pose proof (Z.div_mod (i + 1) b ltac:(lia)) as Hdiv'.
    pose proof (Z.mod_pos_bound (i + 1) b Hb) as Hmod'.
    apply (Z.div_unique (i + 1) b (i / b + 0) (i mod b + 1)); [| lia].
    assert (i mod b + 1 <> b).
    { intros Heq. apply Hz.
      replace (i + 1) with (b * (i / b + 1)) by lia.
      rewrite Z.mul_comm. apply Z.mod_mul. lia. }
    lia.
Qed.

Section Pauses.
Variable Service : Type.
Variable messages_list :
  Service -> string -> string -> option string -> Z ->
  (exn + ListResponse) * Service.
Variable messages_get :
  Service -> string -> string -> string -> list string ->
  (exn + Message) * Service.

Lemma hydrate_loop_pauses :
  forall user_id batch_size total_messages,
    0 < batch_size ->
    forall refs i emails w out w',
      0 <= i ->
      total_messages = i + Z.of_nat (List.length refs) ->
      hydrate_loop messages_get user_id batch_size total_messages i refs emails w
      = (Ok out, w') ->
      exists tr,
        trace w' = (trace w ++ tr)%list
        /\ pauses tr
           = repeat 1 (Z.to_nat ((total_messages - 1) / batch_size
                                 - i / batch_size)).
Proof.
  intros user_id batch_size total_messages Hb.
  induction refs as [| message refs IH]; intros i emails w out w' Hi Htotal H;
    cbn [hydrate_loop] in H.
  - injection H as _ <-. exists []. rewrite app_nil_r. split; [reflexivity |].
    cbn [List.length Z.of_nat] in Htotal.
    replace (Z.to_nat ((total_messages - 1) / batch_size - i / batch_size))
      with 0%nat; [reflexivity |].
    assert ((total_messages - 1) / batch_size <= i / batch_size)
      by (apply Z.div_le_mono; lia).
    lia.
  - apply bind_Ok in H. destruct H as [u1 [w1 [Hp1 H]]].
    apply when_print_run in Hp1. destruct Hp1 as [Ht1 _].
    apply bind_Ok in H. destruct H as [message_id [w2 [Hid H]]].
    assert (Hw2 : w2 = w1).
    { destruct (ref_id message); cbn in Hid; [| discriminate].
      injection Hid as _ <-. reflexivity. }
    subst w2. clear Hid.
    apply bind_Ok in H. destruct H as [msg [w3 [Hget H]]].
    apply (call_get_run Service messages_get) in Hget. destruct Hget as [Ht3 _].
    apply bind_Ok in H. destruct H as [email_data [w4 [Hhyd H]]].
    assert (Hw4 : w4 = w3).
    { destruct (hydrate msg); cbn in Hhyd; [discriminate |].
      injection Hhyd as _ <-. reflexivity. }
    subst w4. clear Hhyd.
    apply bind_Ok in H. destruct H as [pause [w5 [Hpause H]]].
    assert (Hw5 : w5 = w3).
    { destruct (batch_boundary i batch_size total_messages); cbn in Hpause;
        [discriminate |]. injection Hpause as _ <-. reflexivity. }
    subst w5. apply lift_Ok in Hpause.
    unfold batch_boundary in Hpause.
    destruct (batch_size =? 0) eqn:Hzero; [apply Z.eqb_eq in Hzero; lia |].
    injection Hpause as Hpause.
    apply bind_Ok in H. destruct H as [u6 [w6 [Hsleep H]]].
    assert (Ht6 : trace w6 = (trace w3 ++ (if pause then [EvSleep 1] else []))%list).
    { destruct pause; cbn in Hsleep; injection Hsleep as _ <-; cbn;
        [reflexivity | symmetry; apply app_nil_r]. }
    cbn [List.length] in Htotal. rewrite Nat2Z.inj_succ in Htotal.
    apply IH in H; [| lia | lia].
    destruct H as [tr [Ht Hpauses]].
    exists (EvGetMessage message_id :: (if pause then [EvSleep 1] else []) ++ tr)%list.
    split.
    + rewrite Ht, Ht6, Ht3, Ht1, <- !app_assoc. reflexivity.
    + change (EvGetMessage message_id :: (if pause then [EvSleep 1] else []) ++ tr)%list
        with ([EvGetMessage message_id] ++ (if pause then [EvSleep 1] else []) ++ tr)%list.
      rewrite !pauses_app, Hpauses. cbn [pauses flat_map app].
      rewrite (div_next batch_size i Hb Hi).
      assert (Hmono : (i + 1) / batch_size <= (total_messages - 1) / batch_size
                      \/ i = total_messages - 1).
      { destruct (Z.eq_dec i (total_messages - 1)) as [-> | Hneq]; [right; reflexivity |].
        left. apply Z.div_le_mono; lia. }
      rewrite (div_next batch_size i Hb Hi) in Hmono.
      rewrite <- Hpause.
      destruct ((i + 1) mod batch_size =? 0) eqn:Hmod; cbn [andb].
      * destruct (i <? total_messages - 1) eqn:Hlast; cbn [pauses flat_map app].
        -- apply Z.ltb_lt in Hlast.
           replace (Z.to_nat ((total_messages - 1) / batch_size - i / batch_size))
             with (S (Z.to_nat ((total_messages - 1) / batch_size
                                - (i / batch_size + 1)))) by lia.
           reflexivity.
        -- apply Z.ltb_ge in Hlast. assert (i = total_messages - 1) by lia. subst i.
           replace (Z.to_nat ((total_messages - 1) / batch_size
                              - ((total_messages - 1) / batch_size + 1)))
             with 0%nat by lia.
           replace (Z.to_nat ((total_messages - 1) / batch_size
                              - (total_messages - 1) / batch_size))
             with 0%nat by lia.
           reflexivity.
      * cbn [pauses flat_map app]. rewrite Z.add_0_r. reflexivity.
Qed.

(** X5.  With a batch size [b > 0], a fetch that returns [n >= 1] records has
    paused [(n - 1) // b] times, one second each: after every [b]-th
    message, but not after the last one. *)
Theorem fetch_pauses_between_batches :
  forall fuel user_id batch_size w out w',
    0 < batch_size ->
    get_all_unread_emails messages_list messages_get fuel user_id batch_size w
    = (Ok out, w') ->
    out <> [] ->
    pauses (events_since w w')
    = repeat 1 (Z.to_nat ((Z.of_nat (List.length out) - 1) / batch_size)).
Proof.
  intros fuel user_id batch_size w out w' Hb H Hne.
  set (P := fun ev : event => pauses [ev] = []).
  assert (Hraise : forall e, P (EvRaised e)) by reflexivity.
  unfold get_all_unread_emails, try_except in H.
  destruct (fetch_body messages_list messages_get fuel user_id batch_size w)
    as [[emails | e |] w1] eqn:Hbody.
  - injection H as -> ->. unfold fetch_body in Hbody.
    apply bind_Ok in Hbody. destruct Hbody as [total_count [w2 [Hcount Hbody]]].
    assert (Hc : emits P (get_unread_email_count Service messages_list user_id)).
    { unfold get_unread_email_count.
      apply emits_bind; [| intros ?; apply emits_ret].
      apply emits_call_list; [exact Hraise | reflexivity]. }
    destruct (emits_run _ _ P _ _ _ _ Hc Hcount) as [tr2 [Ht2 Hp2]].
    apply bind_Ok in Hbody. destruct Hbody as [u3 [w3 [Hprint Hbody]]].
    apply print_run in Hprint. destruct Hprint as [Ht3 _].
    apply bind_Ok in Hbody. destruct Hbody as [refs [w4 [Hloop Hbody]]].
    assert (Hl : emits P (while_true fuel (page_body messages_list user_id total_count)
                            (mkPageState [] None 0))).
    { apply emits_while_true. intros st.
      apply emits_page_body; [exact Hraise | reflexivity]. }
    destruct (emits_run _ _ P _ _ _ _ Hl Hloop) as [tr4 [Ht4 Hp4]].
    destruct (negb (list_truthy refs)).
    + apply bind_Ok in Hbody. destruct Hbody as [u5 [w5 [_ Hbody]]].
      injection Hbody as Hout _. congruence.
    + apply bind_Ok in Hbody. destruct Hbody as [u5 [w5 [Hprint5 Hbody]]].
      apply print_run in Hprint5. destruct Hprint5 as [Ht5 _].
      pose proof (hydrate_loop_run Service messages_get _ _ _ _ _ _ _ _ _ Hbody)
        as [new [ids [tr0 [Hout [Hids [Hall _]]]]]].
      assert (Hlen : List.length out = List.length refs).
      { rewrite Hout. cbn [app]. rewrite <- (Forall2_length Hall).
        rewrite <- (length_map Some ids), <- Hids. apply length_map. }
      apply hydrate_loop_pauses in Hbody; [| exact Hb | lia | lia].
      destruct Hbody as [tr [Ht Hpauses]].
      rewrite (events_since_app _ _ w w' (tr2 ++ tr4 ++ tr)).
      * rewrite !pauses_app, (pauses_none tr2 Hp2), (pauses_none tr4 Hp4), Hpauses.
        cbn [app]. rewrite Hlen. change (0 / batch_size) with 0.
        rewrite Z.sub_0_r. reflexivity.
      * rewrite Ht, Ht5, Ht4, Ht3, Ht2, <- !app_assoc. reflexivity.
  - cbn in H. injection H as Hout _. congruence.
  - discriminate.
Qed.

Lemma hydrate_loop_zero_batch :
  forall user_id total_messages message refs i emails w out w',
    hydrate_loop messages_get user_id 0 total_messages i (message :: refs) emails w
    <> (Ok out, w').
Proof.
  intros user_id total_messages message refs i emails w out w' H.
  cbn [hydrate_loop] in H.
  apply bind_Ok in H. destruct H as [u1 [w1 [_ H]]].
  apply bind_Ok in H. destruct H as [message_id [w2 [_ H]]].
  apply bind_Ok in H. destruct H as [msg [w3 [_ H]]].
  apply bind_Ok in H. destruct H as [email_data [w4 [_ H]]].
  apply bind_Ok in H. destruct H as [pause [w5 [Hpause _]]].
  apply lift_Ok in Hpause. discriminate.
Qed.

(** X6.  With a batch size of 0 the fetch never returns a record: as soon as
    there is a message to hydrate, the modulo of line 153 raises and the
    [except] clause returns the empty list. *)
Theorem fetch_with_zero_batch_size_is_empty : forall fuel user_id w out w',
  get_all_unread_emails messages_list messages_get fuel user_id 0 w
  = (Ok out, w') ->
  out = [].
Proof.
  intros fuel user_id w out w' H.
  unfold get_all_unread_emails, try_except in H.
  destruct (fetch_body messages_list messages_get fuel user_id 0 w)
    as [[emails | e |] w1] eqn:Hbody.
  - injection H as -> ->. unfold fetch_body in Hbody.
    apply bind_Ok in Hbody. destruct Hbody as [total_count [w2 [_ Hbody]]].
    apply bind_Ok in Hbody. destruct Hbody as [u3 [w3 [_ Hbody]]].
    apply bind_Ok in Hbody. destruct Hbody as [refs [w4 [_ Hbody]]].
    destruct refs as [| message refs]; cbn [list_truthy negb] in Hbody.
    + apply bind_Ok in Hbody. destruct Hbody as [u5 [w5 [_ Hbody]]].
      injection Hbody as <- _. reflexivity.
    + apply bind_Ok in Hbody. destruct Hbody as [u5 [w5 [_ Hbody]]].
      destruct (hydrate_loop_zero_batch _ _ _ _ _ _ _ _ _ Hbody).
  - cbn in H. injection H as <- _. reflexivity.
  - discriminate.
Qed.

(** X7.  An empty mailbox: when the first page lists no message, the fetch
    returns the empty list after two requests, says so on the console and
    asks for no message. *)
Theorem fetch_of_empty_mailbox :
  forall fuel user_id batch_size w estimate s1 page s2,
    messages_list (env w) user_id unread_query None 1 = (inr estimate, s1) ->
    messages_list s1 user_id unread_query None 100 = (inr page, s2) ->
    page_messages page = [] ->
    get_all_unread_emails messages_list messages_get (S fuel) user_id batch_size w
    = (Ok [],
       mkWorld s2
         (console w
            ++ [("Total unread emails (excluding spam and archived): "
                   ++ str_int (dict_get (resultSizeEstimate estimate) 0))%string;
                "Fetching page 1 of unread emails...";
                "No unread messages found."])%list
         (trace w ++ [EvListMessages unread_query None 1;
                      EvListMessages unread_query None 100])%list).
Proof.
  intros fuel user_id batch_size w estimate s1 page s2 H1 H2 Hempty.
  unfold get_all_unread_emails, try_except, fetch_body, get_unread_email_count.
  cbn [while_true]. unfold page_body, call_list, bind, print, emit.
  cbn [env console trace next_page_token page_count all_messages].
  rewrite H1. cbn [lift ret env console trace]. rewrite H2.
  cbn [lift ret env console trace]. unfold page_messages in Hempty.
  rewrite Hempty. cbn [list_truthy negb ret env console trace].
  rewrite <- !app_assoc. reflexivity.
Qed.
End Pauses.

(** ** Headers *)

Lemma header_step_fields : forall acc h e,
  header_step acc h = inr e ->
  exists n,
    header_name h = Some n
    /\ email_id e = email_id acc /\ email_threadId e = email_threadId acc
    /\ email_from e
       = (if String.eqb n "From" then header_value h else email_from acc)
    /\ email_subject e
       = (if String.eqb n "Subject" then header_value h else email_subject acc)
    /\ email_date e
       = (if String.eqb n "Date" then header_value h else email_date acc)
    /\ ((String.eqb n "From" || String.eqb n "Subject" || String.eqb n "Date")
        = true -> header_value h <> None).
Proof.
  intros acc h e H. unfold header_step, and_then, getitem in H.
  destruct (header_name h) as [n |]; [| discriminate].
  exists n. split; [reflexivity |].
  destruct (String.eqb n "From") eqn:Hfrom.
  { apply String.eqb_eq in Hfrom. subst n. cbn in H.
    destruct (header_value h) as [v |]; [| discriminate].
    injection H as <-. cbn. repeat split. discriminate. }
  destruct (String.eqb n "Subject") eqn:Hsubject.
  { apply String.eqb_eq in Hsubject. subst n. cbn in H.
    destruct (header_value h) as [v |]; [| discriminate].
    injection H as <-. cbn. repeat split. discriminate. }
  destruct (String.eqb n "Date") eqn:Hdate.
  { destruct (header_value h) as [v |]; [| discriminate].
    injection H as <-. cbn. repeat split. discriminate. }
  injection H as <-. repeat split. discriminate.
Qed.

Lemma header_loop_fields : forall hs acc e,
  header_loop acc hs = inr e ->
  email_id e = email_id acc /\ email_threadId e = email_threadId acc
  /\ email_from e
     = match last_header "From" hs with Some v => Some v | None => email_from acc end
  /\ email_subject e
     = match last_header "Subject" hs with
       | Some v => Some v
       | None => email_subject acc
       end
  /\ email_date e
     = match last_header "Date" hs with Some v => Some v | None => email_date acc end.
Proof.
  induction hs as [| h hs IH]; intros acc e H; cbn [header_loop] in H.
  - injection H as <-. repeat split.
  - unfold and_then in H.
    destruct (header_step acc h) as [err | acc'] eqn:Hstep; [discriminate |].
    apply header_step_fields in Hstep.
    destruct Hstep as [n [Hn [Hid [Hthread [Hfrom [Hsubject [Hdate Hvalue]]]]]]].
    apply IH in H. destruct H as [Hid' [Hthread' [Hfrom' [Hsubject' Hdate']]]].
    cbn [last_header]. rewrite Hn.
    split; [congruence |]. split; [congruence |].
    split; [| split].
    + rewrite Hfrom'. destruct (last_header "From" hs); [reflexivity |].
      rewrite Hfrom. destruct (String.eqb n "From") eqn:Heq; [| reflexivity].
      destruct (header_value h); [reflexivity |].
      exfalso. exact (Hvalue eq_refl eq_refl).
    + rewrite Hsubject'. destruct (last_header "Subject" hs); [reflexivity |].
      rewrite Hsubject. destruct (String.eqb n "Subject") eqn:Heq; [| reflexivity].
      destruct (header_value h); [reflexivity |].
      exfalso. apply Hvalue; [| reflexivity].
      destruct (String.eqb n "From"), (String.eqb n "Date"); reflexivity.
    + rewrite Hdate'. destruct (last_header "Date" hs); [reflexivity |].
      rewrite Hdate. destruct (String.eqb n "Date") eqn:Heq; [| reflexivity].
      destruct (header_value h); [reflexivity |].
      exfalso. apply Hvalue; [| reflexivity].
      destruct (String.eqb n "From"), (String.eqb n "Subject"); reflexivity.
Qed.

(** X8.  A hydrated record carries the identifier and the thread identifier of
    the provider's message; its sender, subject and date are the values of
    the last header called exactly [From], [Subject] and [Date], and are
    absent when the message has no such header; it has no category yet. *)
Theorem hydrate_reads_the_last_header : forall msg email,
  hydrate msg = inr email ->
  exists payload hs,
    msg_payload msg = Some payload /\ headers payload = Some hs
    /\ msg_id msg = Some (email_id email)
    /\ msg_threadId msg = Some (email_threadId email)
    /\ email_from email = last_header "From" hs
    /\ email_subject email = last_header "Subject" hs
    /\ email_date email = last_header "Date" hs
    /\ email_category email = None.
Proof.
  intros msg email H. unfold hydrate, and_then, getitem in H.
  destruct (msg_id msg) as [id |]; [| discriminate].
  destruct (msg_threadId msg) as [threadId |]; [| discriminate].
  destruct (msg_payload msg) as [payload |]; [| discriminate].
  destruct (headers payload) as [hs |] eqn:Hhs; [| discriminate].
  destruct (header_loop (mkEmail id threadId None None None None "" None) hs)
    as [err | e] eqn:Hloop; [discriminate |].
  injection H as <-. cbn.
  assert (Hcat : forall hs acc e', header_loop acc hs = inr e' ->
                                   email_category e' = email_category acc).
  { clear. induction hs as [| h hs IH]; intros acc e' H; cbn [header_loop] in H.
    - injection H as <-. reflexivity.
    - unfold and_then in H.
      destruct (header_step acc h) as [err | acc'] eqn:Hstep; [discriminate |].
      rewrite (IH _ _ H). clear - Hstep.
      unfold header_step, and_then, getitem in Hstep.
      destruct (header_name h) as [n |]; [| discriminate].
      repeat match type of Hstep with
             | context [if ?b then _ else _] => destruct b
             | context [match header_value h with _ => _ end] =>
                 destruct (header_value h)
             end; try discriminate; injection Hstep as <-; reflexivity. }
  pose proof (Hcat _ _ _ Hloop) as Hnone.
  apply header_loop_fields in Hloop.
  destruct Hloop as [Hid [Hthread [Hfrom [Hsubject Hdate]]]]. cbn in *.
  exists payload, hs. rewrite Hid, Hthread, Hfrom, Hsubject, Hdate.
  repeat split; try reflexivity; try assumption.
  - destruct (last_header "From" hs); reflexivity.
  - destruct (last_header "Subject" hs); reflexivity.
  - destruct (last_header "Date" hs); reflexivity.
Qed.

(** ** Clusters and their labels *)

(** X10.  For at least one document and a requested count of at least 2, the
    clustering is asked for between 2 and the requested number of clusters;
    that is more clusters than documents exactly when there is a single
    document. *)
Theorem effective_clusters_bounds : forall documents k,
  documents <> [] ->
  2 <= k ->
  2 <= effective_clusters documents k <= k
  /\ (effective_clusters documents k <= Z.of_nat (List.length documents)
      <-> 2 <= Z.of_nat (List.length documents)).
Proof.
  intros documents k Hne Hk. unfold effective_clusters.
  assert (Hn : 1 <= Z.of_nat (List.length documents)).
  { destruct documents; [congruence | cbn [List.length]; lia]. }
  pose proof (Z.div_pos (Z.of_nat (List.length documents)) 2 ltac:(lia) ltac:(lia)).
  assert (Z.of_nat (List.length documents) / 2 <= Z.of_nat (List.length documents))
    by (apply Z.div_le_upper_bound; lia).
  destruct (Z.of_nat (List.length documents) <? k) eqn:Hlt.
  - apply Z.ltb_lt in Hlt. split; [lia |]. split; lia.
  - apply Z.ltb_ge in Hlt. split; [lia |]. split; lia.
Qed.

Lemma all_digits_uint : forall d, all_digits (NilEmpty.string_of_uint d) = true.
Proof. induction d; cbn; auto. Qed.

Lemma digits_prefix_unique : forall d1 d2 r1 r2,
  all_digits d1 = true -> all_digits d2 = true ->
  no_leading_digit r1 = true -> no_leading_digit r2 = true ->
  d1 ++ r1 = d2 ++ r2 -> d1 = d2.
Proof.
  induction d1 as [| c1 d1 IH]; intros [| c2 d2] r1 r2 H1 H2 Hr1 Hr2 H; cbn in *.
  - reflexivity.
  - subst r1. cbn in Hr1. apply andb_prop in H2. destruct H2 as [H2 _].
    rewrite H2 in Hr1. discriminate.
  - subst r2. cbn in Hr2. apply andb_prop in H1. destruct H1 as [H1 _].
    rewrite H1 in Hr2. discriminate.
  - injection H as -> H. f_equal.
    apply andb_prop in H1. apply andb_prop in H2.
    apply (IH d2 r1 r2); tauto.
Qed.

Lemma str_int_succ : forall i,
  str_int (Z.of_nat i + 1)
  = NilEmpty.string_of_uint (Pos.to_uint (Pos.of_succ_nat i)).
Proof.
  intros i. replace (Z.of_nat i + 1) with (Z.pos (Pos.of_succ_nat i)) by lia.
  unfold str_int. cbn [Z.to_int NilZero.string_of_int].
  unfold NilZero.string_of_uint.
  destruct (Pos.to_uint (Pos.of_succ_nat i)) eqn:Hd; try reflexivity.
  destruct (DecimalPos.Unsigned.to_uint_nonnil _ Hd).
Qed.

Lemma str_int_succ_inj : forall i j,
  str_int (Z.of_nat i + 1) = str_int (Z.of_nat j + 1) -> i = j.
Proof.
  intros i j H. rewrite !str_int_succ in H.
  apply (f_equal NilEmpty.uint_of_string) in H. rewrite !NilEmpty.usu in H.
  injection H as H. apply DecimalPos.Unsigned.to_uint_inj in H. lia.
Qed.

(** The label of a cluster is "Category ", the number, and a rest that does
    not begin with a digit. *)
Lemma category_name_shape {numpy : Numpy} : forall feature_names i center,
  exists rest,
    category_name feature_names i center
    = "Category " ++ str_int (Z.of_nat i + 1) ++ rest
    /\ no_leading_digit rest = true.
Proof.
  intros feature_names i center. unfold category_name.
  destruct (top_words feature_names (top_indices center)) as [| word words].
  - exists "". split; [| reflexivity].
    f_equal. induction (str_int (Z.of_nat i + 1)) as [| c s IH]; cbn; congruence.
  - eexists. split; [reflexivity | reflexivity].
Qed.

Lemma category_name_inj {numpy : Numpy} : forall names names' i j center center',
  category_name names i center = category_name names' j center' -> i = j.
Proof.
  intros names names' i j center center' H.
  destruct (category_name_shape names i center) as [r [Hi Hr]].
  destruct (category_name_shape names' j center') as [r' [Hj Hr']].
  rewrite Hi, Hj in H. cbn in H. injection H as H.
  apply str_int_succ_inj. rewrite !str_int_succ in *.
  eapply digits_prefix_unique; [| | exact Hr | exact Hr' | exact H];
    apply all_digits_uint.
Qed.

(** X11.  Different clusters get different labels: the list of categories has no
    label twice, whatever the terms of the clusters are. *)
Theorem categories_are_distinct {numpy : Numpy} :
  forall feature_names cluster_centers count categories,
    build_categories feature_names cluster_centers 0 count = inr categories ->
    NoDup categories.
Proof.
  intros feature_names cluster_centers count categories H.
  pose proof (build_categories_length _ _ _ _ _ H) as Hlen.
  apply NoDup_nth_error. intros i j Hi Hij.
  rewrite Hlen in Hi.
  destruct (build_categories_nth _ _ _ _ _ H i Hi) as [ci [_ Hci]].
  assert (Hj : (j < count)%nat).
  { rewrite <- Hlen. apply nth_error_Some. rewrite <- Hij, Hci. discriminate. }
  destruct (build_categories_nth _ _ _ _ _ H j Hj) as [cj [_ Hcj]].
  rewrite Hci, Hcj in Hij. injection Hij as Hij.
  apply category_name_inj in Hij. exact Hij.
Qed.

Lemma build_categories_all {numpy : Numpy} : forall feature_names cluster_centers count i,
  (i + count <= List.length cluster_centers)%nat ->
  build_categories feature_names cluster_centers i count
  = inr (map (fun j => category_name feature_names j (nth j cluster_centers []))
             (seq i count)).
Proof.
  intros feature_names cluster_centers.
  induction count as [| count IH]; intros i Hlen; cbn; [reflexivity |].
  rewrite (nth_error_nth' cluster_centers []) by lia.
  rewrite IH by lia. reflexivity.
Qed.

Lemma assign_categories_all : forall categories emails pre suf,
  List.length emails = List.length suf ->
  Forall (fun c => 0 <= c < Z.of_nat (List.length categories)) suf ->
  assign_categories categories (pre ++ suf) (List.length pre) emails
  = (map (fun p => set_category (nth (Z.to_nat (snd p)) categories "") (fst p))
         (combine emails suf),
     None).
Proof.
  intros categories.
  induction emails as [| email emails IH]; intros pre [| c suf] Hlen Hrange;
    try discriminate; [reflexivity |].
  cbn [assign_categories].
  rewrite nth_error_app2, Nat.sub_diag by lia. cbn [nth_error].
  inversion Hrange as [| ? ? Hc Hsuf]; subst.
  assert (Hget : py_getitem categories c
                 = Some (nth (Z.to_nat c) categories "")).
  { unfold py_getitem. destruct (0 <=? c) eqn:H0; [| apply Z.leb_gt in H0; lia].
    apply nth_error_nth'. lia. }
  rewrite Hget.
  replace (pre ++ c :: suf)%list with ((pre ++ [c]) ++ suf)%list
    by (rewrite <- app_assoc; reflexivity).
  replace (S (List.length pre)) with (List.length (pre ++ [c])%list)
    by (rewrite length_app; cbn; lia).
  rewrite IH; [reflexivity | cbn in Hlen; lia | exact Hsuf].
Qed.

Section ClusterLabels.
Context {numpy : Numpy}.
Variables Matrix RNG : Type.
Variable fit_transform :
  TfidfVectorizer -> list string -> exn + (Matrix * list string).
Variable fit : KMeans -> RNG -> Matrix -> (exn + KMeansFitted) * RNG.

(** X12.  When the vectorizer and the clustering succeed and the clustering keeps
    its contract (one centroid per cluster, one cluster id per document,
    every id below the cluster count), [suggest_categories] gives each record
    the label of its own cluster, built from the centroid of that cluster,
    and changes nothing else. *)
Theorem each_record_gets_the_label_of_its_cluster :
  forall email emails k w X feature_names fitted g,
    let all := email :: emails in
    let keff := effective_clusters (documents_of all) k in
    fit_transform vectorizer (documents_of all) = inr (X, feature_names) ->
    fit (mkKMeans keff (Some 42)) (env w) X = (inr fitted, g) ->
    List.length (cluster_centers_ fitted) = Z.to_nat keff ->
    List.length (labels_ fitted) = List.length all ->
    Forall (fun c => 0 <= c < keff) (labels_ fitted) ->
    fst (suggest_categories fit_transform fit all k w)
    = Ok (map (fun p =>
                 set_category
                   (label_of_cluster feature_names (cluster_centers_ fitted) (snd p))
                   (fst p))
              (combine all (labels_ fitted))).
Proof.
  intros email emails k w X feature_names fitted g all keff
         Hvec Hfit Hcenters Hlabels Hrange.
  unfold all. rewrite suggest_categories_run. cbv zeta. fold all. fold keff.
  rewrite cluster_labels_run, Hvec. cbv zeta. rewrite Hfit.
  rewrite build_categories_all by (rewrite Hcenters; lia).
  set (categories := map (fun j => category_name feature_names j
                                     (nth j (cluster_centers_ fitted) []))
                         (seq 0 (Z.to_nat keff))).
  assert (Hlen : List.length categories = Z.to_nat keff)
    by (unfold categories; rewrite length_map, length_seq; reflexivity).
  pose proof (assign_categories_all categories all [] (labels_ fitted)) as Hassign.
  cbn [app List.length] in Hassign. rewrite Hassign.
  - cbn [fst]. f_equal. apply map_ext_in. intros [e c] Hin. cbn [fst snd].
    f_equal. unfold label_of_cluster.
    apply in_combine_r in Hin. rewrite Forall_forall in Hrange.
    specialize (Hrange c Hin).
    unfold categories.
    rewrite (nth_indep _ "" (category_name feature_names 0
                               (nth 0 (cluster_centers_ fitted) [])))
      by (rewrite length_map, length_seq; lia).
    rewrite (map_nth (fun j => category_name feature_names j
                                 (nth j (cluster_centers_ fitted) []))).
    rewrite seq_nth by lia. reflexivity.
  - symmetry. exact Hlabels.
  - eapply Forall_impl; [| exact Hrange]. intros c Hc. cbn beta in Hc. lia.
Qed.
End ClusterLabels.

(** ** The export never raises *)

Lemma exceptions_app : forall tr1 tr2,
  exceptions (tr1 ++ tr2) = (exceptions tr1 ++ exceptions tr2)%list.
Proof. intros. apply flat_map_app. Qed.

Lemma exceptions_last : forall tr0 tr1 e d,
  exceptions tr1 = [] ->
  last (exceptions (tr0 ++ EvRaised e :: tr1)) d = e.
Proof.
  intros tr0 tr1 e d H. rewrite exceptions_app.
  change (EvRaised e :: tr1)%list with ([EvRaised e] ++ tr1)%list.
  rewrite exceptions_app, H. cbn [exceptions flat_map app]. apply last_last.
Qed.

Section Settling.
Context {E : Type}.

Lemma settles_ret : forall (A : Type) (a : A), settles (ret a : M E A).
Proof.
  intros A a w. exists []. cbn. rewrite app_nil_r. repeat split.
Qed.

(** Two computations in a row, the second one run whatever the first one
    ends with. *)
Lemma settles_then : forall (tr1 tr2 : list event) (r1 r2 : option exn),
  match r1 with
  | None => exceptions tr1 = []
  | Some e => exists tr0 tr', tr1 = (tr0 ++ EvRaised e :: tr')%list
                              /\ exceptions tr' = []
  end ->
  match r2 with
  | None => exceptions tr2 = []
  | Some e => exists tr0 tr', tr2 = (tr0 ++ EvRaised e :: tr')%list
                              /\ exceptions tr' = []
  end ->
  match (match r2 with Some e => Some e | None => r1 end) with
  | None => exceptions (tr1 ++ tr2) = []
  | Some e => exists tr0 tr', (tr1 ++ tr2)%list = (tr0 ++ EvRaised e :: tr')%list
                              /\ exceptions tr' = []
  end.
Proof.
  intros tr1 tr2 r1 [e2 |] H1 H2.
  - destruct H2 as [tr0 [tr' [-> Hnone]]].
    exists (tr1 ++ tr0)%list, tr'. split; [apply app_assoc | exact Hnone].
  - destruct r1 as [e1 |].
    + destruct H1 as [tr0 [tr' [-> Hnone]]].
      exists tr0, (tr' ++ tr2)%list. split.
      * rewrite <- app_assoc. reflexivity.
      * rewrite exceptions_app, Hnone, H2. reflexivity.
    + rewrite exceptions_app, H1, H2. reflexivity.
Qed.

Lemma settles_bind : forall (A B : Type) (c : M E A) (k : A -> M E B),
  settles c -> (forall a, settles (k a)) -> settles (bind c k).
Proof.
  intros A B c k Hc Hk w. unfold bind.
  destruct (Hc w) as [tr1 [Ht1 [Hc1 Hr1]]].
  destruct (c w) as [[a | e |] w1]; cbn [fst snd] in *.
  - destruct (Hk a w1) as [tr2 [Ht2 [Hc2 Hr2]]].
    exists (tr1 ++ tr2)%list. split; [| split].
    + rewrite Ht2, Ht1. symmetry. apply app_assoc.
    + congruence.
    + destruct (fst (k a w1)) as [b | e |].
      * exact (settles_then tr1 tr2 None None Hr1 Hr2).
      * exact (settles_then tr1 tr2 None (Some e) Hr1 Hr2).
      * exact Hr2.
  - exists tr1. repeat split; assumption.
  - destruct Hr1.
Qed.
End Settling.

Section ExportOutcome.
Variable FS : Type.
Variable fs_open : FS -> string -> option exn * FS.
Variable fs_writerow : FS -> list string -> option exn * FS.
Variable fs_close : FS -> option exn * FS.

Lemma settles_call_fs : forall ev op,
  exceptions [ev] = [] -> settles (call_fs FS ev op).
Proof.
  intros ev op Hev w. unfold call_fs, bind, emit. cbn [env console trace].
  destruct (op (env w)) as [[e |] fs]; cbn [throw ret fst snd env console trace].
  - exists [ev; EvRaised e]. rewrite <- app_assoc. repeat split.
    exists [ev], []. split; reflexivity.
  - exists [ev]. repeat split. exact Hev.
Qed.

Lemma settles_for_each : forall (A : Type) (l : list A) (body : A -> M FS unit),
  (forall x, settles (body x)) -> settles (for_each FS l body).
Proof.
  intros A l body Hbody. induction l as [| x l IH]; cbn.
  - apply settles_ret.
  - apply settles_bind; [apply Hbody | intros _; exact IH].
Qed.

Lemma settles_with_open : forall (A : Type) filename (body : M FS A),
  settles body -> settles (with_open FS fs_open fs_close filename body).
Proof.
  intros A filename body Hbody. unfold with_open.
  apply settles_bind; [apply settles_call_fs; reflexivity |]. intros _ w.
  destruct (Hbody w) as [tr1 [Ht1 [Hc1 Hr1]]].
  assert (Hclose : settles (close_file FS fs_close))
    by (apply settles_call_fs; reflexivity).
  destruct (body w) as [[a | e |] w1]; cbn [fst snd] in *.
  - unfold bind. destruct (Hclose w1) as [tr2 [Ht2 [Hc2 Hr2]]].
    destruct (close_file FS fs_close w1) as [[u | e' |] w2];
      cbn [fst snd ret] in *.
    + exists (tr1 ++ tr2)%list. split; [| split].
      * rewrite Ht2, Ht1. symmetry. apply app_assoc.
      * congruence.
      * exact (settles_then tr1 tr2 None None Hr1 Hr2).
    + exists (tr1 ++ tr2)%list. split; [| split].
      * rewrite Ht2, Ht1. symmetry. apply app_assoc.
      * congruence.
      * exact (settles_then tr1 tr2 None (Some e') Hr1 Hr2).
    + destruct Hr2.
  - destruct (Hclose w1) as [tr2 [Ht2 [Hc2 Hr2]]].
    destruct (close_file FS fs_close w1) as [[u | e' |] w2];
      cbn [fst snd] in *.
    + exists (tr1 ++ tr2)%list. split; [| split].
      * rewrite Ht2, Ht1. symmetry. apply app_assoc.
      * congruence.
      * exact (settles_then tr1 tr2 (Some e) None Hr1 Hr2).
    + exists (tr1 ++ tr2)%list. split; [| split].
      * rewrite Ht2, Ht1. symmetry. apply app_assoc.
      * congruence.
      * exact (settles_then tr1 tr2 (Some e) (Some e') Hr1 Hr2).
    + destruct Hr2.
  - destruct Hr1.
Qed.

(** X14.  The export never raises.  It returns [True] after printing that the
    categories were saved when no file operation has failed, and [False]
    after printing the last error otherwise; it prints nothing else. *)
Theorem export_reports_failure_as_false :
  forall (categories : list (string * list Email)) filename w,
  exists b w',
    save_categories_to_file fs_open fs_writerow fs_close categories filename w
    = (Ok b, w')
    /\ (b = true <-> exceptions (events_since w w') = [])
    /\ lines_since w w'
       = [if b then "Categories saved to " ++ filename
          else "Error saving to file: "
                 ++ str_exn (last (exceptions (events_since w w'))
                                  (LibraryError ""))].
Proof.
  intros categories filename w.
  assert (Hwith : settles
            (with_open FS fs_open fs_close filename
               (writerow FS fs_writerow fieldnames;;
                for_each FS categories (fun item =>
                  for_each FS (snd item) (fun email =>
                    writerow FS fs_writerow (csv_row (fst item) email)))))).
  { apply settles_with_open. apply settles_bind.
    - apply settles_call_fs. reflexivity.
    - intros _. apply settles_for_each. intros item.
      apply settles_for_each. intros email. apply settles_call_fs. reflexivity. }
  unfold save_categories_to_file, try_except. unfold bind at 1.
  destruct (Hwith w) as [tr [Htr [Hconsole Hr]]].
  destruct (with_open FS fs_open fs_close filename _ w) as [[u | e |] w1];
    cbn [fst snd] in *.
  - unfold bind, print, ret. cbn [fst snd].
    eexists true, _. split; [reflexivity |].
    rewrite (events_since_app _ _ w _ tr) by exact Htr.
    rewrite (lines_since_app _ _ w _ ["Categories saved to " ++ filename])
      by (cbn [console]; rewrite Hconsole; reflexivity).
    split; [split; auto | reflexivity].
  - unfold bind, print, ret. cbn [fst snd].
    eexists false, _. split; [reflexivity |].
    destruct Hr as [tr0 [tr1 [-> Hnone]]].
    rewrite (events_since_app _ _ w _ (tr0 ++ EvRaised e :: tr1)) by exact Htr.
    rewrite (lines_since_app _ _ w _ ["Error saving to file: " ++ str_exn e])
      by (cbn [console]; rewrite Hconsole; reflexivity).
    split.
    + split; [discriminate |]. intros H. rewrite exceptions_app in H.
      apply app_eq_nil in H. destruct H as [_ H]. discriminate.
    + rewrite (exceptions_last tr0 tr1 e _ Hnone). reflexivity.
  - destruct Hr.
Qed.
End ExportOutcome.

(** ** What the export leaves behind *)

Lemma rows_written_app : forall tr1 tr2,
  rows_written (tr1 ++ tr2) = (rows_written tr1 ++ rows_written tr2)%list.
Proof. intros. apply flat_map_app. Qed.

Section Writing.
Context {E : Type}.

Lemma writes_ret : forall (A : Type) (a : A), writes [] (ret a : M E A).
Proof.
  intros A a w. exists [], 0%nat. cbn. rewrite app_nil_r.
  repeat split; [constructor | lia].
Qed.

Lemma writes_bind : forall (A B : Type) rows1 rows2 (c : M E A) (k : A -> M E B),
  writes rows1 c -> (forall a, writes rows2 (k a)) ->
  writes (rows1 ++ rows2) (bind c k).
Proof.
  intros A B rows1 rows2 c k Hc Hk w. unfold bind.
  destruct (Hc w) as [tr1 [n1 [Ht1 [Hp1 [Hrows1 Hr1]]]]].
  assert (Hstop : rows_written tr1
                  = firstn (Nat.min n1 (List.length rows1)) (rows1 ++ rows2)).
  { rewrite Hrows1, firstn_app.
    replace (Nat.min n1 (List.length rows1) - List.length rows1)%nat with 0%nat by lia.
    rewrite firstn_O, app_nil_r.
    destruct (Nat.le_ge_cases n1 (List.length rows1)) as [Hle | Hge].
    - rewrite Nat.min_l by exact Hle. reflexivity.
    - rewrite Nat.min_r by exact Hge. rewrite !firstn_all2 by lia. reflexivity. }
  destruct (c w) as [[a | e |] w1]; cbn [fst snd] in *.
  - destruct (Hk a w1) as [tr2 [n2 [Ht2 [Hp2 [Hrows2 Hr2]]]]].
    exists (tr1 ++ tr2)%list, (List.length rows1 + n2)%nat.
    split; [| split; [| split]].
    + rewrite Ht2, Ht1. symmetry. apply app_assoc.
    + apply Forall_app. split; assumption.
    + rewrite rows_written_app, Hrows1, Hrows2, firstn_app.
      rewrite (firstn_all2 rows1) by lia.
      rewrite (firstn_all2 (n := List.length rows1 + n2) rows1) by lia.
      replace (List.length rows1 + n2 - List.length rows1)%nat with n2 by lia.
      reflexivity.
    + destruct (fst (k a w1)); [rewrite length_app; lia | exact I | exact I].
  - exists tr1, (Nat.min n1 (List.length rows1)). repeat split; assumption.
  - exists tr1, (Nat.min n1 (List.length rows1)). repeat split; assumption.
Qed.
End Writing.

Section ExportShape.
Variable FS : Type.
Variable fs_open : FS -> string -> option exn * FS.
Variable fs_writerow : FS -> list string -> option exn * FS.
Variable fs_close : FS -> option exn * FS.

Lemma writes_writerow : forall row, writes [row] (writerow FS fs_writerow row).
Proof.
  intros row w. unfold writerow, call_fs, bind, emit. cbn [env console trace].
  destruct (fs_writerow (env w) row) as [[e |] fs]; cbn [throw ret fst snd trace].
  - exists [EvWriteRow row; EvRaised e], 1%nat. rewrite <- app_assoc.
    repeat split. repeat constructor.
  - exists [EvWriteRow row], 1%nat. repeat split; [repeat constructor | cbn; lia].
Qed.

Lemma writes_for_each :
  forall (A : Type) (rows_of : A -> list (list string)) (body : A -> M FS unit) l,
    (forall x, writes (rows_of x) (body x)) ->
    writes (flat_map rows_of l) (for_each FS l body).
Proof.
  intros A rows_of body l Hbody. induction l as [| x l IH]; cbn.
  - apply writes_ret.
  - apply writes_bind; [apply Hbody | intros _; exact IH].
Qed.

Lemma writes_all_rows : forall categories : list (string * list Email),
  writes (csv_rows categories)
         (writerow FS fs_writerow fieldnames;;
          for_each FS categories (fun item =>
            for_each FS (snd item) (fun email =>
              writerow FS fs_writerow (csv_row (fst item) email)))).
Proof.
  intros categories. unfold csv_rows.
  change (fieldnames :: flat_map (fun item => map (csv_row (fst item)) (snd item))
                                 categories)
    with ([fieldnames]
            ++ flat_map (fun item => map (csv_row (fst item)) (snd item))
                        categories)%list.
  apply writes_bind; [apply writes_writerow |]. intros _.
  apply writes_for_each. intros item.
  replace (map (csv_row (fst item)) (snd item))
    with (flat_map (fun email => [csv_row (fst item) email]) (snd item))
    by (induction (snd item) as [| e l IH]; cbn; [| rewrite IH]; reflexivity).
  apply writes_for_each. intros email. apply writes_writerow.
Qed.

Lemma with_open_run : forall (A : Type) filename (body : M FS A) w,
  with_open FS fs_open fs_close filename body w
  = match fs_open (env w) filename with
    | (Some e, fs1) =>
        (Raise e,
         mkWorld fs1 (console w) (trace w ++ [EvOpen filename; EvRaised e])%list)
    | (None, fs1) =>
        match body (mkWorld fs1 (console w) (trace w ++ [EvOpen filename])%list) with
        | (Ok a, w2) => (close_file FS fs_close;; ret a) w2
        | (Raise e, w2) =>
            match close_file FS fs_close w2 with
            | (Ok _, w3) => (Raise e, w3)
            | (Raise e', w3) => (Raise e', w3)
            | (Diverge, w3) => (Diverge, w3)
            end
        | (Diverge, w2) => (Diverge, w2)
        end
    end.
Proof.
  intros A filename body w. unfold with_open, open_file, call_fs.
  unfold bind at 1 2. unfold emit. cbn [env console trace].
  destruct (fs_open (env w) filename) as [[e |] fs1];
    cbn [throw ret env console trace]; rewrite <- ?app_assoc; reflexivity.
Qed.

Lemma close_file_run : forall w,
  exists closing,
    trace (snd (close_file FS fs_close w)) = (trace w ++ EvClose :: closing)%list
    /\ (closing = [] \/ exists e, closing = [EvRaised e])
    /\ fst (close_file FS fs_close w) <> Diverge.
Proof.
  intros w. unfold close_file, call_fs, bind, emit. cbn [env console trace].
  destruct (fs_close (env w)) as [[e |] fs]; cbn [throw ret fst snd trace].
  - exists [EvRaised e]. rewrite <- app_assoc.
    split; [reflexivity |]. split; [eauto | discriminate].
  - exists []. split; [reflexivity |]. split; [auto | discriminate].
Qed.

Lemma save_run : forall (categories : list (string * list Email)) filename w,
  save_categories_to_file fs_open fs_writerow fs_close categories filename w
  = match with_open FS fs_open fs_close filename
            (writerow FS fs_writerow fieldnames;;
             for_each FS categories (fun item =>
               for_each FS (snd item) (fun email =>
                 writerow FS fs_writerow (csv_row (fst item) email)))) w with
    | (Ok _, w1) =>
        (Ok true,
         mkWorld (env w1)
                 (console w1 ++ [("Categories saved to " ++ filename)%string])%list
                 (trace w1))
    | (Raise e, w1) =>
        (Ok false,
         mkWorld (env w1)
                 (console w1 ++ [("Error saving to file: " ++ str_exn e)%string])%list
                 (trace w1))
    | (Diverge, w1) => (Diverge, w1)
    end.
Proof.
  intros categories filename w. unfold save_categories_to_file, try_except.
  set (c := with_open FS fs_open fs_close filename _).
  unfold bind, print, ret. destruct (c w) as [[u | e |] w1]; reflexivity.
Qed.

(** X15.  The export opens the destination once.  If that fails, nothing is
    handed to the writer and nothing is closed.  Otherwise the rows handed
    to the writer are the header and the rows of the records, in order, up
    to the first failure, and then the file is closed, exactly once, also
    after a failure. *)
Theorem export_closes_what_it_opened :
  forall (categories : list (string * list Email)) filename w,
    let tr :=
      events_since w
        (snd (save_categories_to_file fs_open fs_writerow fs_close
                categories filename w)) in
    match fs_open (env w) filename with
    | (Some e, _) => tr = [EvOpen filename; EvRaised e]
    | (None, _) =>
        exists written closing n,
          tr = (EvOpen filename :: written ++ EvClose :: closing)%list
          /\ Forall writer_event written
          /\ rows_written written = firstn n (csv_rows categories)
          /\ (closing = [] \/ exists e, closing = [EvRaised e])
    end.
Proof.
  intros categories filename w tr. unfold tr. clear tr.
  rewrite save_run, with_open_run.
  destruct (fs_open (env w) filename) as [[e |] fs1].
  - cbn [snd trace]. apply events_since_app. reflexivity.
  - set (w1 := mkWorld fs1 (console w) (trace w ++ [EvOpen filename])%list).
    destruct (writes_all_rows categories w1) as [written [n [Ht [Hp [Hrows _]]]]].
    assert (Hs : settles
              (writerow FS fs_writerow fieldnames;;
               for_each FS categories (fun item =>
                 for_each FS (snd item) (fun email =>
                   writerow FS fs_writerow (csv_row (fst item) email))))).
    { apply settles_bind.
      - apply (settles_call_fs FS). reflexivity.
      - intros _. apply (settles_for_each FS). intros item.
        apply (settles_for_each FS). intros email.
        apply (settles_call_fs FS). reflexivity. }
    destruct (Hs w1) as [tr' [_ [_ Hr]]].
    destruct ((writerow FS fs_writerow fieldnames;;
               for_each FS categories (fun item =>
                 for_each FS (snd item) (fun email =>
                   writerow FS fs_writerow (csv_row (fst item) email)))) w1)
      as [[u | e |] w2]; cbn [fst snd] in Ht, Hr; [| | destruct Hr].
    + unfold bind. destruct (close_file_run w2) as [closing [Htc [Hshape Hfin]]].
      destruct (close_file FS fs_close w2) as [[u' | e' |] w3];
        cbn [fst snd] in Htc, Hfin; [| | congruence];
        cbn [ret fst snd trace];
        exists written, closing, n;
        (split; [| split; [exact Hp | split; [exact Hrows | exact Hshape]]]);
        apply events_since_app; cbn [trace]; rewrite Htc, Ht; unfold w1; cbn [trace];
        rewrite <- !app_assoc; reflexivity.
    + destruct (close_file_run w2) as [closing [Htc [Hshape Hfin]]].
      destruct (close_file FS fs_close w2) as [[u' | e' |] w3];
        cbn [fst snd] in Htc, Hfin; [| | congruence];
        cbn [ret fst snd trace];
        exists written, closing, n;
        (split; [| split; [exact Hp | split; [exact Hrows | exact Hshape]]]);
        apply events_since_app; cbn [trace]; rewrite Htc, Ht; unfold w1; cbn [trace];
        rewrite <- !app_assoc; reflexivity.
Qed.
End ExportShape.

(** ** The authentication *)

Lemma calls_since_app : forall (A C : Type) (w w' : world (AuthEnv A C)) calls,
  auth_log (env w') = (auth_log (env w) ++ calls)%list ->
  calls_since w w' = calls.
Proof.
  intros A C w w' calls H. unfold calls_since. rewrite H. clear H.
  induction (auth_log (env w)) as [| c l IH]; [reflexivity | exact IH].
Qed.

Lemma Ok_pair : forall (A W : Type) (a b : A) (w w' : W),
  (Ok a, w) = (Ok b, w') -> a = b /\ w = w'.
Proof. intros A W a b w w' H. injection H as -> ->. split; reflexivity. Qed.

Section AuthenticationTheorems.
Variable A : Type.
Variable Credentials : Type.
Variable valid : Credentials -> bool.
Variable expired : Credentials -> bool.
Variable has_refresh_token : Credentials -> bool.
Variable Flow : Type.
Variable Handle : Type.
Variable path_exists : A -> string -> bool.
Variable pickle_load : A -> string -> (exn + option Credentials) * A.
Variable creds_refresh : A -> Credentials -> (exn + Credentials) * A.
Variable from_client_secrets_file :
  A -> string -> list string -> (exn + Flow) * A.
Variable run_local_server :
  A -> Flow -> Z -> string -> string -> (exn + Credentials) * A.
Variable pickle_dump : A -> string -> Credentials -> option exn * A.
Variable build : A -> string -> string -> Credentials -> (exn + Handle) * A.


(** A logged call, case by case. *)
Lemma auth_ask_run : forall (R : Type) call (op : A -> (exn + R) * A) w,
  auth_ask A Credentials call op w
  = match op (auth_state (env w)) with
    | (inl e, a) =>
        (Raise e,
         mkWorld (mkAuthEnv a (auth_log (env w) ++ [call])%list)
                 (console w) (trace w ++ [EvRaised e])%list)
    | (inr r, a) =>
        (Ok r,
         mkWorld (mkAuthEnv a (auth_log (env w) ++ [call])%list)
                 (console w) (trace w))
    end.
Proof.
  intros R call op w. unfold auth_ask.
  destruct (op (auth_state (env w))) as [[e | r] a]; reflexivity.
Qed.

Ltac auth_step :=
  match goal with
  | |- context [pickle_load ?a ?p] =>
      destruct (pickle_load a p) as [[? | [? |]] ?]
  | |- context [creds_refresh ?a ?c] =>
      destruct (creds_refresh a c) as [[? | ?] ?]
  | |- context [from_client_secrets_file ?a ?p ?s] =>
      destruct (from_client_secrets_file a p s) as [[? | ?] ?]
  | |- context [run_local_server ?a ?f ?p ?q ?m] =>
      destruct (run_local_server a f p q m) as [[? | ?] ?]
  | |- context [pickle_dump ?a ?p ?c] =>
      destruct (pickle_dump a p c) as [[? |] ?]
  | |- context [build ?a ?s ?v ?c] =>
      destruct (build a s v c) as [[? | ?] ?] eqn:?
  | |- context [path_exists ?a ?p] =>
      destruct (path_exists a p)
  | |- context [if valid ?c then _ else _] => destruct (valid c) eqn:?
  | |- context [if expired ?c && has_refresh_token ?c then _ else _] =>
      destruct (expired c) eqn:?; destruct (has_refresh_token c) eqn:?;
      cbn [andb]
  end.

Ltac auth_run :=
  unfold authenticate_gmail, load_cached, consent, save_token, bind;
  repeat first [ rewrite auth_ask_run
               | progress cbn [ret fst snd env console trace auth_state auth_log]
               | auth_step ].

(** The authentication prints nothing, comes to an end, and leaves an
    event only for the exception it ends with. *)
Lemma authenticate_world : forall w r w',
  authenticate_gmail A Credentials valid expired has_refresh_token Flow Handle
    path_exists pickle_load creds_refresh from_client_secrets_file
    run_local_server pickle_dump build w = (r, w') ->
  console w' = console w
  /\ trace w' = (trace w ++ match r with Raise e => [EvRaised e] | _ => [] end)%list
  /\ r <> Diverge.
Proof.
  intros w r w'. auth_run.
  all: intros H; injection H as <- <-; cbn [console trace].
  all: rewrite ?app_nil_r; repeat split; discriminate.
Qed.

Ltac calls_now :=
  erewrite calls_since_app
    by (cbn [env auth_log]; rewrite <- ?app_assoc; cbn [app]; reflexivity).

(** X16.  A service is built from credentials that are on disk: either the valid
    ones that [token.pickle] held, after three calls and without writing
    anything, or the ones written to [token.pickle] in the call just before
    the service was built. *)
Theorem authenticate_builds_from_the_stored_token : forall w service w',
  authenticate_gmail A Credentials valid expired has_refresh_token Flow Handle
    path_exists pickle_load creds_refresh from_client_secrets_file
    run_local_server pickle_dump build w = (Ok service, w') ->
  exists creds,
    (exists a, fst (build a "gmail" "v1" creds) = inr service)
    /\ ((valid creds = true
         /\ calls_since w w'
            = [CallExists "token.pickle"; CallLoad "token.pickle";
               CallBuild "gmail" "v1" creds])
        \/ exists before,
             calls_since w w'
             = (before ++ [CallDump "token.pickle" creds;
                           CallBuild "gmail" "v1" creds])%list).
Proof.
  intros w service w'. auth_run.
  all: intros H; try discriminate H; apply Ok_pair in H; destruct H as [<- <-].
  all: eexists; split;
    [eexists; match goal with Hb : build _ _ _ _ = _ |- _ => rewrite Hb end;
     reflexivity |].
  all: calls_now.
  all: first [ left; split; [assumption | reflexivity]
             | right;
               match goal with
               | |- exists before, ?l = _ =>
                   exists (firstn (List.length l - 2)%nat l)
               end; reflexivity ].
Qed.

(** X17.  Credentials are refreshed only when they came from [token.pickle], are
    not valid, have expired and carry a refresh token; and a run that
    refreshes never starts the consent flow, also when the refresh fails. *)
Theorem authenticate_refreshes_instead_of_asking : forall w r w' c,
  authenticate_gmail A Credentials valid expired has_refresh_token Flow Handle
    path_exists pickle_load creds_refresh from_client_secrets_file
    run_local_server pickle_dump build w = (r, w') ->
  In (CallRefresh c) (calls_since w w') ->
  valid c = false /\ expired c = true /\ has_refresh_token c = true
  /\ firstn 3 (calls_since w w')
     = [CallExists "token.pickle"; CallLoad "token.pickle"; CallRefresh c]
  /\ existsb is_consent (calls_since w w') = false.
Proof.
  intros w r w' c0. auth_run.
  all: intros H; injection H as <- <-; calls_now.
  all: cbn [In]; intros Hin.
  all: repeat match goal with
              | H : _ \/ _ |- _ => destruct H as [H | H]
              | H : False |- _ => destruct H
              end; try discriminate.
  all: match goal with H : CallRefresh _ = CallRefresh _ |- _ => injection H as <- end.
  all: repeat split; assumption || reflexivity.
Qed.
End AuthenticationTheorems.

(** ** The grouping of the records *)

Lemma absent_In : forall keys x, absent keys x = false <-> In x keys.
Proof.
  intros keys x. unfold absent. rewrite negb_false_iff, existsb_exists. split.
  - intros [y [Hin Heq]]. apply String.eqb_eq in Heq. subst. exact Hin.
  - intros Hin. exists x. split; [exact Hin | apply String.eqb_refl].
Qed.

Lemma absent_app : forall keys x c,
  absent (keys ++ [c]) x = absent keys x && negb (String.eqb x c).
Proof.
  intros keys x c. unfold absent. rewrite existsb_app. cbn.
  rewrite orb_false_r, negb_orb. reflexivity.
Qed.

Lemma filter_filter : forall (A : Type) (f g : A -> bool) l,
  filter f (filter g l) = filter (fun x => g x && f x) l.
Proof.
  intros A f g l. induction l as [| x l IH]; cbn; [reflexivity |].
  destruct (g x); cbn; [destruct (f x) |]; rewrite IH; reflexivity.
Qed.

Lemma in_category_eq : forall key email category,
  email_category email = Some category ->
  in_category key email = String.eqb category key.
Proof. intros key email category H. unfold in_category. rewrite H. reflexivity. Qed.

(** Appending to the group of a key that is there changes that group only. *)
Lemma dict_append_present : forall category email rest acc,
  email_category email = Some category ->
  NoDup (map fst acc) ->
  In category (map fst acc) ->
  map fst (dict_append category email acc) = map fst acc
  /\ map (fun item => (fst item, snd item ++ filter (in_category (fst item)) rest)%list)
         (dict_append category email acc)
     = map (fun item => (fst item,
                         snd item ++ filter (in_category (fst item)) (email :: rest))%list)
           acc.
Proof.
  intros category email rest acc Hcat. induction acc as [| [key group] acc IH];
    intros Hnodup Hin; [destruct Hin |].
  cbn [map fst] in Hnodup. inversion Hnodup as [| k ks Hnotin Hnodup']; subst.
  cbn [dict_append]. destruct (String.eqb key category) eqn:Hkey.
  - apply String.eqb_eq in Hkey. subst key. cbn [map fst snd]. split; [reflexivity |].
    f_equal.
    + cbn [filter]. rewrite (in_category_eq _ _ _ Hcat), String.eqb_refl.
      rewrite <- app_assoc. reflexivity.
    + apply map_ext_in. intros [k g] Hkg. cbn [fst snd filter].
      rewrite (in_category_eq _ _ _ Hcat).
      destruct (String.eqb category k) eqn:Hk; [| reflexivity].
      apply String.eqb_eq in Hk. subst k. destruct Hnotin.
      apply (in_map fst) in Hkg. exact Hkg.
  - cbn [map fst snd] in *. destruct Hin as [Hin | Hin];
      [subst key; rewrite String.eqb_refl in Hkey; discriminate |].
    destruct (IH Hnodup' Hin) as [IH1 IH2]. rewrite IH1, IH2. split; [reflexivity |].
    f_equal. cbn [filter]. rewrite (in_category_eq _ _ _ Hcat).
    rewrite String.eqb_sym, Hkey. reflexivity.
Qed.

Lemma dict_append_absent : forall category email acc,
  ~ In category (map fst acc) ->
  dict_append category email acc = (acc ++ [(category, [email])])%list.
Proof.
  intros category email acc. induction acc as [| [key group] acc IH]; intros Hnotin;
    [reflexivity |].
  cbn [dict_append]. cbn [map fst] in Hnotin.
  destruct (String.eqb key category) eqn:Hkey.
  - apply String.eqb_eq in Hkey. destruct Hnotin. left. exact Hkey.
  - rewrite IH by (intros H; apply Hnotin; right; exact H). reflexivity.
Qed.

Lemma group_by_category_run : forall emails acc,
  NoDup (map fst acc) ->
  Forall (fun email => email_category email <> None) emails ->
  group_by_category emails acc
  = inr (map (fun item => (fst item,
                           snd item ++ filter (in_category (fst item)) emails))
             acc
         ++ map (fun key => (key, filter (in_category key) emails))
                (filter (absent (map fst acc)) (first_seen (labels_of emails))))%list.
Proof.
  induction emails as [| email rest IH]; intros acc Hnodup Hall.
  - cbn. rewrite app_nil_r. f_equal. symmetry.
    erewrite map_ext; [apply map_id |]. intros [k g]. cbn.
    rewrite app_nil_r. reflexivity.
  - inversion Hall as [| e es Hcat Hrest]; subst.
    destruct (email_category email) as [category |] eqn:Hc; [| congruence].
    cbn [group_by_category]. rewrite Hc. cbn [getitem and_then].
    assert (Hlabels : labels_of (email :: rest) = category :: labels_of rest).
    { unfold labels_of. cbn [flat_map]. rewrite Hc. reflexivity. }
    rewrite Hlabels. cbn [first_seen filter].
    destruct (absent (map fst acc) category) eqn:Habs.
    + assert (Hnotin : ~ In category (map fst acc)).
      { intros Hin. apply absent_In in Hin. congruence. }
      rewrite (dict_append_absent _ _ _ Hnotin).
      assert (Hnodup' : NoDup (map fst (acc ++ [(category, [email])])%list)).
      { rewrite map_app. cbn [map fst]. apply NoDup_app; [exact Hnodup | |].
        - constructor; [intros [] | constructor].
        - intros a Ha [Hb | []]. subst a. exact (Hnotin Ha). }
      rewrite (IH _ Hnodup' Hrest).
      * rewrite !map_app. cbn [map fst snd app]. rewrite <- app_assoc. cbn [app].
        f_equal. f_equal.
        -- apply map_ext_in. intros [k g] Hkg. cbn [fst snd filter].
           rewrite (in_category_eq _ _ _ Hc).
           destruct (String.eqb category k) eqn:Hk; [| reflexivity].
           apply String.eqb_eq in Hk. subst k. destruct Hnotin.
           apply (in_map fst) in Hkg. exact Hkg.
        -- f_equal.
           ++ cbn [filter]. rewrite (in_category_eq _ _ _ Hc), String.eqb_refl.
              reflexivity.
           ++ rewrite filter_filter.
              rewrite (filter_ext (absent (map fst acc ++ [category]))
                         (fun x => negb (String.eqb x category) && absent (map fst acc) x))
                by (intros x; rewrite absent_app; apply andb_comm).
              apply map_ext_in. intros k Hk. apply filter_In in Hk.
              destruct Hk as [_ Hk]. apply andb_true_iff in Hk. destruct Hk as [Hk _].
              cbn [filter]. rewrite (in_category_eq _ _ _ Hc).
              rewrite String.eqb_sym. apply negb_true_iff in Hk. rewrite Hk. reflexivity.
    + assert (Hin : In category (map fst acc)) by (apply absent_In; exact Habs).
      destruct (dict_append_present category email rest acc Hc Hnodup Hin) as [Hkeys Hmap].
      rewrite IH; [| rewrite Hkeys; exact Hnodup | exact Hrest].
      rewrite Hkeys, Hmap. f_equal. f_equal.
      rewrite filter_filter.
      rewrite (filter_ext (fun x => negb (String.eqb x category) && absent (map fst acc) x)
                 (absent (map fst acc))).
      * apply map_ext_in. intros k Hk. apply filter_In in Hk. destruct Hk as [_ Hk].
        cbn [filter]. rewrite (in_category_eq _ _ _ Hc).
        destruct (String.eqb category k) eqn:Hck; [| reflexivity].
        apply String.eqb_eq in Hck. subst k. congruence.
      * intros x. destruct (String.eqb x category) eqn:Hx; [| reflexivity].
        apply String.eqb_eq in Hx. subst x. rewrite Habs. reflexivity.
Qed.

Lemma filter_all_true : forall (A : Type) (f : A -> bool) l,
  (forall x, f x = true) -> filter f l = l.
Proof.
  intros A f l H. induction l as [| x l IH]; cbn; [reflexivity |].
  rewrite H, IH. reflexivity.
Qed.

Lemma group_by_category_KeyError : forall emails acc,
  forallb has_category emails = false ->
  group_by_category emails acc = inl (KeyError "category").
Proof.
  induction emails as [| email rest IH]; intros acc H; [discriminate |].
  cbn [forallb] in H. cbn [group_by_category]. unfold has_category in H at 1.
  destruct (email_category email) as [category |]; [| reflexivity].
  cbn [getitem and_then]. apply IH. exact H.
Qed.

(** X18.  The grouping of [main] is a [KeyError] when a record has no category.
    Otherwise it lists the categories in the order in which they first
    occur among the records, each with all the records of that category, in
    the order of the records. *)
Theorem grouping_follows_first_occurrence : forall emails,
  group_by_category emails []
  = if forallb has_category emails
    then inr (map (fun key => (key, filter (in_category key) emails))
                  (first_seen (labels_of emails)))
    else inl (KeyError "category").
Proof.
  intros emails. destruct (forallb has_category emails) eqn:Hall.
  - rewrite group_by_category_run.
    + cbn [map app fst]. rewrite filter_all_true by reflexivity. reflexivity.
    + constructor.
    + rewrite forallb_forall in Hall. apply Forall_forall. intros email Hin.
      specialize (Hall email Hin). unfold has_category in Hall.
      destruct (email_category email); [discriminate | discriminate].
  - apply group_by_category_KeyError. exact Hall.
Qed.

Lemma dict_append_perm : forall category email acc,
  Permutation (flat_map snd (dict_append category email acc))
              (flat_map snd acc ++ [email]).
Proof.
  intros category email acc. induction acc as [| [key group] acc IH]; cbn.
  - reflexivity.
  - destruct (String.eqb key category); cbn.
    + rewrite <- !app_assoc. apply Permutation_app_head. apply Permutation_app_comm.
    + rewrite <- app_assoc. apply Permutation_app_head. exact IH.
Qed.

Lemma dict_append_groups : forall category email acc,
  Forall (fun item => snd item <> []) acc ->
  Forall (fun item : string * list Email => snd item <> [])
         (dict_append category email acc).
Proof.
  intros category email acc H. induction H as [| [key group] acc Hx H IH]; cbn.
  - constructor; [discriminate | constructor].
  - destruct (String.eqb key category).
    + constructor; [| exact H]. cbn. destruct group; discriminate.
    + constructor; [exact Hx | exact IH].
Qed.

Lemma dict_append_keys : forall category email acc,
  NoDup (map fst acc) -> NoDup (map fst (dict_append category email acc)).
Proof.
  intros category email acc Hnodup.
  destruct (absent (map fst acc) category) eqn:Habs.
  - assert (Hnotin : ~ In category (map fst acc)).
    { intros Hin. apply absent_In in Hin. congruence. }
    rewrite (dict_append_absent _ _ _ Hnotin), map_app. cbn [map fst].
    apply NoDup_app; [exact Hnodup | |].
    + constructor; [intros [] | constructor].
    + intros a Ha [Hb | []]. subst a. exact (Hnotin Ha).
  - apply absent_In in Habs.
    induction acc as [| [key group] acc IH]; [destruct Habs |].
    cbn [dict_append]. destruct (String.eqb key category) eqn:Hkey; [exact Hnodup |].
    cbn [map fst] in *. inversion Hnodup as [| k ks Hnotin Hnodup']; subst.
    destruct Habs as [Heq | Hin];
      [subst key; rewrite String.eqb_refl in Hkey; discriminate |].
    constructor; [| apply IH; assumption].
    intros Hk. apply Hnotin. clear IH Hnotin Hnodup Hnodup'.
    induction acc as [| [key' group'] acc IH]; [destruct Hin |].
    cbn [dict_append map fst] in *. destruct (String.eqb key' category) eqn:Hkey'.
    + exact Hk.
    + cbn [map fst] in Hk. destruct Hk as [Hk | Hk]; [left; exact Hk |].
      destruct Hin as [Hin | Hin];
        [subst key'; rewrite String.eqb_refl in Hkey'; discriminate |].
      right. apply IH; assumption.
Qed.

Lemma group_by_category_partition : forall emails acc categories,
  group_by_category emails acc = inr categories ->
  NoDup (map fst acc) ->
  Forall (fun item => snd item <> []) acc ->
  NoDup (map fst categories)
  /\ Forall (fun item => snd item <> []) categories
  /\ Permutation (flat_map snd categories) (flat_map snd acc ++ emails).
Proof.
  induction emails as [| email rest IH]; intros acc categories H Hnodup Hgroups.
  - cbn in H. injection H as <-. rewrite app_nil_r. auto.
  - cbn [group_by_category] in H.
    destruct (email_category email) as [category |]; [| discriminate].
    cbn [getitem and_then] in H.
    destruct (IH _ _ H (dict_append_keys category email acc Hnodup)
                 (dict_append_groups category email acc Hgroups))
      as [H1 [H2 H3]].
    split; [exact H1 | split; [exact H2 |]].
    rewrite H3. rewrite (dict_append_perm category email acc).
    rewrite <- app_assoc. reflexivity.
Qed.

(** X19.  A grouping that succeeds keeps every record: no category is listed
    twice, no group is empty, and the groups together hold the records that
    were grouped, each as often as it was there. *)
Theorem grouping_loses_no_record : forall emails categories,
  group_by_category emails [] = inr categories ->
  NoDup (map fst categories)
  /\ Forall (fun item => snd item <> []) categories
  /\ Permutation (flat_map snd categories) emails.
Proof.
  intros emails categories H.
  apply (group_by_category_partition emails [] categories H); constructor.
Qed.

(** ** The categorizer's events and lines *)

Lemma files_opened_app : forall tr1 tr2,
  files_opened (tr1 ++ tr2) = (files_opened tr1 ++ files_opened tr2)%list.
Proof. intros. unfold files_opened. apply flat_map_app. Qed.

Lemma categorizer_events_write_nothing : forall tr,
  Forall categorizer_event tr -> files_opened tr = [] /\ rows_written tr = [].
Proof.
  intros tr H. induction H as [| ev tr Hev H [IH1 IH2]]; [split; reflexivity |].
  destruct ev; try destruct Hev; cbn; auto.
Qed.

Lemma fetch_events_open_nothing : forall tr,
  Forall fetch_event tr -> files_opened tr = [].
Proof.
  intros tr H. induction H as [| ev tr Hev H IH]; [reflexivity |].
  destruct ev; try destruct Hev; cbn; auto.
Qed.

Lemma writer_events_open_nothing : forall tr,
  Forall writer_event tr -> files_opened tr = [].
Proof.
  intros tr H. induction H as [| ev tr Hev H IH]; [reflexivity |].
  destruct ev; try destruct Hev; cbn; auto.
Qed.

Lemma writer_events_rows : forall tr,
  Forall writer_event tr -> exceptions tr = [] ->
  tr = map EvWriteRow (rows_written tr).
Proof.
  intros tr H. induction H as [| ev tr Hev H IH]; intros Hnone; [reflexivity |].
  destruct ev; try destruct Hev; cbn in *; [| discriminate].
  f_equal. exact (IH Hnone).
Qed.

Lemma exceptions_In : forall e tr, In e (exceptions tr) -> In (EvRaised e) tr.
Proof.
  intros e tr. induction tr as [| ev tr IH]; cbn; [auto |].
  destruct ev; cbn; auto. intros [-> | H]; auto.
Qed.

Lemma last_In : forall (A : Type) (l : list A) d, l <> [] -> In (last l d) l.
Proof.
  intros A l d. induction l as [| x l IH]; intros H; [congruence |].
  destruct l as [| y l]; [left; reflexivity |].
  right. apply IH. discriminate.
Qed.

Lemma rows_written_rows : forall rows, rows_written (map EvWriteRow rows) = rows.
Proof.
  induction rows as [| row rows IH]; [reflexivity |]. cbn. f_equal. exact IH.
Qed.

Section CategorizerEvents.
Context {numpy : Numpy}.
Variables Matrix RNG : Type.
Variable fit_transform :
  TfidfVectorizer -> list string -> exn + (Matrix * list string).
Variable fit : KMeans -> RNG -> Matrix -> (exn + KMeansFitted) * RNG.

Lemma suggest_categories_events : forall emails k (w : world RNG),
  exists tr,
    trace (snd (suggest_categories fit_transform fit emails k w))
    = (trace w ++ tr)%list
    /\ Forall categorizer_event tr
    /\ console (snd (suggest_categories fit_transform fit emails k w))
       = (console w
            ++ map (fun e => ("Error in categorization: " ++ str_exn e)%string)
                   (exceptions tr))%list
    /\ (List.length (exceptions tr) <= 1)%nat.
Proof.
  intros [| email emails] k w.
  - exists []. cbn. rewrite !app_nil_r. auto.
  - rewrite suggest_categories_run. cbv zeta. rewrite cluster_labels_run.
    set (documents := documents_of (email :: emails)).
    set (n := effective_clusters documents k).
    destruct (fit_transform vectorizer documents) as [e | [X names]].
    { exists [EvFitTransform documents; EvRaised e]. cbn.
      repeat split; auto. repeat constructor. }
    cbv zeta. destruct (fit (mkKMeans n (Some 42)) (env w) X) as [[e | fitted] g].
    { exists [EvFitTransform documents; EvKMeansFit n (Some 42); EvRaised e]. cbn.
      repeat split; auto. repeat constructor. }
    destruct (build_categories names (cluster_centers_ fitted) 0 (Z.to_nat n))
      as [e | categories].
    { exists [EvFitTransform documents; EvKMeansFit n (Some 42); EvRaised e]. cbn.
      repeat split; auto. repeat constructor. }
    destruct (assign_categories categories (labels_ fitted) 0 (email :: emails))
      as [out [e |]].
    + exists [EvFitTransform documents; EvKMeansFit n (Some 42); EvRaised e].
      cbn [snd trace console env]. rewrite <- app_assoc. cbn.
      repeat split; auto. repeat constructor.
    + exists [EvFitTransform documents; EvKMeansFit n (Some 42)]. cbn.
      rewrite app_nil_r. repeat split; auto. repeat constructor.
Qed.

(** X13.  The categorizer touches neither the provider nor the file system: all
    its events are calls of the vectorizer, calls of the clustering or
    exceptions, and at most one of them is an exception.  It prints nothing
    unless an exception occurs, and then one line that names the
    exception. *)
Theorem categorizer_prints_only_its_failure : forall emails k (w : world RNG),
  let w' := snd (suggest_categories fit_transform fit emails k w) in
  Forall categorizer_event (events_since w w')
  /\ (List.length (exceptions (events_since w w')) <= 1)%nat
  /\ lines_since w w'
     = map (fun e => ("Error in categorization: " ++ str_exn e)%string)
           (exceptions (events_since w w'))
  /\ files_opened (events_since w w') = []
  /\ rows_written (events_since w w') = []
  /\ list_requests (events_since w w') = []
  /\ get_requests (events_since w w') = [].
Proof.
  intros emails k w w'. unfold w'. clear w'.
  destruct (suggest_categories_events emails k w) as [tr [Ht [Hp [Hc Hone]]]].
  rewrite (events_since_app _ _ w _ tr Ht).
  rewrite (lines_since_app _ _ w _ _ Hc).
  destruct (categorizer_events_write_nothing tr Hp) as [Hno1 Hno2].
  repeat (split; [assumption || reflexivity |]).
  clear Ht Hc Hone Hno1 Hno2.
  induction Hp as [| ev tr Hev Hp [IH1 IH2]]; [split; reflexivity |].
  destruct ev; try destruct Hev; cbn; auto.
Qed.
End CategorizerEvents.

(** ** The outcome of the export *)

Section SaveOutcome.
Variable FS : Type.
Variable fs_open : FS -> string -> option exn * FS.
Variable fs_writerow : FS -> list string -> option exn * FS.
Variable fs_close : FS -> option exn * FS.

Lemma close_file_cases : forall w,
  close_file FS fs_close w
  = match fs_close (env w) with
    | (Some e, fs) =>
        (Raise e, mkWorld fs (console w) (trace w ++ [EvClose; EvRaised e])%list)
    | (None, fs) =>
        (Ok tt, mkWorld fs (console w) (trace w ++ [EvClose])%list)
    end.
Proof.
  intros w. unfold close_file, call_fs, bind, emit. cbn [env console trace].
  destruct (fs_close (env w)) as [[e |] fs]; unfold throw, ret;
    cbn [env console trace]; rewrite <- ?app_assoc; reflexivity.
Qed.

Lemma exceptions_of_rows : forall written,
  exceptions (written ++ [EvClose]) = exceptions written.
Proof. intros. rewrite exceptions_app. cbn. apply app_nil_r. Qed.

Lemma last_snoc : forall (A : Type) (l : list A) x d, last (l ++ [x]) d = x.
Proof. intros. apply last_last. Qed.

(** The export, whatever the file system does. *)
Lemma save_outcome : forall (categories : list (string * list Email)) filename w,
  exists b w' tr,
    save_categories_to_file fs_open fs_writerow fs_close categories filename w
    = (Ok b, w')
    /\ trace w' = (trace w ++ tr)%list
    /\ console w'
       = (console w
            ++ [if b then ("Categories saved to " ++ filename)%string
                else ("Error saving to file: "
                        ++ str_exn (last (exceptions tr) (LibraryError "")))%string])%list
    /\ (b = true <-> exceptions tr = [])
    /\ files_opened tr = [filename]
    /\ (exceptions tr = [] ->
        tr = (EvOpen filename :: map EvWriteRow (csv_rows categories)
                ++ [EvClose])%list).
Proof.
  intros categories filename w. rewrite save_run, with_open_run.
  destruct (fs_open (env w) filename) as [[e |] fs1].
  { exists false, (mkWorld fs1 (console w ++ [("Error saving to file: " ++ str_exn e)%string])
                           (trace w ++ [EvOpen filename; EvRaised e]))%list,
           [EvOpen filename; EvRaised e].
    cbn. repeat split; try discriminate; reflexivity. }
  set (w1 := mkWorld fs1 (console w) (trace w ++ [EvOpen filename])%list).
  destruct (writes_all_rows FS fs_writerow categories w1)
    as [written [n [Ht [Hp [Hrows Hall]]]]].
  assert (Hs : settles
            (writerow FS fs_writerow fieldnames;;
             for_each FS categories (fun item =>
               for_each FS (snd item) (fun email =>
                 writerow FS fs_writerow (csv_row (fst item) email))))).
  { apply settles_bind.
    - apply (settles_call_fs FS). reflexivity.
    - intros _. apply (settles_for_each FS). intros item.
      apply (settles_for_each FS). intros email.
      apply (settles_call_fs FS). reflexivity. }
  destruct (Hs w1) as [tr' [Ht' [Hc Hr]]].
  rewrite Ht in Ht'. apply app_inv_head in Ht'. subst tr'.
  pose proof (writer_events_open_nothing written Hp) as Hnoopen.
  destruct ((writerow FS fs_writerow fieldnames;;
             for_each FS categories (fun item =>
               for_each FS (snd item) (fun email =>
                 writerow FS fs_writerow (csv_row (fst item) email)))) w1)
    as [[u | e |] w2]; cbn [fst snd] in Ht, Hc, Hr, Hall; [| | destruct Hr].
  - unfold bind. rewrite close_file_cases.
    destruct (fs_close (env w2)) as [[e' |] fs2]; cbn [ret env console trace].
    + exists false, (mkWorld fs2 (console w2 ++ [("Error saving to file: " ++ str_exn e')%string])
                             (trace w2 ++ [EvClose; EvRaised e']))%list,
             (EvOpen filename :: written ++ [EvClose; EvRaised e'])%list.
      assert (Hex : exceptions (EvOpen filename :: written ++ [EvClose; EvRaised e'])
                    = [e']).
      { cbn [exceptions flat_map app]. fold (exceptions (written ++ [EvClose; EvRaised e'])).
        rewrite exceptions_app, Hr. reflexivity. }
      rewrite Hex. cbn [last].
      split; [reflexivity |]. split; [| split; [| split; [| split]]].
      * cbn [trace]. rewrite Ht. unfold w1. cbn [trace].
        rewrite <- !app_assoc. reflexivity.
      * cbn [console]. rewrite Hc. reflexivity.
      * split; discriminate.
      * cbn [files_opened flat_map app]. fold (files_opened (written ++ [EvClose; EvRaised e'])).
        rewrite files_opened_app, Hnoopen. reflexivity.
      * discriminate.
    + exists true, (mkWorld fs2 (console w2 ++ [("Categories saved to " ++ filename)%string])
                            (trace w2 ++ [EvClose]))%list,
             (EvOpen filename :: written ++ [EvClose])%list.
      assert (Hex : exceptions (EvOpen filename :: written ++ [EvClose]) = []).
      { cbn [exceptions flat_map app]. fold (exceptions (written ++ [EvClose])).
        rewrite exceptions_app, Hr. reflexivity. }
      rewrite Hex.
      split; [reflexivity |]. split; [| split; [| split; [| split]]].
      * cbn [trace]. rewrite Ht. unfold w1. cbn [trace].
        rewrite <- !app_assoc. reflexivity.
      * cbn [console]. rewrite Hc. reflexivity.
      * split; reflexivity.
      * cbn [files_opened flat_map app]. fold (files_opened (written ++ [EvClose])).
        rewrite files_opened_app, Hnoopen. reflexivity.
      * intros _. f_equal. f_equal.
        rewrite (writer_events_rows written Hp Hr), Hrows.
        rewrite firstn_all2 by exact Hall. reflexivity.
  - destruct Hr as [tr0 [tr1 [-> Hnone]]]. rewrite close_file_cases.
    destruct (fs_close (env w2)) as [[e' |] fs2].
    + exists false, (mkWorld fs2 (console w2 ++ [("Error saving to file: " ++ str_exn e')%string])
                             (trace w2 ++ [EvClose; EvRaised e']))%list,
             (EvOpen filename :: (tr0 ++ EvRaised e :: tr1) ++ [EvClose; EvRaised e'])%list.
      assert (Hex : exceptions (EvOpen filename :: (tr0 ++ EvRaised e :: tr1)
                                  ++ [EvClose; EvRaised e'])
                    = (exceptions (tr0 ++ EvRaised e :: tr1) ++ [e'])%list).
      { cbn [exceptions flat_map app].
        fold (exceptions ((tr0 ++ EvRaised e :: tr1) ++ [EvClose; EvRaised e'])).
        rewrite exceptions_app. reflexivity. }
      rewrite Hex, last_snoc.
      split; [reflexivity |]. split; [| split; [| split; [| split]]].
      * cbn [trace]. rewrite Ht. unfold w1. cbn [trace].
        rewrite <- !app_assoc. reflexivity.
      * cbn [console]. rewrite Hc. reflexivity.
      * split; [discriminate |]. intros H. apply app_eq_nil in H.
        destruct H as [_ H]. discriminate.
      * cbn [files_opened flat_map app].
        fold (files_opened ((tr0 ++ EvRaised e :: tr1) ++ [EvClose; EvRaised e'])).
        rewrite files_opened_app, Hnoopen. reflexivity.
      * intros H. apply app_eq_nil in H. destruct H as [_ H]. discriminate.
    + exists false, (mkWorld fs2 (console w2 ++ [("Error saving to file: " ++ str_exn e)%string])
                             (trace w2 ++ [EvClose]))%list,
             (EvOpen filename :: (tr0 ++ EvRaised e :: tr1) ++ [EvClose])%list.
      assert (Hex : exceptions (EvOpen filename :: (tr0 ++ EvRaised e :: tr1)
                                  ++ [EvClose])
                    = exceptions (tr0 ++ EvRaised e :: tr1)).
      { cbn [exceptions flat_map app].
        fold (exceptions ((tr0 ++ EvRaised e :: tr1) ++ [EvClose])).
        apply exceptions_of_rows. }
      rewrite Hex, (exceptions_last tr0 tr1 e _ Hnone).
      split; [reflexivity |]. split; [| split; [| split; [| split]]].
      * cbn [trace]. rewrite Ht. unfold w1. cbn [trace].
        rewrite <- !app_assoc. reflexivity.
      * cbn [console]. rewrite Hc. reflexivity.
      * split; [discriminate |]. intros H. rewrite exceptions_app in H.
        apply app_eq_nil in H. destruct H as [_ H]. discriminate.
      * cbn [files_opened flat_map app].
        fold (files_opened ((tr0 ++ EvRaised e :: tr1) ++ [EvClose])).
        rewrite files_opened_app, Hnoopen. reflexivity.
      * intros H. rewrite exceptions_app in H.
        apply app_eq_nil in H. destruct H as [_ H]. discriminate.
Qed.
End SaveOutcome.

(** ** The summary on the console *)

Section Summary.
Variables A Credentials Service RNG FS : Type.

Lemma show_samples_run :
  forall emails i (w : world (World A Credentials Service RNG FS)),
    0 <= i ->
    show_samples A Credentials Service RNG FS i emails w
    = (Ok tt,
       mkWorld (env w)
               (console w
                  ++ flat_map sample_lines (firstn (Z.to_nat (3 - i)) emails))%list
               (trace w)).
Proof.
  induction emails as [| email rest IH]; intros i w Hi.
  - cbn [show_samples]. rewrite firstn_nil. cbn [flat_map]. rewrite app_nil_r.
    destruct w; reflexivity.
  - cbn [show_samples]. unfold bind at 1. destruct (i <? 3) eqn:Hlt.
    + apply Z.ltb_lt in Hlt. unfold when, show_sample, bind, print.
      rewrite IH by lia. cbn [env console trace].
      replace (Z.to_nat (3 - i)) with (S (Z.to_nat (3 - (i + 1)))) by lia.
      cbn [firstn flat_map sample_lines]. rewrite <- !app_assoc. reflexivity.
    + apply Z.ltb_ge in Hlt. unfold when, ret. rewrite IH by lia.
      replace (Z.to_nat (3 - i)) with 0%nat by lia.
      replace (Z.to_nat (3 - (i + 1))) with 0%nat by lia. reflexivity.
Qed.

Lemma show_category_run :
  forall item (w : world (World A Credentials Service RNG FS)),
    show_category A Credentials Service RNG FS item w
    = (Ok tt, mkWorld (env w) (console w ++ category_lines item)%list (trace w)).
Proof.
  intros item w. unfold show_category, category_lines. cbv zeta.
  unfold bind at 1. unfold print at 1. unfold bind at 1.
  rewrite show_samples_run by lia. cbn [env console trace].
  replace (Z.to_nat (3 - 0)) with 3%nat by reflexivity.
  destruct (3 <? List.length (snd item))%nat eqn:Hlen.
  - apply Nat.ltb_lt in Hlen.
    replace (3 <? Z.of_nat (List.length (snd item))) with true
      by (symmetry; apply Z.ltb_lt; lia).
    unfold when, print. cbn [env console trace].
    replace (Z.of_nat (List.length (snd item) - 3))
      with (Z.of_nat (List.length (snd item)) - 3) by lia.
    rewrite <- !app_assoc. reflexivity.
  - apply Nat.ltb_ge in Hlen.
    replace (3 <? Z.of_nat (List.length (snd item))) with false
      by (symmetry; apply Z.ltb_ge; lia).
    unfold when, ret. rewrite <- !app_assoc, app_nil_r. reflexivity.
Qed.

Lemma summary_run :
  forall categories (w : world (World A Credentials Service RNG FS)),
    for_each (World A Credentials Service RNG FS) categories
             (show_category A Credentials Service RNG FS) w
    = (Ok tt,
       mkWorld (env w) (console w ++ flat_map category_lines categories)%list
               (trace w)).
Proof.
  induction categories as [| item categories IH]; intros w.
  - cbn. rewrite app_nil_r. destruct w; reflexivity.
  - cbn [for_each flat_map]. unfold bind. rewrite show_category_run, IH.
    cbn [env console trace]. rewrite <- app_assoc. reflexivity.
Qed.
End Summary.

(** ** What [main] does with the records *)

Lemma labelled_has_category : forall emails,
  Forall labelled emails ->
  Forall (fun email => email_category email <> None) emails.
Proof.
  intros emails H. eapply Forall_impl; [| exact H].
  intros email [label [Hl _]]. congruence.
Qed.

Section ReportTheorems.
Context {numpy : Numpy}.
Variables A Credentials Service RNG FS Matrix : Type.
Variable fit_transform :
  TfidfVectorizer -> list string -> exn + (Matrix * list string).
Variable fit : KMeans -> RNG -> Matrix -> (exn + KMeansFitted) * RNG.
Variable fs_open : FS -> string -> option exn * FS.
Variable fs_writerow : FS -> list string -> option exn * FS.
Variable fs_close : FS -> option exn * FS.

(** A run of the second half of [main] on at least one record. *)
Lemma report_run :
  forall email emails (w : world (World A Credentials Service RNG FS)),
    exists out categories b w' tr_cat tr_exp,
      report A Credentials Service RNG FS Matrix fit_transform fit
             fs_open fs_writerow fs_close (email :: emails) w
      = (Ok tt, w')
      /\ Forall2 (fun e e' => exists label, e' = set_category label e)
                 (email :: emails) out
      /\ group_by_category out [] = inr categories
      /\ trace w' = (trace w ++ tr_cat ++ tr_exp)%list
      /\ Forall categorizer_event tr_cat
      /\ (List.length (exceptions tr_cat) <= 1)%nat
      /\ files_opened tr_exp = ["email_categories.csv"]
      /\ (exceptions tr_exp = [] ->
          tr_exp = (EvOpen "email_categories.csv"
                      :: map EvWriteRow (csv_rows categories) ++ [EvClose])%list)
      /\ (b = true <-> exceptions tr_exp = [])
      /\ console w'
         = (console w
              ++ [(nl ++ "Found " ++ str_int (Z.of_nat (List.length (email :: emails)))
                      ++ " unread emails (excluding spam and archived).")%string;
                  (nl ++ "Categorizing emails...")%string]
              ++ map (fun e => ("Error in categorization: " ++ str_exn e)%string)
                     (exceptions tr_cat)
              ++ [(nl ++ "===== Email Categories =====")%string]
              ++ flat_map category_lines categories
              ++ [if b then "Categories saved to email_categories.csv"%string
                  else ("Error saving to file: "
                          ++ str_exn (last (exceptions tr_exp) (LibraryError "")))%string;
                  (nl ++ "All categorized emails have been saved to email_categories.csv")%string])%list.
Proof.
  intros email emails w. unfold report. cbn [list_truthy negb].
  unfold bind, print, in_rng, in_files, zoom.
  cbn [env console trace env_auth env_service env_rng env_files].
  match goal with
  | |- context [suggest_categories _ _ _ _ ?W] =>
      destruct (suggest_categories_labels Matrix RNG fit_transform fit email emails 5 W)
        as [out [wc [Hrun [Hshape [Hlab _]]]]];
      destruct (suggest_categories_events Matrix RNG fit_transform fit
                  (email :: emails) 5 W) as [tr_cat [Htc [Hpc [Hcc Hone]]]]
  end.
  rewrite Hrun in Htc, Hcc. cbn [snd trace console] in Htc, Hcc.
  rewrite Hrun. cbn [env console trace env_auth env_service env_rng env_files].
  assert (Hgroup : exists categories, group_by_category out [] = inr categories).
  { rewrite group_by_category_run;
      [eexists; reflexivity | constructor | apply labelled_has_category; exact Hlab]. }
  destruct Hgroup as [categories Hgroup]. rewrite Hgroup. unfold lift, ret.
  rewrite summary_run.
  cbn [env console trace env_auth env_service env_rng env_files].
  match goal with
  | |- context [save_categories_to_file _ _ _ _ _ ?W] =>
      destruct (save_outcome FS fs_open fs_writerow fs_close categories
                  "email_categories.csv" W)
        as [b [wf [tr_exp [Hsave [Hte [Hce [Hb [Hopen Hrows]]]]]]]]
  end.
  rewrite Hsave. cbn [env console trace env_auth env_service env_rng env_files].
  cbn [trace console] in Hte, Hce.
  exists out, categories, b. eexists. exists tr_cat, tr_exp.
  split; [reflexivity |]. cbn [trace console].
  split; [exact Hshape |]. split; [exact Hgroup |].
  split; [rewrite Hte, Htc, <- app_assoc; reflexivity |].
  split; [exact Hpc |]. split; [exact Hone |]. split; [exact Hopen |].
  split; [exact Hrows |]. split; [exact Hb |].
  rewrite Hce, Hcc. rewrite <- !app_assoc. reflexivity.
Qed.

(** X20.  [main] always ends its report by announcing the export.  Without
    records it prints one line and does nothing else.  With records it
    prints their number, at most one categorization error, the summary of
    every category in the order of the grouping (up to three samples each
    and the number of the others), the verdict of the export and then, also
    when that verdict is an error, that all categorized emails have been
    saved; it never raises. *)
Theorem report_announces_the_export_whatever_its_verdict :
  forall emails (w : world (World A Credentials Service RNG FS)),
    exists w',
      report A Credentials Service RNG FS Matrix fit_transform fit
             fs_open fs_writerow fs_close emails w
      = (Ok tt, w')
      /\ match emails with
         | [] =>
             lines_since w w' = ["No unread emails to analyze."]
             /\ events_since w w' = []
         | _ :: _ =>
             exists out categories errors verdict,
               Forall2 (fun e e' => exists label, e' = set_category label e)
                       emails out
               /\ group_by_category out [] = inr categories
               /\ lines_since w w'
                  = ([(nl ++ "Found " ++ str_int (Z.of_nat (List.length emails))
                          ++ " unread emails (excluding spam and archived).")%string;
                      (nl ++ "Categorizing emails...")%string]
                       ++ errors
                       ++ [(nl ++ "===== Email Categories =====")%string]
                       ++ flat_map category_lines categories
                       ++ [verdict;
                           (nl ++ "All categorized emails have been saved to email_categories.csv")%string])%list
               /\ (errors = []
                   \/ exists e,
                        errors = [("Error in categorization: " ++ str_exn e)%string])
               /\ (verdict = "Categories saved to email_categories.csv"
                   \/ exists e,
                        verdict = ("Error saving to file: " ++ str_exn e)%string
                        /\ In (EvRaised e) (events_since w w'))
         end.
Proof.
  intros [| email emails] w.
  - unfold report. cbn [list_truthy negb]. unfold print. eexists.
    split; [reflexivity |]. split.
    + apply lines_since_app. reflexivity.
    + apply events_since_app. cbn [trace]. symmetry. apply app_nil_r.
  - destruct (report_run email emails w)
      as [out [categories [b [w' [tr_cat [tr_exp
           [Hrun [Hshape [Hgroup [Ht [Hpc [Hone [Hopen [Hrows [Hb Hc]]]]]]]]]]]]]]].
    exists w'. split; [exact Hrun |].
    exists out, categories,
      (map (fun e => ("Error in categorization: " ++ str_exn e)%string)
           (exceptions tr_cat)),
      (if b then "Categories saved to email_categories.csv"%string
       else ("Error saving to file: "
               ++ str_exn (last (exceptions tr_exp) (LibraryError "")))%string).
    split; [exact Hshape |]. split; [exact Hgroup |].
    split; [apply lines_since_app; exact Hc |]. split.
    + destruct (exceptions tr_cat) as [| e [| e' l]]; cbn in Hone; [| | lia].
      * left. reflexivity.
      * right. exists e. reflexivity.
    + destruct b; [left; reflexivity | right].
      exists (last (exceptions tr_exp) (LibraryError "")). split; [reflexivity |].
      rewrite (events_since_app _ _ w w' _ Ht).
      apply in_or_app. right. apply exceptions_In.
      destruct (exceptions tr_exp) as [| e l] eqn:Hex.
      * destruct Hb as [_ Hb]. discriminate (Hb eq_refl).
      * rewrite <- Hex. apply last_In. rewrite Hex. discriminate.
Qed.

(** X21.  A run of the report in which no exception occurs, on N records, writes
    N+1 rows to [email_categories.csv]: the header and then the row of each
    labelled record, category by category in the order of the grouping. *)
Theorem report_exports_every_record :
  forall email emails (w : world (World A Credentials Service RNG FS)),
    let tr :=
      events_since w
        (snd (report A Credentials Service RNG FS Matrix fit_transform fit
                     fs_open fs_writerow fs_close (email :: emails) w)) in
    exceptions tr = [] ->
    exists out categories,
      Forall2 (fun e e' => exists label, e' = set_category label e)
              (email :: emails) out
      /\ group_by_category out [] = inr categories
      /\ files_opened tr = ["email_categories.csv"]
      /\ rows_written tr = csv_rows categories
      /\ List.length (rows_written tr) = S (S (List.length emails)).
Proof.
  intros email emails w tr. unfold tr. clear tr.
  destruct (report_run email emails w)
    as [out [categories [b [w' [tr_cat [tr_exp
         [Hrun [Hshape [Hgroup [Ht [Hpc [Hone [Hopen [Hrows [Hb Hc]]]]]]]]]]]]]]].
  rewrite Hrun. cbn [snd]. rewrite (events_since_app _ _ w w' _ Ht).
  rewrite exceptions_app. intros Hnone. apply app_eq_nil in Hnone.
  destruct Hnone as [_ Hnone]. specialize (Hrows Hnone).
  destruct (categorizer_events_write_nothing tr_cat Hpc) as [Hno1 Hno2].
  exists out, categories. split; [exact Hshape |]. split; [exact Hgroup |].
  rewrite files_opened_app, rows_written_app, Hno1, Hno2, Hopen. cbn [app].
  assert (Hwritten : rows_written tr_exp = csv_rows categories).
  { rewrite Hrows.
    change (EvOpen "email_categories.csv"
              :: map EvWriteRow (csv_rows categories) ++ [EvClose])%list
      with ([EvOpen "email_categories.csv"]
              ++ map EvWriteRow (csv_rows categories) ++ [EvClose])%list.
    rewrite !rows_written_app, rows_written_rows. apply app_nil_r. }
  rewrite Hwritten. split; [reflexivity |]. split; [reflexivity |].
  unfold csv_rows. cbn [List.length]. f_equal. rewrite csv_rows_length.
  destruct (group_by_category_partition out [] categories Hgroup)
    as [_ [_ Hperm]]; [constructor | constructor |].
  rewrite (Permutation_length Hperm). cbn [flat_map app].
  rewrite <- (Forall2_length Hshape). reflexivity.
Qed.
End ReportTheorems.

(** ** The whole program *)

Lemma last_two : forall (A : Type) (l : list A) a b d, last (l ++ [a; b]) d = b.
Proof.
  intros A l a b d. change (l ++ [a; b])%list with (l ++ [a] ++ [b])%list.
  rewrite app_assoc. apply last_last.
Qed.

Lemma fetch_never_raises :
  forall (Service : Type)
         (messages_list : Service -> string -> string -> option string -> Z ->
                          (exn + ListResponse) * Service)
         (messages_get : Service -> string -> string -> string -> list string ->
                         (exn + Message) * Service)
         fuel user_id batch_size w e,
    fst (get_all_unread_emails messages_list messages_get fuel user_id batch_size w)
    <> Raise e.
Proof.
  intros Service messages_list messages_get fuel user_id batch_size w e.
  unfold get_all_unread_emails, try_except.
  destruct (fetch_body messages_list messages_get fuel user_id batch_size w)
    as [[emails | e' |] w1]; cbn; discriminate.
Qed.

Section MainTheorems.
Context {numpy : Numpy}.
Variables A Credentials Flow Handle Service RNG FS Matrix : Type.
Variable valid : Credentials -> bool.
Variable expired : Credentials -> bool.
Variable has_refresh_token : Credentials -> bool.
Variable path_exists : A -> string -> bool.
Variable pickle_load : A -> string -> (exn + option Credentials) * A.
Variable creds_refresh : A -> Credentials -> (exn + Credentials) * A.
Variable from_client_secrets_file :
  A -> string -> list string -> (exn + Flow) * A.
Variable run_local_server :
  A -> Flow -> Z -> string -> string -> (exn + Credentials) * A.
Variable pickle_dump : A -> string -> Credentials -> option exn * A.
Variable build : A -> string -> string -> Credentials -> (exn + Handle) * A.
Variable messages_list :
  Handle -> Service -> string -> string -> option string -> Z ->
  (exn + ListResponse) * Service.
Variable messages_get :
  Handle -> Service -> string -> string -> string -> list string ->
  (exn + Message) * Service.
Variable fit_transform :
  TfidfVectorizer -> list string -> exn + (Matrix * list string).
Variable fit : KMeans -> RNG -> Matrix -> (exn + KMeansFitted) * RNG.
Variable fs_open : FS -> string -> option exn * FS.
Variable fs_writerow : FS -> list string -> option exn * FS.
Variable fs_close : FS -> option exn * FS.

(** X22.  [main] ends in one of three ways.  It raises only what the
    authentication raises, before any request to the provider and with
    nothing but its first line printed.  It returns after
    [No unread emails to analyze.] when the fetch came back empty (no
    unread mail, or an error during the fetch), having done nothing but the
    fetch.  Or it returns after announcing the export, having opened
    [email_categories.csv] once and no other file.  Only the pagination
    loop can keep it from ending. *)
Theorem main_ends_in_one_of_three_ways :
  forall fuel (w : world (World A Credentials Service RNG FS)),
    let run :=
      main A Credentials Flow Handle Service RNG FS Matrix valid expired
           has_refresh_token path_exists pickle_load creds_refresh
           from_client_secrets_file run_local_server pickle_dump build
           messages_list messages_get fit_transform fit
           fs_open fs_writerow fs_close fuel w in
    match fst run with
    | Raise e =>
        events_since w (snd run) = [EvRaised e]
        /\ lines_since w (snd run) = ["Authenticating with Gmail..."]
    | Ok _ =>
        (last_line (snd run) = "No unread emails to analyze."
         /\ Forall fetch_event (events_since w (snd run)))
        \/ (last_line (snd run)
            = (nl ++ "All categorized emails have been saved to email_categories.csv")%string
            /\ files_opened (events_since w (snd run)) = ["email_categories.csv"])
    | Diverge => Forall fetch_event (events_since w (snd run))
    end.
Proof.
  intros fuel w run. unfold run. clear run. unfold main.
  unfold bind, print, in_auth, in_service, zoom.
  cbn [env console trace env_auth env_service env_rng env_files].
  match goal with
  | |- context [authenticate_gmail _ _ _ _ _ _ _ _ _ _ _ _ _ _ ?W] =>
      destruct (authenticate_gmail A Credentials valid expired has_refresh_token
                  Flow Handle path_exists pickle_load creds_refresh
                  from_client_secrets_file run_local_server pickle_dump build W)
        as [r wa] eqn:Hauth
  end.
  apply authenticate_world in Hauth. cbn [console trace] in Hauth.
  destruct Hauth as [Hca [Hta Hfin]].
  destruct r as [service | e |]; [| | congruence].
  - cbn [env console trace env_auth env_service env_rng env_files fst snd].
    rewrite app_nil_r in Hta.
    assert (Hemits : emits fetch_event
                       (get_all_unread_emails (messages_list service)
                          (messages_get service) fuel "me" 25)).
    { unfold get_all_unread_emails.
      apply emits_try_except;
        [apply emits_fetch_body
        | intros e; apply emits_bind; [apply emits_print | intros _; apply emits_ret]]. }
    match goal with
    | |- context [get_all_unread_emails _ _ _ _ _ ?W] =>
        destruct (Hemits W) as [tr_fetch [Htf Hpf]];
        pose proof (fetch_never_raises Service (messages_list service)
                      (messages_get service) fuel "me" 25 W) as Hnoraise;
        destruct (get_all_unread_emails (messages_list service)
                    (messages_get service) fuel "me" 25 W)
          as [[emails | e |] wf]
    end; cbn [fst snd trace] in Htf, Hnoraise; [| destruct (Hnoraise e eq_refl) |].
    + destruct emails as [| email emails].
      * unfold report. cbn [list_truthy negb]. unfold print.
        cbn [fst snd env console trace]. left. split.
        -- unfold last_line. cbn [console]. apply last_last.
        -- rewrite (events_since_app _ _ w _ tr_fetch); [exact Hpf |].
           cbn [trace]. rewrite Htf, Hta. reflexivity.
      * match goal with
        | |- context [report _ _ _ _ _ _ _ _ _ _ _ _ ?W] =>
            destruct (report_run A Credentials Service RNG FS Matrix fit_transform
                        fit fs_open fs_writerow fs_close email emails W)
              as [out [categories [b [w' [tr_cat [tr_exp
                   [Hrun [_ [_ [Ht [Hpc [_ [Hopen [_ [_ Hc]]]]]]]]]]]]]]]
        end.
        rewrite Hrun. cbn [fst snd]. cbn [trace console] in Ht, Hc. right. split.
        -- unfold last_line. rewrite Hc. rewrite !app_assoc. apply last_two.
        -- rewrite (events_since_app _ _ w _ (tr_fetch ++ tr_cat ++ tr_exp)).
           ++ rewrite !files_opened_app.
              rewrite (fetch_events_open_nothing _ Hpf).
              destruct (categorizer_events_write_nothing _ Hpc) as [-> _].
              exact Hopen.
           ++ rewrite Ht, Htf, Hta. rewrite <- app_assoc. reflexivity.
    + cbn [fst snd]. rewrite (events_since_app _ _ w _ tr_fetch); [exact Hpf |].
      cbn [trace]. rewrite Htf, Hta. reflexivity.
  - cbn [fst snd]. split.
    + apply events_since_app. cbn [trace]. exact Hta.
    + apply lines_since_app. cbn [console]. exact Hca.
Qed.
End MainTheorems.

(** * The further properties on sample runs *)

Lemma fetch_without_estimate_reads_one_page_witness :
  list_requests
    (events_since (fresh 0%nat)
       (snd (get_all_unread_emails Sample.unestimated_list Sample.messages_get_ok
               5 "me" 25 (fresh 0%nat))))
  = [(unread_query, None, 1); (unread_query, None, 100)].
Proof.
  eapply (fetch_without_estimate_reads_one_page nat Sample.unestimated_list
            Sample.messages_get_ok 4 "me" 25 (fresh 0%nat)); reflexivity.
Defined.

Lemma pagination_concatenates_pages_witness :
  exists pages tr,
    pages <> []
    /\ [inr (mkListResponse (Some 9) (Some [mkMessageRef (Some "m1") None]) (Some "p2"));
        inr (mkListResponse (Some 9) (Some [mkMessageRef (Some "m2") None]) None);
        inl (LibraryError "unused")]
       = (map inr pages ++ [inl (LibraryError "unused")])%list
    /\ [mkMessageRef (Some "m1") None; mkMessageRef (Some "m2") None]
       = ([] ++ flat_map page_messages pages)%list
    /\ [EvListMessages unread_query None 100;
        EvListMessages unread_query (Some "p2") 100]
       = ([] ++ tr)%list
    /\ tr = map (fun token => EvListMessages unread_query token 100)
                (firstn (List.length pages) (None :: map nextPageToken pages)).
Proof.
  apply (pagination_concatenates_pages 5 "me" 9 (mkPageState [] None 0)
           (fresh [inr (mkListResponse (Some 9) (Some [mkMessageRef (Some "m1") None])
                                        (Some "p2"));
                   inr (mkListResponse (Some 9) (Some [mkMessageRef (Some "m2") None])
                                        None);
                   inl (LibraryError "unused")])
           (mkWorld [inl (LibraryError "unused")]
                    ["Fetching page 1 of unread emails...";
                     "Fetched message IDs: 1/9";
                     "Fetching page 2 of unread emails...";
                     "Fetched message IDs: 2/9"]
                    [EvListMessages unread_query None 100;
                     EvListMessages unread_query (Some "p2") 100])
           [mkMessageRef (Some "m1") None; mkMessageRef (Some "m2") None]).
  vm_compute. reflexivity.
Defined.

Lemma fetch_one_record_per_request_witness :
  Forall2 (hydrated_from nat Sample.messages_get_ok "me")
    (get_requests
       (events_since (fresh 0%nat)
          (snd (get_all_unread_emails Sample.messages_list Sample.messages_get_ok
                  5 "me" 25 (fresh 0%nat)))))
    [mkEmail "m1" "t" (Some "a@example.org") (Some "Invoice due") None
             (Some true) "" None;
     mkEmail "m2" "t" (Some "a@example.org") (Some "Invoice due") None
             (Some false) "" None;
     mkEmail "m3" "t" (Some "a@example.org") (Some "Invoice due") None
             (Some true) "" None].
Proof.
  apply (fetch_one_record_per_request nat Sample.messages_list
           Sample.messages_get_ok 5 "me" 25 (fresh 0%nat)).
  - vm_compute. reflexivity.
  - discriminate.
Defined.

Lemma fetch_pauses_between_batches_witness :
  pauses
    (events_since (fresh 0%nat)
       (snd (get_all_unread_emails Sample.messages_list Sample.messages_get_ok
               5 "me" 2 (fresh 0%nat))))
  = [1].
Proof.
  apply (fetch_pauses_between_batches nat Sample.messages_list
           Sample.messages_get_ok 5 "me" 2 (fresh 0%nat)
           [mkEmail "m1" "t" (Some "a@example.org") (Some "Invoice due") None
                    (Some true) "" None;
            mkEmail "m2" "t" (Some "a@example.org") (Some "Invoice due") None
                    (Some false) "" None;
            mkEmail "m3" "t" (Some "a@example.org") (Some "Invoice due") None
                    (Some true) "" None]).
  - lia.
  - vm_compute. reflexivity.
  - discriminate.
Defined.

Lemma fetch_with_zero_batch_size_is_empty_witness :
  fst (get_all_unread_emails Sample.messages_list Sample.messages_get_ok
         5 "me" 0 (fresh 0%nat))
  = Ok []
  /\ last_line (snd (get_all_unread_emails Sample.messages_list
                       Sample.messages_get_ok 5 "me" 0 (fresh 0%nat)))
     = "An error occurred: integer modulo by zero".
Proof.
  split; [| vm_compute; reflexivity].
  destruct (get_all_unread_emails Sample.messages_list Sample.messages_get_ok
              5 "me" 0 (fresh 0%nat)) as [[out | e |] w'] eqn:Hrun;
    [| vm_compute in Hrun; discriminate | vm_compute in Hrun; discriminate].
  cbn [fst]. f_equal.
  exact (fetch_with_zero_batch_size_is_empty nat Sample.messages_list
           Sample.messages_get_ok 5 "me" (fresh 0%nat) out w' Hrun).
Defined.

Lemma fetch_of_empty_mailbox_witness :
  get_all_unread_emails Sample.empty_page_list Sample.messages_get_ok 5 "me" 25
                        (fresh 0%nat)
  = (Ok [],
     mkWorld 2%nat
       ["Total unread emails (excluding spam and archived): 50";
        "Fetching page 1 of unread emails...";
        "No unread messages found."]
       [EvListMessages unread_query None 1; EvListMessages unread_query None 100]).
Proof.
  apply (fetch_of_empty_mailbox nat Sample.empty_page_list Sample.messages_get_ok
           4 "me" 25 (fresh 0%nat)
           (mkListResponse (Some 50) (Some []) (Some "p2")) 1%nat
           (mkListResponse (Some 50) (Some []) (Some "p2")) 2%nat);
    reflexivity.
Defined.

Lemma hydrate_reads_the_last_header_witness :
  exists payload hs,
    Some (mkPayload (Some [mkHeader (Some "Subject") (Some "first");
                           mkHeader (Some "From") (Some "a@example.org");
                           mkHeader (Some "Subject") (Some "second")]))
    = Some payload
    /\ headers payload = Some hs
    /\ Some "m1" = Some "m1" /\ Some "t1" = Some "t1"
    /\ Some "a@example.org" = last_header "From" hs
    /\ Some "second" = last_header "Subject" hs
    /\ None = last_header "Date" hs
    /\ @None string = None.
Proof.
  apply (hydrate_reads_the_last_header
           (mkMessage (Some "m1") (Some "t1")
              (Some (mkPayload (Some [mkHeader (Some "Subject") (Some "first");
                                      mkHeader (Some "From") (Some "a@example.org");
                                      mkHeader (Some "Subject") (Some "second")])))
              (Some "Dear customer"))
           (mkEmail "m1" "t1" (Some "a@example.org") (Some "second") None
                    (Some true) "" None)).
  vm_compute. reflexivity.
Defined.

Lemma effective_clusters_bounds_witness :
  2 <= effective_clusters ["Invoice due"] 5 <= 5
  /\ (effective_clusters ["Invoice due"] 5 <= 1 <-> 2 <= 1).
Proof.
  apply (effective_clusters_bounds ["Invoice due"] 5); [discriminate | lia].
Defined.

Lemma categories_are_distinct_witness :
  NoDup ["Category 1: team, invoice, meeting"; "Category 2: meeting, team, invoice"].
Proof.
  apply (categories_are_distinct (numpy := Sample.numpy) ["invoice"; "meeting"; "team"]
           [[1 # 2; 0; 1 # 2]; [0; 1; 0]]%Q 2).
  vm_compute. reflexivity.
Defined.

Lemma each_record_gets_the_label_of_its_cluster_witness :
  fst (suggest_categories (numpy := Sample.numpy) Sample.fit_transform Sample.fit
         [Sample.mail "Invoice due"; Sample.mail "Team meeting"] 2 (fresh 0))
  = Ok [set_category "Category 1: team, invoice, meeting" (Sample.mail "Invoice due");
        set_category "Category 2: team, invoice, meeting" (Sample.mail "Team meeting")].
Proof.
  refine (each_record_gets_the_label_of_its_cluster (numpy := Sample.numpy) (list string) Z
            Sample.fit_transform Sample.fit
            (Sample.mail "Invoice due") [Sample.mail "Team meeting"] 2 (fresh 0)
            ["Invoice due"; "Team meeting"] ["invoice"; "meeting"; "team"]
            (mkKMeansFitted [0; 1] [[1 # 2; 0; 1 # 2]; [1 # 2; 0; 1 # 2]]%Q) 0
            _ _ _ _ _).
  - vm_compute. reflexivity.
  - vm_compute. reflexivity.
  - reflexivity.
  - reflexivity.
  - repeat constructor; vm_compute; congruence.
Defined.

Lemma fetch_returns_witness :
  exists emails,
    fst (get_all_unread_emails Sample.messages_list Sample.messages_get_ok
           5 "me" 25 (fresh 0%nat)) = Ok emails.
Proof.
  apply (fetch_returns nat Sample.messages_list Sample.messages_get_ok
           "me" 25 (fresh 0%nat) 4).
  intros total_count H. vm_compute in H. injection H as <-.
  exact stops_by_example.
Defined.

(** Expired credentials with a refresh token on disk: they are refreshed,
    written back and used. *)
Lemma authenticate_builds_from_the_stored_token_witness :
  exists creds,
    (exists a, fst (Sample.build a "gmail" "v1" creds) = inr 13)
    /\ ((Sample.valid creds = true
         /\ [CallExists "token.pickle"; CallLoad "token.pickle"; CallRefresh 3;
             CallDump "token.pickle" 13; CallBuild "gmail" "v1" 13]
            = [CallExists "token.pickle"; CallLoad "token.pickle";
               CallBuild "gmail" "v1" creds])
        \/ exists before,
             [CallExists "token.pickle"; CallLoad "token.pickle"; CallRefresh 3;
              CallDump "token.pickle" 13; CallBuild "gmail" "v1" 13]
             = (before ++ [CallDump "token.pickle" creds;
                           CallBuild "gmail" "v1" creds])%list).
Proof.
  apply (authenticate_builds_from_the_stored_token (option Z) Z
           Sample.valid Sample.expired Sample.has_refresh_token unit Z
           Sample.path_exists Sample.pickle_load Sample.creds_refresh
           Sample.from_client_secrets_file Sample.run_local_server
           Sample.pickle_dump Sample.build
           (fresh (mkAuthEnv (Some 3) [])) 13
           (mkWorld (mkAuthEnv (Some 13)
                       [CallExists "token.pickle"; CallLoad "token.pickle";
                        CallRefresh 3; CallDump "token.pickle" 13;
                        CallBuild "gmail" "v1" 13])
                    [] [])).
  vm_compute. reflexivity.
Defined.

Lemma authenticate_refreshes_instead_of_asking_witness :
  Sample.valid 3 = false /\ Sample.expired 3 = true
  /\ Sample.has_refresh_token 3 = true
  /\ firstn 3 [CallExists "token.pickle"; CallLoad "token.pickle"; CallRefresh 3;
               CallDump "token.pickle" 13; CallBuild "gmail" "v1" 13]
     = [CallExists "token.pickle"; CallLoad "token.pickle"; CallRefresh 3]
  /\ existsb is_consent
       [CallExists "token.pickle"; CallLoad "token.pickle"; CallRefresh 3;
        CallDump "token.pickle" 13; CallBuild "gmail" "v1" 13]
     = false.
Proof.
  apply (authenticate_refreshes_instead_of_asking (option Z) Z
           Sample.valid Sample.expired Sample.has_refresh_token unit Z
           Sample.path_exists Sample.pickle_load Sample.creds_refresh
           Sample.from_client_secrets_file Sample.run_local_server
           Sample.pickle_dump Sample.build
           (fresh (mkAuthEnv (Some 3) [])) (Ok 13)
           (mkWorld (mkAuthEnv (Some 13)
                       [CallExists "token.pickle"; CallLoad "token.pickle";
                        CallRefresh 3; CallDump "token.pickle" 13;
                        CallBuild "gmail" "v1" 13])
                    [] [])
           3).
  - vm_compute. reflexivity.
  - vm_compute. auto.
Defined.

Lemma grouping_loses_no_record_witness :
  NoDup ["b"; "a"]
  /\ Forall (fun item : string * list Email => snd item <> [])
       [("b", [set_category "b" (Sample.mail "one");
               set_category "b" (Sample.mail "three")]);
        ("a", [set_category "a" (Sample.mail "two")])]
  /\ Permutation
       [set_category "b" (Sample.mail "one"); set_category "b" (Sample.mail "three");
        set_category "a" (Sample.mail "two")]
       [set_category "b" (Sample.mail "one"); set_category "a" (Sample.mail "two");
        set_category "b" (Sample.mail "three")].
Proof.
  apply (grouping_loses_no_record
           [set_category "b" (Sample.mail "one"); set_category "a" (Sample.mail "two");
            set_category "b" (Sample.mail "three")]
           [("b", [set_category "b" (Sample.mail "one");
                   set_category "b" (Sample.mail "three")]);
            ("a", [set_category "a" (Sample.mail "two")])]).
  vm_compute. reflexivity.
Defined.

Lemma report_exports_every_record_witness :
  exists out categories,
    Forall2 (fun e e' => exists label, e' = set_category label e)
            [Sample.mail "Invoice due"; Sample.mail "Team meeting"] out
    /\ group_by_category out [] = inr categories
    /\ [ "email_categories.csv" ] = ["email_categories.csv"]
    /\ [["Category"; "From"; "Subject"; "Date"; "Has Body"];
        ["Category 1: team, invoice, meeting"; "a@example.org"; "Invoice due";
         "Unknown"; "True"];
        ["Category 2: team, invoice, meeting"; "a@example.org"; "Team meeting";
         "Unknown"; "True"]]
       = csv_rows categories
    /\ 3%nat = 3%nat.
Proof.
  apply (report_exports_every_record (numpy := Sample.numpy) (option Z) Z nat Z (list (list string))
           (list string) Sample.fit_transform Sample.fit
           Sample.fs_open Sample.fs_writerow Sample.fs_close
           (Sample.mail "Invoice due") [Sample.mail "Team meeting"]
           (fresh (mkEnv (mkAuthEnv None []) 0%nat 0 []))).
  vm_compute. reflexivity.
Defined.
